(** * gocryptfs: name transformation, config file and key wrapping, CLI options

    A shallow embedding of
      - internal/nametransform/names.go  (file name encryption),
      - internal/configfile              (gocryptfs.conf: Create, Load,
                                          EncryptKey, DecryptMasterKey, WriteFile),
      - cli_args.go                      (prefixOArgs, parseCliOpts and
                                          its helpers),
    together with the properties the specification states about them and
    further properties read off the code.

    Go values are modelled as follows: [string] is a Rocq [string] (a
    sequence of 8-bit characters), [[]byte] is [list byte], [int] is [nat]
    where it is a length or an index and [Z] otherwise, a [(T, error)]
    return is a [result T], and a Go map from file names to contents is a
    [gmap string (list byte)]. *)

From Stdlib Require Import ZArith Ascii.
From Stdlib.Strings Require Import Byte.
From Stdlib Require String.
From stdpp Require Import base tactics option list gmap strings finite.

Local Open Scope Z_scope.
Local Open Scope nat_scope.

(** ** Go runtime: errors and results *)

(** [syscall.Errno] values the modelled code produces or receives. *)
Inductive Errno : Type :=
| EBADMSG
| EEXIST
| EIO
| ENOENT
| EACCES.

(** An argument of a [fmt.Errorf] verb. *)
Inductive fmtarg : Type :=
| ArgInt (z : Z)
| ArgStr (s : string)
| ArgBytes (b : byte).

(** The Go [error] interface, restricted to the dynamic types that reach the
    modelled functions. [fmt_Errorf] keeps the format string and its
    arguments apart instead of rendering them. [log_Panic msg err] is no
    error value but the panic of [log.Panic(msg + err.Error())]: a call that
    ends in it returns nothing, and since nothing in the modelled code
    recovers from a panic it unwinds through every caller the way an error
    that is passed on does. *)
Inductive error : Type :=
| syscall_Errno (e : Errno)
| errors_New (msg : string)
| fmt_Errorf (format : string) (args : list fmtarg)
| base64_CorruptInputError (offset : nat)
| json_SyntaxError (offset : nat)
| exitcodes_Err (msg : string) (code : Z)
| log_Panic (msg : string) (err : error).

(** A Go [(T, error)] pair in which exactly one side is meaningful. *)
Inductive result (A : Type) : Type :=
| Ok (a : A)
| Error (e : error).
Arguments Ok {A} a.
Arguments Error {A} e.

Definition is_Error {A} (r : result A) : Prop :=
  match r with Ok _ => False | Error _ => True end.

Definition is_Ok {A} (r : result A) : Prop :=
  match r with Ok _ => True | Error _ => False end.

#[global] Instance Errno_eq_dec : EqDecision Errno.
Proof. solve_decision. Defined.
#[global] Instance byte_eq_dec : EqDecision byte := Byte.byte_eq_dec.

(** There are 256 bytes: [Byte.of_bits] is a bijection from 8 bits. *)
#[global] Instance of_bits_inj : Inj (=) (=) Byte.of_bits.
Proof.
  intros x y H.
  by rewrite <- (Byte.to_bits_of_bits x), H, Byte.to_bits_of_bits.
Qed.
#[global] Instance of_bits_surj : Surj (=) Byte.of_bits.
Proof. intros b. exists (Byte.to_bits b). apply Byte.of_bits_to_bits. Qed.
#[global] Instance byte_finite : Finite byte := bijective_finite Byte.of_bits.

(** [[]byte(s)] and [string(b)]. *)
Abbreviation bytes_of_string := String.list_byte_of_string.
Abbreviation string_of_bytes := String.string_of_list_byte.

(** [s[:n]] and [s[n:]] on strings (n within bounds). *)
Definition str_take (n : nat) (s : string) : string :=
  String.substring 0 n s.
Definition str_drop (n : nat) (s : string) : string :=
  String.substring n (String.length s - n) s.

(** The byte with numeric value [n] (for n < 256). *)
Definition byte_of_nat (n : nat) : byte :=
  default x00 (Byte.of_N (N.of_nat n)).
Definition nat_of_byte (b : byte) : nat :=
  N.to_nat (Byte.to_N b).

(** ** encoding/base64: the URL-safe alphabet of RFC 4648, padded and raw *)
Module base64.

(** The two encodings names.go selects between. *)
Inductive Encoding : Type :=
| URLEncoding
| RawURLEncoding.

Definition padded (enc : Encoding) : bool :=
  match enc with URLEncoding => true | RawURLEncoding => false end.

Definition encodeURL : string :=
  "ABCDEFGHIJKLMNOPQRSTUVWXYZabcdefghijklmnopqrstuvwxyz0123456789-_".

Definition padChar : ascii := "="%char.

(** Six bits, most significant first. *)
Definition sextet : Type := (bool * bool * bool * bool * bool * bool)%type.

Definition sextet_index (s : sextet) : nat :=
  let '(s5, s4, s3, s2, s1, s0) := s in
  32 * Nat.b2n s5 + 16 * Nat.b2n s4 + 8 * Nat.b2n s3
  + 4 * Nat.b2n s2 + 2 * Nat.b2n s1 + Nat.b2n s0.

Definition sextet_of_index (n : nat) : sextet :=
  (Nat.testbit n 5, Nat.testbit n 4, Nat.testbit n 3,
   Nat.testbit n 2, Nat.testbit n 1, Nat.testbit n 0).

Definition encode_char (s : sextet) : ascii :=
  default padChar (String.get (sextet_index s) encodeURL).

Fixpoint alphabet_index (c : ascii) (alphabet : string) (i : nat) : option nat :=
  match alphabet with
  | EmptyString => None
  | String a rest =>
      if Ascii.eqb a c then Some i else alphabet_index c rest (S i)
  end.

Definition decode_char (c : ascii) : option sextet :=
  sextet_of_index <$> alphabet_index c encodeURL 0.

(** Three bytes are four sextets. *)
Definition split3 (a b c : byte) : sextet * sextet * sextet * sextet :=
  let '(a0, (a1, (a2, (a3, (a4, (a5, (a6, a7))))))) := Byte.to_bits a in
  let '(b0, (b1, (b2, (b3, (b4, (b5, (b6, b7))))))) := Byte.to_bits b in
  let '(c0, (c1, (c2, (c3, (c4, (c5, (c6, c7))))))) := Byte.to_bits c in
  ((a7, a6, a5, a4, a3, a2), (a1, a0, b7, b6, b5, b4),
   (b3, b2, b1, b0, c7, c6), (c5, c4, c3, c2, c1, c0)).

Definition join3 (s1 s2 s3 s4 : sextet) : byte * byte * byte :=
  let '(a7, a6, a5, a4, a3, a2) := s1 in
  let '(a1, a0, b7, b6, b5, b4) := s2 in
  let '(b3, b2, b1, b0, c7, c6) := s3 in
  let '(c5, c4, c3, c2, c1, c0) := s4 in
  (Byte.of_bits (a0, (a1, (a2, (a3, (a4, (a5, (a6, a7))))))),
   Byte.of_bits (b0, (b1, (b2, (b3, (b4, (b5, (b6, b7))))))),
   Byte.of_bits (c0, (c1, (c2, (c3, (c4, (c5, (c6, c7)))))))).

Definition str1 (c : ascii) : string := String c EmptyString.

(** [enc.EncodeToString]: whole 3-byte groups, then a remainder of one or
    two bytes, padded with [=] in the padded encoding. *)
Fixpoint EncodeToString (enc : Encoding) (src : list byte) : string :=
  match src with
  | [] => EmptyString
  | [a] =>
      let '(s1, s2, _, _) := split3 a x00 x00 in
      String (encode_char s1) (String (encode_char s2)
        (if padded enc then String padChar (str1 padChar) else EmptyString))
  | [a; b] =>
      let '(s1, s2, s3, _) := split3 a b x00 in
      String (encode_char s1) (String (encode_char s2) (String (encode_char s3)
        (if padded enc then str1 padChar else EmptyString)))
  | a :: b :: c :: rest =>
      let '(s1, s2, s3, s4) := split3 a b c in
      String (encode_char s1) (String (encode_char s2)
        (String (encode_char s3) (String (encode_char s4)
          (EncodeToString enc rest))))
  end.

Definition zero6 : sextet := (false, false, false, false, false, false).

Definition is_pad (c : ascii) : bool := Ascii.eqb c padChar.

(** [in == '\n' || in == '\r']: the decoder skips line feeds and carriage
    returns wherever they stand. *)
Definition is_newline (c : ascii) : bool :=
  Ascii.eqb c "010"%char || Ascii.eqb c "013"%char.

(** [for si < len(src) && (src[si] == '\n' || src[si] == '\r') { si++ }]:
    the index reached and what is left of the input there. *)
Fixpoint skip_newlines (si : nat) (s : string) : nat * string :=
  match s with
  | EmptyString => (si, s)
  | String c rest => if is_newline c then skip_newlines (S si) rest else (si, s)
  end.

(** The bytes a quantum of two, three or four sextets stands for (the
    encodings of names.go are not strict: bits left over are dropped). *)
Definition quantum_bytes (dbuf : list sextet) : list byte :=
  match dbuf with
  | [s1; s2] => let '(a, _, _) := join3 s1 s2 zero6 zero6 in [a]
  | [s1; s2; s3] => let '(a, b, _) := join3 s1 s2 s3 zero6 in [a; b]
  | [s1; s2; s3; s4] => let '(a, b, c) := join3 s1 s2 s3 s4 in [a; b; c]
  | _ => []
  end.

(** Once the padding of the last quantum is read: line breaks may follow,
    anything else is trailing garbage. *)
Definition finish_quantum (si : nat) (dbuf : list sextet) (s : string)
  : result (list byte) :=
  let '(si, s) := skip_newlines si s in
  match s with
  | EmptyString => Ok (quantum_bytes dbuf)
  | String _ _ => Error (base64_CorruptInputError si)
  end.

(** [enc.Decode], quantum by quantum as decodeQuantum reads it: [si] is
    the index of the next character and [dbuf] holds the sextets of the
    quantum under way. *)
Fixpoint decode_from (enc : Encoding) (si : nat) (dbuf : list sextet)
    (s : string) : result (list byte) :=
  match s with
  | EmptyString =>
      (* len(src) == si *)
      match length dbuf with
      | 0 => Ok []
      | S j' =>
          if (j' =? 0) || padded enc
          then Error (base64_CorruptInputError (si - S j'))
          else Ok (quantum_bytes dbuf)
      end
  | String c rest =>
      match decode_char c with
      | Some out =>
          if length dbuf =? 3 then
            match decode_from enc (S si) [] rest with
            | Ok l => Ok (quantum_bytes (dbuf ++ [out]) ++ l)
            | Error e => Error e
            end
          else decode_from enc (S si) (dbuf ++ [out]) rest
      | None =>
          if is_newline c then decode_from enc (S si) dbuf rest
          else if negb (padded enc && is_pad c) then
            Error (base64_CorruptInputError si)
          else
            (* We've reached the end and there's padding *)
            match length dbuf with
            | 0 | 1 =>
                (* incorrect padding *)
                Error (base64_CorruptInputError si)
            | 2 =>
                (* "==" is expected, the first "=" is already consumed *)
                let '(si2, s2) := skip_newlines (S si) rest in
                match s2 with
                | EmptyString =>
                    (* not enough padding *)
                    Error (base64_CorruptInputError si2)
                | String c2 rest2 =>
                    if is_pad c2 then finish_quantum (S si2) dbuf rest2
                    else Error (base64_CorruptInputError (si2 - 1))
                end
            | _ => finish_quantum (S si) dbuf rest
            end
      end
  end.

(** [enc.DecodeString]. *)
Definition DecodeString (enc : Encoding) (s : string) : result (list byte) :=
  decode_from enc 0 [] s.

(** [enc.EncodedLen]. *)
Definition EncodedLen (enc : Encoding) (n : nat) : nat :=
  if padded enc then (n + 2) / 3 * 4
  else n / 3 * 4 + (n mod 3 * 8 + 5) / 6.

End base64.

(** ** internal/nametransform *)
Module nametransform.

(** Like ext4, at most 255 bytes for a file name. *)
Definition NameMax : nat := 255.

(** [aes.BlockSize]. *)
Definition aes_BlockSize : nat := 16.

(** [eme.EMECipher] (github.com/HorizonLiu/eme): the wide-block cipher, with
    the directory IV as tweak. An external library, kept abstract. *)
Record EMECipher : Type := {
  eme_Encrypt : list byte -> list byte -> list byte;
  eme_Decrypt : list byte -> list byte -> list byte;
}.

Record NameTransform : Type := {
  emeCipher : EMECipher;
  longNames : bool;
  B64 : base64.Encoding;
  BadnamePatterns : list string;
}.

Definition New (e : EMECipher) (longNames raw64 : bool) : NameTransform :=
  let b64 := if raw64 then base64.RawURLEncoding else base64.URLEncoding in
  {| emeCipher := e; longNames := longNames; B64 := b64;
     BadnamePatterns := [] |}.

(** Modelled from the spec: pad16 (pad16.go is not among the sources),
    "Pad with PKCS#7 to a multiple of 16": between 1 and 16 bytes are
    appended, each holding the number of bytes appended. *)
Definition pad16 (orig : list byte) : list byte :=
  let padLen := aes_BlockSize - length orig mod aes_BlockSize in
  orig ++ replicate padLen (byte_of_nat padLen).

(** Index of the first byte of [l] that differs from [b], counting from [i]. *)
Fixpoint find_mismatch (b : byte) (l : list byte) (i : nat) : option nat :=
  match l with
  | [] => None
  | x :: l' => if Byte.eqb x b then find_mismatch b l' (S i) else Some i
  end.

(** Modelled from the spec: unPad16 (pad16.go is not among the sources),
    "PKCS#7 unpad". As names.go says of it, its errors are detailed and
    include the position of the incorrect byte. *)
Definition unPad16 (padded : list byte) : result (list byte) :=
  let oldLen := length padded in
  if oldLen =? 0 then Error (errors_New "Empty input")
  else if negb (oldLen mod aes_BlockSize =? 0) then
    Error (errors_New "Unaligned size")
  else
    let padByte := List.last padded x00 in
    let padLen := nat_of_byte padByte in
    if padLen =? 0 then Error (errors_New "Padding cannot be zero-length")
    else if aes_BlockSize <? padLen then
      Error (fmt_Errorf "Padding too long, padLen=%d > 16"
               [ArgInt (Z.of_nat padLen)])
    else
      match find_mismatch padByte (drop (oldLen - padLen) padded)
              (oldLen - padLen) with
      | Some i =>
          Error (fmt_Errorf "Padding byte at i=%d is invalid"
                   [ArgInt (Z.of_nat i)])
      | None => Ok (take (oldLen - padLen) padded)
      end.

(** [bytes.Contains(bin, []byte{b})] for a single byte [b]. *)
Definition bytes_Contains1 (bin : list byte) (b : byte) : bool :=
  existsb (Byte.eqb b) bin.

(** [bytes.Equal]. *)
Definition bytes_Equal (a b : list byte) : bool :=
  bool_decide (a = b).

Definition NUL : byte := x00.
Definition slash : byte := x2f.
Definition dot : byte := x2e.

(** names.go, decryptName: decrypts a base64-encoded encrypted filename
    [cipherName] using the initialization vector [iv]. *)
Definition decryptName (n : NameTransform) (cipherName : string)
    (iv : list byte) : result string :=
  match base64.DecodeString (B64 n) cipherName with
  | Error err => Error err
  | Ok bin =>
      if length bin =? 0 then Error (syscall_Errno EBADMSG)
      else if negb (length bin mod aes_BlockSize =? 0) then
        Error (syscall_Errno EBADMSG)
      else
        let bin := eme_Decrypt (emeCipher n) iv bin in
        match unPad16 bin with
        | Error _ =>
            (* lump every padding error into a generic one *)
            Error (syscall_Errno EBADMSG)
        | Ok bin =>
            if bytes_Contains1 bin NUL || bytes_Contains1 bin slash then
              Error (syscall_Errno EBADMSG)
            else if bytes_Equal bin [dot] || bytes_Equal bin [dot; dot] then
              Error (syscall_Errno EBADMSG)
            else Ok (string_of_bytes bin)
        end
  end.

(** names.go, EncryptName. *)
Definition EncryptName (n : NameTransform) (plainName : string)
    (iv : list byte) : string :=
  let bin := bytes_of_string plainName in
  let bin := pad16 bin in
  let bin := eme_Encrypt (emeCipher n) iv bin in
  base64.EncodeToString (B64 n) bin.

(** What the spec asks of a plaintext name: it is not empty, holds no "/"
    and no NUL byte, and is neither "." nor "..". *)
Definition validName (plainName : string) : Prop :=
  plainName <> "" /\
  (NUL ∉ bytes_of_string plainName) /\
  (slash ∉ bytes_of_string plainName) /\
  plainName <> "." /\ plainName <> "..".

(** EME decryption under [iv] inverts EME encryption of [data], and the
    ciphertext is as long as the plaintext. (The EME library promises this
    for 1 to 128 blocks of 16 bytes.) *)
Definition eme_inverts (e : EMECipher) (iv data : list byte) : Prop :=
  eme_Decrypt e iv (eme_Encrypt e iv data) = data /\
  length (eme_Encrypt e iv data) = length data.

(** The classes of corruption of a decoded ciphertext name [bin]: it is
    empty; its length is not a multiple of 16; after EME decryption its
    PKCS#7 padding is bad (whatever the detail); the unpadded name holds a
    NUL byte or a "/"; the unpadded name is "." or "..". *)
Definition corruptName (e : EMECipher) (iv bin : list byte) : Prop :=
  bin = [] \/
  length bin mod aes_BlockSize <> 0 \/
  match unPad16 (eme_Decrypt e iv bin) with
  | Error _ => True
  | Ok name =>
      NUL ∈ name \/ slash ∈ name \/ name = [dot] \/ name = [dot; dot]
  end.

(** names.go, B64EncodeToString and B64DecodeString. *)
Definition B64EncodeToString (n : NameTransform) (src : list byte) : string :=
  base64.EncodeToString (B64 n) src.
Definition B64DecodeString (n : NameTransform) (s : string)
  : result (list byte) :=
  base64.DecodeString (B64 n) s.

Definition BAD_NAME_SUFFIX : string := " GOCRYPTFS_BAD_NAME".

Section DecryptName.

(** [filepath.Match(pattern, name)] of the Go standard library. *)
Variable filepath_Match : string -> string -> result bool.

(** The inner loop of DecryptName,
    [for charpos := len(cipherName) - 1; charpos >= nameMin; charpos--],
    entered at [charpos]: the first prefix that decrypts decides. [None]
    when the loop runs to its end. *)
Fixpoint longestPrefix (n : NameTransform) (cipherName : string)
    (iv : list byte) (nameMin charpos : nat) : option string :=
  if charpos <? nameMin then None
  else
    match decryptName n (str_take charpos cipherName) iv with
    | Ok res =>
        Some (res +:+ str_drop charpos cipherName +:+ BAD_NAME_SUFFIX)
    | Error _ =>
        match charpos with
        | 0 => None
        | S charpos' => longestPrefix n cipherName iv nameMin charpos'
        end
    end.

(** The body run for the first pattern that matches. *)
Definition badname (n : NameTransform) (cipherName : string)
    (iv : list byte) : string :=
  let nameMin := base64.EncodedLen (B64 n) aes_BlockSize in
  let found :=
    match String.length cipherName with
    | 0 => None
    | S last => longestPrefix n cipherName iv nameMin last
    end in
  match found with
  | Some name => name
  | None => cipherName +:+ BAD_NAME_SUFFIX
  end.

(** [for _, pattern := range n.BadnamePatterns]: [Some] is the value
    returned from inside the loop. *)
Fixpoint rangePatterns (n : NameTransform) (patterns : list string)
    (cipherName : string) (iv : list byte) : option string :=
  match patterns with
  | [] => None
  | pattern :: patterns' =>
      match filepath_Match pattern cipherName with
      | Ok true => Some (badname n cipherName iv)
      | _ => rangePatterns n patterns' cipherName iv
      end
  end.

(** names.go, DecryptName: calls decryptName and, failing that, checks
    whether the name can be bypassed. *)
Definition DecryptName (n : NameTransform) (cipherName : string)
    (iv : list byte) : result string :=
  match decryptName n cipherName iv with
  | Ok res => Ok res
  | Error err =>
      match rangePatterns n (BadnamePatterns n) cipherName iv with
      | Some name => Ok name
      | None => Error err
      end
  end.

(** What the spec says of badname recovery: among the proper prefixes of
    at least [B64.EncodedLen(16)] characters the longest one that decrypts
    decides, and the result is its plaintext, then the cut-off rest of the
    name, then the suffix; when no such prefix decrypts, the result is the
    ciphertext name and the suffix. *)
Definition badnameSpec (n : NameTransform) (cipherName : string)
    (iv : list byte) (r : result string) : Prop :=
  let nameMin := base64.EncodedLen (B64 n) aes_BlockSize in
  let len := String.length cipherName in
  (exists charpos res,
      nameMin <= charpos < len /\
      decryptName n (str_take charpos cipherName) iv = Ok res /\
      (forall c, charpos < c < len ->
                 is_Error (decryptName n (str_take c cipherName) iv)) /\
      r = Ok (res +:+ str_drop charpos cipherName +:+ " GOCRYPTFS_BAD_NAME"))
  \/
  ((forall c, nameMin <= c < len ->
              is_Error (decryptName n (str_take c cipherName) iv)) /\
   r = Ok (cipherName +:+ " GOCRYPTFS_BAD_NAME")).

End DecryptName.

End nametransform.

(** ** The world the config file code runs in: files, faults, entropy *)

Inductive syscallName : Type :=
| SysRead
| SysOpen
| SysWrite
| SysFsync
| SysClose
| SysRename.

#[global] Instance syscallName_eq_dec : EqDecision syscallName.
Proof. solve_decision. Defined.

(** [files] maps a path to the content of the regular file there;
    [io_fault] says which system calls fail, and how (a disk that is full, a
    network drive without fsync); [entropy] is the stream the random number
    generator reads. *)
Record World : Type := {
  files : gmap string (list byte);
  io_fault : syscallName -> option Errno;
  entropy : nat -> byte;
}.

Definition set_files (f : gmap string (list byte)) (w : World) : World :=
  {| files := f; io_fault := io_fault w; entropy := entropy w |}.

Definition set_entropy (e : nat -> byte) (w : World) : World :=
  {| files := files w; io_fault := io_fault w; entropy := e |}.

(** Code that reads or changes the world and may fail. *)
Definition IO (A : Type) : Type := World -> result A * World.

Definition ret {A} (a : A) : IO A := fun w => (Ok a, w).
Definition fail {A} (e : error) : IO A := fun w => (Error e, w).
Definition bind {A B} (m : IO A) (k : A -> IO B) : IO B :=
  fun w =>
    match m w with
    | (Ok a, w') => k a w'
    | (Error e, w') => (Error e, w')
    end.
(** [err := m; if err != nil { handler }; continue]: the error is handled
    and execution goes on. *)
Definition recover (m : IO unit) (handler : error -> IO unit) : IO unit :=
  fun w =>
    match m w with
    | (Ok tt, w') => (Ok tt, w')
    | (Error e, w') => handler e w'
    end.

Notation "x <- m ;; k" := (bind m (fun x => k))
  (at level 63, m at next level, right associativity).
Notation "m ;;; k" := (bind m (fun _ => k))
  (at level 63, right associativity).

Definition syscall (name : syscallName) : IO unit :=
  fun w =>
    match io_fault w name with
    | Some e => (Error (syscall_Errno e), w)
    | None => (Ok tt, w)
    end.

(** [ioutil.ReadFile]. *)
Definition ioutil_ReadFile (filename : string) : IO (list byte) :=
  syscall SysRead ;;;
  fun w =>
    match files w !! filename with
    | Some content => (Ok content, w)
    | None => (Error (syscall_Errno ENOENT), w)
    end.

(** [os.OpenFile(name, O_WRONLY|O_CREATE|O_EXCL, 0400)]: fails with EEXIST
    when the path exists, creates an empty file otherwise. The descriptor is
    modelled by the path it was opened at. *)
Definition os_OpenFile_CREATE_EXCL (name : string) : IO string :=
  syscall SysOpen ;;;
  fun w =>
    match files w !! name with
    | Some _ => (Error (syscall_Errno EEXIST), w)
    | None => (Ok name, set_files (<[name := []]> (files w)) w)
    end.

(** [fd.Write(b)]. *)
Definition fd_Write (fd : string) (b : list byte) : IO unit :=
  syscall SysWrite ;;;
  fun w =>
    (Ok tt,
     set_files (<[fd := default [] (files w !! fd) ++ b]> (files w)) w).

(** [fd.Sync()], [syscall.Sync()], [fd.Close()]. *)
Definition fd_Sync (fd : string) : IO unit := syscall SysFsync.
Definition syscall_Sync : IO unit := ret tt.
Definition fd_Close (fd : string) : IO unit := syscall SysClose.

(** [os.Rename(oldpath, newpath)]: replaces [newpath] atomically. *)
Definition os_Rename (oldpath newpath : string) : IO unit :=
  syscall SysRename ;;;
  fun w =>
    match files w !! oldpath with
    | Some content =>
        (Ok tt,
         set_files (<[newpath := content]> (delete oldpath (files w))) w)
    | None => (Error (syscall_Errno ENOENT), w)
    end.

(** [n] bytes off the entropy stream. *)
Definition read_entropy (n : nat) : IO (list byte) :=
  fun w =>
    (Ok (entropy w <$> seq 0 n), set_entropy (fun i => entropy w (n + i)) w).

(** ** internal/exitcodes *)
Module exitcodes.

(** Modelled from the spec: the package is not among the sources; the
    numbers are those of the spec's list of stable exit codes, "6 Usage;
    12 PasswordIncorrect; 16 DeprecatedFS". *)
Definition Usage : Z := 6.
Definition PasswordIncorrect : Z := 12.
Definition DeprecatedFS : Z := 16.

(** [exitcodes.NewErr(msg, code)]: an error that carries an exit code. *)
Definition NewErr (msg : string) (code : Z) : error := exitcodes_Err msg code.

(** The exit code an error carries, if any. *)
Definition code_of (e : error) : option Z :=
  match e with
  | exitcodes_Err _ code => Some code
  | _ => None
  end.

End exitcodes.

(** ** internal/configfile *)
Module configfile.

Definition ConfDefaultName : string := "gocryptfs.conf".
Definition ConfReverseName : string := ".gocryptfs.reverse.conf".

(** *** What configfile uses of cryptocore and contentenc *)

(** Modelled from the spec: cryptocore.KeyLen, "a key of exactly 32 bytes". *)
Definition cryptocore_KeyLen : nat := 32.

Inductive AEADTypeEnum : Type :=
| BackendOpenSSL
| BackendGoGCM
| BackendAESSIV.

(** What [cryptocore.New(key, aeadType, IVBitLen, useHKDF, forceDecode)] is
    built from. The cipher state itself stays abstract. *)
Record CryptoCore : Type := {
  cc_key : list byte;
  cc_aeadType : AEADTypeEnum;
  IVBitLen : nat;
  cc_useHKDF : bool;
  cc_forceDecode : bool;
}.

Definition cryptocore_New (key : list byte) (aeadType : AEADTypeEnum)
    (IVBitLen : nat) (useHKDF forceDecode : bool) : CryptoCore :=
  {| cc_key := key; cc_aeadType := aeadType; IVBitLen := IVBitLen;
     cc_useHKDF := useHKDF; cc_forceDecode := forceDecode |}.

(** [cryptocore.RandBytes]. *)
Definition cryptocore_RandBytes (n : nat) : IO (list byte) := read_entropy n.

(** Modelled from the spec: contentenc.DefaultIVBits, "128 if set". *)
Definition contentenc_DefaultIVBits : nat := 128.

(** Modelled from the spec: contentenc.CurrentVersion, the on-disk format
    version, "2-byte big-endian version (must equal 2)". *)
Definition contentenc_CurrentVersion : Z := 2.

Record ContentEnc : Type := {
  cryptoCore : CryptoCore;
  plainBS : nat;
  ce_forceDecode : bool;
}.

Definition contentenc_New (cc : CryptoCore) (plainBS : nat)
    (forceDecode : bool) : ContentEnc :=
  {| cryptoCore := cc; plainBS := plainBS; ce_forceDecode := forceDecode |}.

(** *** Feature flags *)

Inductive flagIota : Type :=
| FlagPlaintextNames
| FlagDirIV
| FlagEMENames
| FlagGCMIV128
| FlagLongNames
| FlagLongNameMax
| FlagAESSIV
| FlagRaw64
| FlagHKDF
| FlagFIDO2.

(** Modelled from the spec: knownFlags (feature_flags.go is not among the
    sources), the closed set of feature flag tokens. *)
Definition knownFlags (f : flagIota) : string :=
  match f with
  | FlagPlaintextNames => "PlaintextNames"
  | FlagDirIV => "DirIV"
  | FlagEMENames => "EMENames"
  | FlagGCMIV128 => "GCMIV128"
  | FlagLongNames => "LongNames"
  | FlagLongNameMax => "LongNameMax"
  | FlagAESSIV => "AESSIV"
  | FlagRaw64 => "Raw64"
  | FlagHKDF => "HKDF"
  | FlagFIDO2 => "FIDO2"
  end.

Definition allFlags : list flagIota :=
  [FlagPlaintextNames; FlagDirIV; FlagEMENames; FlagGCMIV128; FlagLongNames;
   FlagLongNameMax; FlagAESSIV; FlagRaw64; FlagHKDF; FlagFIDO2].

(** Modelled from the spec: the flags a filesystem must carry to load,
    "Required flags for new filesystems: GCMIV128, HKDF. Required for
    non-plaintextnames: DirIV, EMENames, LongNames, Raw64." *)
Definition requiredFlagsNormal : list flagIota :=
  [FlagGCMIV128; FlagHKDF; FlagDirIV; FlagEMENames; FlagLongNames; FlagRaw64].
Definition requiredFlagsPlaintextNames : list flagIota :=
  [FlagGCMIV128; FlagHKDF].

(** *** The config file *)

(** Modelled from the spec: ScryptKDF (scrypt.go is not among the
    sources), "{salt: 32 bytes, N: int, R: int, P: int, KeyLen: int}". *)
Record ScryptKDF : Type := {
  Salt : list byte;
  ScryptN : Z;
  ScryptR : Z;
  ScryptP : Z;
  KeyLen : nat;
}.

Record FIDO2Params : Type := {
  CredentialID : list byte;
  HMACSalt : list byte;
}.

Record ConfFile : Type := {
  Creator : string;
  EncryptedKey : list byte;
  ScryptObject : ScryptKDF;
  Version : Z;
  FeatureFlags : list string;
  FIDO2 : FIDO2Params;
  filename : string;
}.

(** [var cf ConfFile]: the zero value. *)
Definition zero_ScryptKDF : ScryptKDF :=
  {| Salt := []; ScryptN := 0; ScryptR := 0; ScryptP := 0; KeyLen := 0 |}.
Definition zero_ConfFile : ConfFile :=
  {| Creator := ""; EncryptedKey := []; ScryptObject := zero_ScryptKDF;
     Version := 0; FeatureFlags := [];
     FIDO2 := {| CredentialID := []; HMACSalt := [] |}; filename := "" |}.

Definition set_Creator (v : string) (cf : ConfFile) : ConfFile :=
  {| Creator := v; EncryptedKey := EncryptedKey cf;
     ScryptObject := ScryptObject cf; Version := Version cf;
     FeatureFlags := FeatureFlags cf; FIDO2 := FIDO2 cf;
     filename := filename cf |}.
Definition set_EncryptedKey (v : list byte) (cf : ConfFile) : ConfFile :=
  {| Creator := Creator cf; EncryptedKey := v;
     ScryptObject := ScryptObject cf; Version := Version cf;
     FeatureFlags := FeatureFlags cf; FIDO2 := FIDO2 cf;
     filename := filename cf |}.
Definition set_ScryptObject (v : ScryptKDF) (cf : ConfFile) : ConfFile :=
  {| Creator := Creator cf; EncryptedKey := EncryptedKey cf;
     ScryptObject := v; Version := Version cf;
     FeatureFlags := FeatureFlags cf; FIDO2 := FIDO2 cf;
     filename := filename cf |}.
Definition set_Version (v : Z) (cf : ConfFile) : ConfFile :=
  {| Creator := Creator cf; EncryptedKey := EncryptedKey cf;
     ScryptObject := ScryptObject cf; Version := v;
     FeatureFlags := FeatureFlags cf; FIDO2 := FIDO2 cf;
     filename := filename cf |}.
Definition set_FeatureFlags (v : list string) (cf : ConfFile) : ConfFile :=
  {| Creator := Creator cf; EncryptedKey := EncryptedKey cf;
     ScryptObject := ScryptObject cf; Version := Version cf;
     FeatureFlags := v; FIDO2 := FIDO2 cf;
     filename := filename cf |}.
Definition set_FIDO2 (v : FIDO2Params) (cf : ConfFile) : ConfFile :=
  {| Creator := Creator cf; EncryptedKey := EncryptedKey cf;
     ScryptObject := ScryptObject cf; Version := Version cf;
     FeatureFlags := FeatureFlags cf; FIDO2 := v;
     filename := filename cf |}.
Definition set_filename (v : string) (cf : ConfFile) : ConfFile :=
  {| Creator := Creator cf; EncryptedKey := EncryptedKey cf;
     ScryptObject := ScryptObject cf; Version := Version cf;
     FeatureFlags := FeatureFlags cf; FIDO2 := FIDO2 cf;
     filename := v |}.

(** [cf.FeatureFlags = append(cf.FeatureFlags, flag)]. *)
Definition append_flag (flag : string) (cf : ConfFile) : ConfFile :=
  set_FeatureFlags (FeatureFlags cf ++ [flag]) cf.

(** Modelled from the spec: isFeatureFlagKnown (feature_flags.go), "any
    flag outside the known set is a hard failure". *)
Definition isFeatureFlagKnown (cf : ConfFile) (flag : string) : bool :=
  existsb (fun f => String.eqb (knownFlags f) flag) allFlags.

(** Modelled from the spec: IsFeatureFlagSet (feature_flags.go): the
    token of [flagWant] is among [cf.FeatureFlags]. *)
Definition IsFeatureFlagSet (cf : ConfFile) (flagWant : flagIota) : bool :=
  existsb (String.eqb (knownFlags flagWant)) (FeatureFlags cf).

Definition newline : byte := x0a.

(** *** External code: scrypt, the block cipher of contentenc, JSON *)

(** [scrypt_Key] is golang.org/x/crypto/scrypt's [Key]. [EncryptBlockNonce]
    and [DecryptBlock] are contentenc's block encryption under an explicit
    nonce and its decryption, for block number [blockNo] and file ID
    [fileID] (the associated data the caller supplies). [json_MarshalIndent]
    and [json_Unmarshal] are encoding/json's, the latter filling in an
    existing value. *)
Class Externals : Type := {
  scrypt_Key : list byte -> list byte -> Z -> Z -> Z -> nat -> list byte;
  EncryptBlockNonce :
    ContentEnc -> list byte -> Z -> list byte -> list byte -> list byte;
  DecryptBlock : ContentEnc -> list byte -> Z -> list byte -> result (list byte);
  json_MarshalIndent : ConfFile -> result (list byte);
  json_Unmarshal : list byte -> ConfFile -> result ConfFile;
}.

(** What the code relies on: scrypt returns [keyLen] bytes, and a block
    encrypted under a nonce of the cipher's IV length decrypts to what was
    encrypted, under the same key, block number and file ID. *)
Class ExternalsLaws (X : Externals) : Prop := {
  scrypt_Key_length pw salt N r p keyLen :
    length (scrypt_Key pw salt N r p keyLen) = keyLen;
  DecryptBlock_EncryptBlockNonce ce plaintext blockNo fileID nonce :
    length nonce = IVBitLen (cryptoCore ce) / 8 ->
    DecryptBlock ce (EncryptBlockNonce ce plaintext blockNo fileID nonce)
      blockNo fileID = Ok plaintext;
}.

(** What reading back a config file relies on: JSON decoding into a fresh
    value recovers what was encoded (its exported fields; [filename] is not
    exported), and a line feed after it does no harm. *)
Class JSONLaws (X : Externals) : Prop := {
  json_Unmarshal_MarshalIndent cf js filename :
    json_MarshalIndent cf = Ok js ->
    json_Unmarshal (js ++ [newline]) (set_filename filename zero_ConfFile)
    = Ok (set_filename filename cf);
}.

(** *** contentenc's block layer over the AEAD of cryptocore *)

(** [cryptoCore.AEADCipher] (crypto/cipher, or OpenSSL): sealing and
    opening under a nonce with additional data, and for "-forcedecode" the
    plaintext of a block whose authentication failed. External. The
    arguments after the CryptoCore are the nonce, the text and the
    additional data. *)
Class AEAD : Type := {
  AEADCipher_Seal :
    CryptoCore -> list byte -> list byte -> list byte -> list byte;
  AEADCipher_Open :
    CryptoCore -> list byte -> list byte -> list byte -> result (list byte);
  AEADCipher_raw : CryptoCore -> list byte -> list byte -> list byte;
}.

(** What is opened under the nonce and the additional data it was sealed
    with is the plaintext. *)
Class AEADLaws (A : AEAD) : Prop := {
  AEADCipher_Open_Seal cc nonce plaintext aad :
    AEADCipher_Open cc nonce (AEADCipher_Seal cc nonce plaintext aad) aad
    = Ok plaintext;
}.

(** [binary.BigEndian.PutUint64]: the eight bytes of an unsigned 64-bit
    number, most significant first. *)
Definition big_endian_u64 (n : Z) : list byte :=
  (fun i : nat =>
     byte_of_nat (Z.to_nat (Z.land (Z.shiftr n (8 * Z.of_nat i)) 255)))
    <$> [7; 6; 5; 4; 3; 2; 1; 0].

(** Modelled from the spec: the associated data of a block (contentenc is
    not among the sources), "aad: big_endian_u64(blockNo) || fileID". *)
Definition concatAD (blockNo : Z) (fileID : list byte) : list byte :=
  big_endian_u64 blockNo ++ fileID.

(** Modelled from the spec: ContentEnc's block encryption under a given
    nonce, "nonces are stored in the ciphertext itself": the nonce, then
    what the AEAD seals under it with the associated data of the block. *)
Definition contentenc_EncryptBlockNonce {A : AEAD} (ce : ContentEnc)
    (plaintext : list byte) (blockNo : Z) (fileID nonce : list byte)
  : list byte :=
  nonce ++ AEADCipher_Seal (cryptoCore ce) nonce plaintext
             (concatAD blockNo fileID).

(** Modelled from the spec: ContentEnc's block decryption, "on decrypt
    failure: by default return EIO for this block; if forceDecode is on
    (OpenSSL backend only) return the raw plaintext and log". *)
Definition contentenc_DecryptBlock {A : AEAD} (ce : ContentEnc)
    (ciphertext : list byte) (blockNo : Z) (fileID : list byte)
  : result (list byte) :=
  let ivLen := IVBitLen (cryptoCore ce) / 8 in
  let nonce := take ivLen ciphertext in
  let body := drop ivLen ciphertext in
  match AEADCipher_Open (cryptoCore ce) nonce body (concatAD blockNo fileID) with
  | Ok plaintext => Ok plaintext
  | Error _ =>
      if ce_forceDecode ce then Ok (AEADCipher_raw (cryptoCore ce) nonce body)
      else Error (syscall_Errno EIO)
  end.

(** The external code with contentenc's block layer, as the spec describes
    it, over an AEAD; scrypt and JSON as they are. *)
Definition contentencExternals (A : AEAD) (X : Externals) : Externals :=
  {| scrypt_Key := @scrypt_Key X;
     EncryptBlockNonce := contentenc_EncryptBlockNonce;
     DecryptBlock := contentenc_DecryptBlock;
     json_MarshalIndent := @json_MarshalIndent X;
     json_Unmarshal := @json_Unmarshal X |}.

Section WithExternals.
Context {X : Externals}.

Definition lift {A} (r : result A) : IO A := fun w => (r, w).

(** Modelled from the spec: NewScryptKDF, "generate a fresh scrypt salt
    (32 bytes)", N = 2^logN, "Defaults: R=8, P=1, KeyLen=32". *)
Definition NewScryptKDF (logN : Z) : IO ScryptKDF :=
  salt <- cryptocore_RandBytes cryptocore_KeyLen ;;
  ret {| Salt := salt; ScryptN := 2 ^ logN; ScryptR := 8; ScryptP := 1;
         KeyLen := cryptocore_KeyLen |}.

(** Modelled from the spec: ScryptKDF.DeriveKey, "derive KEK via scrypt
    from the persisted parameters". *)
Definition DeriveKey (s : ScryptKDF) (pw : list byte) : list byte :=
  scrypt_Key pw (Salt s) (ScryptN s) (ScryptR s) (ScryptP s) (KeyLen s).

(** Modelled from the spec: ContentEnc.EncryptBlock, "nonce: fresh random
    IV per block write", of the cipher's IV length. *)
Definition EncryptBlock (ce : ContentEnc) (plaintext : list byte)
    (blockNo : Z) (fileID : list byte) : IO (list byte) :=
  nonce <- cryptocore_RandBytes (IVBitLen (cryptoCore ce) / 8) ;;
  ret (EncryptBlockNonce ce plaintext blockNo fileID nonce).

(** getKeyEncrypter: the ContentEnc instance for the [useHKDF] setting.
    gocryptfs v1.2 and older used 96-bit IVs for master key encryption;
    the HKDF feature flag also enables 128-bit nonces. *)
Definition getKeyEncrypter (scryptHash : list byte) (useHKDF : bool)
  : ContentEnc :=
  let IVLen := 96 in
  let IVLen := if useHKDF then contentenc_DefaultIVBits else IVLen in
  let cc := cryptocore_New scryptHash BackendGoGCM IVLen useHKDF false in
  let ce := contentenc_New cc 4096 false in
  ce.

(** EncryptKey: encrypt [key] using an scrypt hash generated from
    [password] and store it in [cf.EncryptedKey]; the scrypt parameters go
    to [cf.ScryptObject]. The receiver is returned as updated. (The wipes
    of the derived key leave no trace in a value model.) *)
Definition EncryptKey (cf : ConfFile) (key password : list byte) (logN : Z)
  : IO ConfFile :=
  s <- NewScryptKDF logN ;;
  let cf := set_ScryptObject s cf in
  let scryptHash := DeriveKey (ScryptObject cf) password in
  let useHKDF := IsFeatureFlagSet cf FlagHKDF in
  let ce := getKeyEncrypter scryptHash useHKDF in
  encryptedKey <- EncryptBlock ce key 0 [] ;;
  ret (set_EncryptedKey encryptedKey cf).

(** DecryptMasterKey: decrypts the masterkey stored in [cf.EncryptedKey]
    using [password]. *)
Definition DecryptMasterKey (cf : ConfFile) (password : list byte)
  : result (list byte) :=
  let scryptHash := DeriveKey (ScryptObject cf) password in
  let useHKDF := IsFeatureFlagSet cf FlagHKDF in
  let ce := getKeyEncrypter scryptHash useHKDF in
  match DecryptBlock ce (EncryptedKey cf) 0 [] with
  | Error _ =>
      Error (exitcodes.NewErr "Password incorrect." exitcodes.PasswordIncorrect)
  | Ok masterkey => Ok masterkey
  end.

(** The block cipher rejects [cf.EncryptedKey] under the key derived from
    [password]. *)
Definition kekRejected (cf : ConfFile) (password : list byte) : Prop :=
  is_Error
    (DecryptBlock
       (getKeyEncrypter (DeriveKey (ScryptObject cf) password)
          (IsFeatureFlagSet cf FlagHKDF))
       (EncryptedKey cf) 0 []).

(** WriteFile: write out the config in JSON format to [filename.tmp], then
    rename over [filename]. *)
Definition WriteFile (cf : ConfFile) : IO unit :=
  let tmp := filename cf +:+ ".tmp" in
  fd <- os_OpenFile_CREATE_EXCL tmp ;;
  js <- lift (json_MarshalIndent cf) ;;
  let js := js ++ [newline] in
  fd_Write fd js ;;;
  recover (fd_Sync fd) (fun _ => syscall_Sync) ;;;
  fd_Close fd ;;;
  os_Rename tmp (filename cf).

(** randBytesDevRandom gets [n] random bytes from /dev/random or panics:
    when the device cannot be opened, and when it cannot be read. *)
Definition randBytesDevRandom (n : nat) : IO (list byte) :=
  fun w =>
    match syscall SysOpen w with
    | (Error err, w') =>
        (Error (log_Panic "Failed to open /dev/random: " err), w')
    | (Ok _, w') =>
        match syscall SysRead w' with
        | (Error err, w'') =>
            (Error (log_Panic "Failed to read random bytes: " err), w'')
        | (Ok _, w'') => read_entropy n w''
        end
    end.

(** Create: a new config with a random key encrypted with [password],
    written to [filename]. *)
Definition Create (filename : string) (password : list byte)
    (plaintextNames : bool) (logN : Z) (creator : string)
    (aessiv devrandom : bool) (fido2CredentialID fido2HmacSalt : list byte)
  : IO unit :=
  let cf := zero_ConfFile in
  let cf := set_filename filename cf in
  let cf := set_Creator creator cf in
  let cf := set_Version contentenc_CurrentVersion cf in
  (* Set feature flags *)
  let cf := append_flag (knownFlags FlagGCMIV128) cf in
  let cf := append_flag (knownFlags FlagHKDF) cf in
  let cf :=
    if plaintextNames then append_flag (knownFlags FlagPlaintextNames) cf
    else
      let cf := append_flag (knownFlags FlagDirIV) cf in
      let cf := append_flag (knownFlags FlagEMENames) cf in
      let cf := append_flag (knownFlags FlagLongNames) cf in
      append_flag (knownFlags FlagRaw64) cf in
  let cf := if aessiv then append_flag (knownFlags FlagAESSIV) cf else cf in
  let cf :=
    if 0 <? length fido2CredentialID then
      let cf := append_flag (knownFlags FlagFIDO2) cf in
      set_FIDO2 {| CredentialID := fido2CredentialID;
                   HMACSalt := fido2HmacSalt |} cf
    else cf in
  (* Generate new random master key *)
  key <- (if devrandom then randBytesDevRandom cryptocore_KeyLen
          else cryptocore_RandBytes cryptocore_KeyLen) ;;
  (* Encrypt it using the password; this looks at the feature flags *)
  cf <- EncryptKey cf key password logN ;;
  (* Write file to disk *)
  WriteFile cf.

(** The second loop of Load: one pass over the required flags, raising
    [deprecatedFs] at each one that is missing. *)
Definition checkRequired (cf : ConfFile) (requiredFlags : list flagIota)
  : bool :=
  fold_left
    (fun deprecatedFs i =>
       if negb (IsFeatureFlagSet cf i) then true else deprecatedFs)
    requiredFlags false.

(** Load: loads and parses the config file at [filename]. *)
Definition Load (filename : string) : IO ConfFile :=
  let cf := set_filename filename zero_ConfFile in
  (* Read from disk *)
  js <- ioutil_ReadFile filename ;;
  if length js =? 0 then fail (fmt_Errorf "Config file is empty" [])
  else
    (* Unmarshal *)
    cf <- lift (json_Unmarshal js cf) ;;
    if negb (Version cf =? contentenc_CurrentVersion)%Z then
      fail (fmt_Errorf "Unsupported on-disk format %d" [ArgInt (Version cf)])
    else
      (* Check that all set feature flags are known *)
      match List.find (fun flag => negb (isFeatureFlagKnown cf flag))
              (FeatureFlags cf) with
      | Some flag =>
          fail (fmt_Errorf "Unsupported feature flag %q" [ArgStr flag])
      | None =>
          (* Check that all required feature flags are set *)
          let requiredFlags :=
            if IsFeatureFlagSet cf FlagPlaintextNames
            then requiredFlagsPlaintextNames
            else requiredFlagsNormal in
          let deprecatedFs := checkRequired cf requiredFlags in
          if deprecatedFs then
            fail (exitcodes.NewErr "Deprecated filesystem"
                    exitcodes.DeprecatedFS)
          else ret cf
      end.

(** LoadAndDecrypt: read the config file from disk and decrypt the
    contained key using [password]; with an empty password the key is not
    decrypted (nil in its place). *)
Definition LoadAndDecrypt (filename : string) (password : list byte)
  : IO (list byte * ConfFile) :=
  cf <- Load filename ;;
  if length password =? 0 then ret ([], cf)
  else
    key <- lift (DecryptMasterKey cf password) ;;
    ret (key, cf).

(** The feature flags Create sets, in order. *)
Definition createdFlags (plaintextNames aessiv fido2 : bool) : list string :=
  [knownFlags FlagGCMIV128; knownFlags FlagHKDF]
  ++ (if plaintextNames then [knownFlags FlagPlaintextNames]
      else [knownFlags FlagDirIV; knownFlags FlagEMENames;
            knownFlags FlagLongNames; knownFlags FlagRaw64])
  ++ (if aessiv then [knownFlags FlagAESSIV] else [])
  ++ (if fido2 then [knownFlags FlagFIDO2] else []).

(** The list of required flags Load checks [cf] against. *)
Definition requiredFlagsOf (cf : ConfFile) : list flagIota :=
  if IsFeatureFlagSet cf FlagPlaintextNames then requiredFlagsPlaintextNames
  else requiredFlagsNormal.

(** [cf] carries a feature flag outside the known set. *)
Definition hasUnknownFlag (cf : ConfFile) : Prop :=
  exists flag, flag ∈ FeatureFlags cf /\ isFeatureFlagKnown cf flag = false.

(** [cf] lacks a flag it is required to carry. *)
Definition missesRequiredFlag (cf : ConfFile) : Prop :=
  exists i, i ∈ requiredFlagsOf cf /\ IsFeatureFlagSet cf i = false.

Definition errDeprecatedFS : error :=
  exitcodes.NewErr "Deprecated filesystem" exitcodes.DeprecatedFS.
Definition errPasswordIncorrect : error :=
  exitcodes.NewErr "Password incorrect." exitcodes.PasswordIncorrect.

End WithExternals.

End configfile.

(** ** cli_args.go *)
Module cli.

(** A call either returns or ends the process through [os.Exit(code)]. *)
Inductive outcome (A : Type) : Type :=
| Return (a : A)
| Exit (code : Z).
Arguments Return {A} a.
Arguments Exit {A} code.

(** The double quote, for messages that quote an option. *)
Definition dq : string := String (ascii_of_nat 34) EmptyString.

(** [strings.Split(s, ",")]: the fields between commas; one empty field
    for the empty string. *)
Fixpoint strings_Split_comma (s : string) : list string :=
  match s with
  | EmptyString => [EmptyString]
  | String c rest =>
      let fields := strings_Split_comma rest in
      if Ascii.eqb c ","%char then EmptyString :: fields
      else
        match fields with
        | field :: fields' => String c field :: fields'
        | [] => [String c EmptyString]
        end
  end.

(** [strings.HasPrefix(s, prefix)]. *)
Definition strings_HasPrefix (s prefix : string) : bool :=
  String.prefix prefix s.

(** The loop of prefixOArgs that finds and extracts "-o foo,bar", entered
    with the arguments from index [i] on. An "-o" takes the argument after
    it (and skips over it), an "-o=..." carries its own; each overwrites
    [oOpts]. *)
Fixpoint extractOArgs (args otherArgs oOpts : list string)
  : result (list string * list string) :=
  match args with
  | [] => Ok (otherArgs, oOpts)
  | arg :: rest =>
      if String.eqb arg "-o" then
        match rest with
        | [] =>
            (* Last argument? *)
            Error (fmt_Errorf
                     ("The " +:+ dq +:+ "-o" +:+ dq +:+ " option requires an argument")
                     [])
        | value :: rest' =>
            extractOArgs rest' otherArgs (strings_Split_comma value)
        end
      else if strings_HasPrefix arg "-o=" then
        extractOArgs rest otherArgs (strings_Split_comma (str_drop 3 arg))
      else extractOArgs rest (otherArgs ++ [arg]) oOpts
  end.

(** The loop that adds the options from "-o" to [newArgs]. *)
Fixpoint addOOpts (oOpts newArgs : list string) : outcome (list string) :=
  match oOpts with
  | [] => Return newArgs
  | o :: rest =>
      if String.eqb o "" then addOOpts rest newArgs
      else if String.eqb o "o" || String.eqb o "-o" then Exit exitcodes.Usage
      else addOOpts rest (newArgs ++ ["-" +:+ o])
  end.

(** prefixOArgs transforms options passed via "-o foo,bar" into regular
    options like "-foo -bar" and prefixes them to the command line. *)
Definition prefixOArgs (osArgs : list string)
  : outcome (result (list string)) :=
  (* Need at least 3, example: gocryptfs -o foo,bar *)
  if length osArgs <? 3 then Return (Ok osArgs)
  (* Passing "--" disables "-o" parsing. Ignore element 0 (program name). *)
  else if existsb (fun v => String.eqb v "--") (tail osArgs) then
    Return (Ok osArgs)
  else
    match extractOArgs (tail osArgs) [] [] with
    | Error err => Return (Error err)
    | Ok (otherArgs, oOpts) =>
        (* Start with program name *)
        let newArgs := take 1 osArgs in
        match addOOpts oOpts newArgs with
        | Exit code => Exit code
        | Return newArgs => Return (Ok (newArgs ++ otherArgs))
        end
    end.

(** A command line as the "-o" handling reads it, left to right: an "-o"
    with the argument after it, an "-o=..." argument, or any other
    argument. *)
Inductive cliItem : Type :=
| OSep (opts : string)
| OEq (opts : string)
| Plain (arg : string).

Definition render (item : cliItem) : list string :=
  match item with
  | OSep opts => ["-o"; opts]
  | OEq opts => ["-o=" +:+ opts]
  | Plain arg => [arg]
  end.

Definition renderAll (items : list cliItem) : list string :=
  concat (render <$> items).

(** An argument that is not an "-o" occurrence. *)
Definition plainArg (arg : string) : Prop :=
  arg <> "-o" /\ strings_HasPrefix arg "-o=" = false.

Definition wellFormedItem (item : cliItem) : Prop :=
  match item with
  | Plain arg => plainArg arg
  | _ => True
  end.

(** The option groups of the "-o" occurrences, in order. *)
Definition oGroups (items : list cliItem) : list string :=
  omap (fun item =>
          match item with
          | OSep opts | OEq opts => Some opts
          | Plain _ => None
          end) items.

(** The arguments that are no "-o" occurrence, in order. *)
Definition plainArgs (items : list cliItem) : list string :=
  omap (fun item =>
          match item with
          | Plain arg => Some arg
          | _ => None
          end) items.

(** "foo,bar" expanded to "-foo" "-bar"; empty fields are dropped. *)
Definition expand (opts : string) : list string :=
  (fun o => "-" +:+ o) <$>
    filter (fun o => o <> "") (strings_Split_comma opts).

(** A field "o" or "-o", which prefixOArgs refuses. *)
Definition isOOpt (o : string) : bool :=
  String.eqb o "o" || String.eqb o "-o".

(** argContainer stores the parsed CLI options. Of its fields the model
    keeps those that parseCliOptsBase and countOpFlags read or write once
    the flag package has filled them in. *)
Record argContainer : Type := {
  init : bool;
  passwd : bool;
  info : bool;
  fsck : bool;
  openssl : bool;
  reverse : bool;
  aessiv : bool;
  forcedecode : bool;
  allow_other : bool;
  ro : bool;
  masterkey : string;
  ko : string;
  fido2 : string;
  extpass : list string;
  passfile : list string;
  idle : Z;
  _explicitScryptn : bool;
}.

(** The values the flags are registered with. *)
Definition defaultArgs : argContainer :=
  {| init := false; passwd := false; info := false; fsck := false;
     openssl := false; reverse := false; aessiv := false;
     forcedecode := false; allow_other := false; ro := false;
     masterkey := ""; ko := ""; fido2 := ""; extpass := []; passfile := [];
     idle := 0; _explicitScryptn := false |}.

Definition set_openssl (v : bool) (a : argContainer) : argContainer :=
  {| init := init a; passwd := passwd a; info := info a; fsck := fsck a;
     openssl := v; reverse := reverse a; aessiv := aessiv a;
     forcedecode := forcedecode a; allow_other := allow_other a; ro := ro a;
     masterkey := masterkey a; ko := ko a; fido2 := fido2 a;
     extpass := extpass a; passfile := passfile a; idle := idle a;
     _explicitScryptn := _explicitScryptn a |}.
Definition set_explicitScryptn (v : bool) (a : argContainer) : argContainer :=
  {| init := init a; passwd := passwd a; info := info a; fsck := fsck a;
     openssl := openssl a; reverse := reverse a; aessiv := aessiv a;
     forcedecode := forcedecode a; allow_other := allow_other a; ro := ro a;
     masterkey := masterkey a; ko := ko a; fido2 := fido2 a;
     extpass := extpass a; passfile := passfile a; idle := idle a;
     _explicitScryptn := v |}.
(** [args.openssl = true; args.ro = true; args.allow_other = false;
    args.ko = "noexec"]. *)
Definition set_forcedecode_policy (a : argContainer) : argContainer :=
  {| init := init a; passwd := passwd a; info := info a; fsck := fsck a;
     openssl := true; reverse := reverse a; aessiv := aessiv a;
     forcedecode := forcedecode a; allow_other := false; ro := true;
     masterkey := masterkey a; ko := "noexec"; fido2 := fido2 a;
     extpass := extpass a; passfile := passfile a; idle := idle a;
     _explicitScryptn := _explicitScryptn a |}.

(** [multipleStrings.Empty]. *)
Definition Empty (s : list string) : bool := length s =? 0.

(** [strconv.ParseBool]. *)
Definition strconv_ParseBool (s : string) : result bool :=
  if existsb (String.eqb s) ["1"; "t"; "T"; "TRUE"; "true"; "True"] then Ok true
  else if existsb (String.eqb s) ["0"; "f"; "F"; "FALSE"; "false"; "False"]
  then Ok false
  else Error (errors_New "invalid syntax").

(** What [flagSet.Parse] leaves behind: [flag.ErrHelp], another error, or
    the filled-in [args] with the value of "-openssl" and whether
    "-scryptn" was passed. *)
Inductive ParseResult : Type :=
| ParseErrHelp
| ParseError (err : error)
| Parsed (args : argContainer) (opensslAuto : string) (scryptnPassed : bool).

(** The flag package and the build of stupidgcm. *)
Class Env : Type := {
  flagSet_Parse : list string -> ParseResult;
  stupidgcm_PreferOpenSSL : bool;
  stupidgcm_BuiltWithoutOpenssl : bool;
}.

Section WithEnv.
Context {E : Env}.

(** The checks of parseCliOptsBase on "-forcedecode": it only works with
    openssl. *)
Definition checkForcedecode (args : argContainer) (opensslAuto : string)
  : outcome argContainer :=
  if forcedecode args then
    if stupidgcm_BuiltWithoutOpenssl then Exit exitcodes.Usage
    else if aessiv args then Exit exitcodes.Usage
    else if reverse args then Exit exitcodes.Usage
    (* Has the user explicitly disabled openssl using "-openssl=false/0"? *)
    else if negb (openssl args) && negb (String.eqb opensslAuto "auto") then
      Exit exitcodes.Usage
    else Return (set_forcedecode_policy args)
  else Return args.

(** The checks of parseCliOptsBase on the password sources and the idle
    time. *)
Definition checkExclusive (args : argContainer) : outcome argContainer :=
  if negb (Empty (extpass args)) && negb (length (passfile args) =? 0) then
    Exit exitcodes.Usage
  else if negb (length (passfile args) =? 0)
          && negb (String.eqb (masterkey args) "") then
    Exit exitcodes.Usage
  else if negb (Empty (extpass args))
          && negb (String.eqb (masterkey args) "") then
    Exit exitcodes.Usage
  else if negb (Empty (extpass args)) && negb (String.eqb (fido2 args) "") then
    Exit exitcodes.Usage
  else if (idle args <? 0)%Z then Exit exitcodes.Usage
  else Return args.

(** parseCliOptsBase: parse command line options (arguments that start
    with "-"), then post-process and check them. [osArgs] is [os.Args],
    which names the program first; on an empty [os.Args] the slice
    [os.Args[1:]] panics before anything is parsed, a case the model does
    not follow ([tail] of the empty list is the empty list). *)
Definition parseCliOptsBase (osArgs : list string) : outcome argContainer :=
  (* Actual parsing *)
  match flagSet_Parse (tail osArgs) with
  | ParseErrHelp => Exit 0
  | ParseError _ => Exit exitcodes.Usage
  | Parsed args opensslAuto scryptnPassed =>
      (* We want to know if -scryptn was passed explicitly *)
      let args :=
        if scryptnPassed then set_explicitScryptn true args else args in
      (* "-openssl" needs some post-processing *)
      let opensslSetting :=
        if String.eqb opensslAuto "auto" then Ok stupidgcm_PreferOpenSSL
        else strconv_ParseBool opensslAuto in
      match opensslSetting with
      | Error _ => Exit exitcodes.Usage
      | Ok b =>
          let args := set_openssl b args in
          match checkForcedecode args opensslAuto with
          | Exit code => Exit code
          | Return args => checkExclusive args
          end
      end
  end.

(** parseCliOptsDiy and parseCliOpts: expand "-o", then parse. *)
Definition parseCliOptsDiy (cliOpts : list string) : outcome argContainer :=
  match prefixOArgs cliOpts with
  | Exit code => Exit code
  | Return (Error _) => Exit exitcodes.Usage
  | Return (Ok osArgs) => parseCliOptsBase osArgs
  end.

Definition parseCliOpts (osArgs : list string) : outcome argContainer :=
  parseCliOptsDiy osArgs.

End WithEnv.

(** countOpFlags counts the number of operation flags we were passed. *)
Definition countOpFlags (args : argContainer) : nat :=
  let count := 0 in
  let count := if info args then S count else count in
  let count := if passwd args then S count else count in
  let count := if init args then S count else count in
  let count := if fsck args then S count else count in
  count.

(** [strings.Join(elems, sep)]. *)
Fixpoint strings_Join (elems : list string) (sep : string) : string :=
  match elems with
  | [] => EmptyString
  | e :: rest =>
      match rest with
      | [] => e
      | _ :: _ => e +:+ sep +:+ strings_Join rest sep
      end
  end.

(** [fmt.Sprintf("%v", a)] for a slice of strings: the elements between
    brackets, separated by single spaces. *)
Definition fmt_Sprint_strings (a : list string) : string :=
  "[" +:+ strings_Join a " " +:+ "]".

(** The slice expression [s[lo:hi]] on a string; [None] is the run-time
    panic for bounds out of range. *)
Definition str_slice (s : string) (lo hi : Z) : option string :=
  if ((0 <=? lo) && (lo <=? hi) && (hi <=? Z.of_nat (String.length s)))%Z
  then Some (String.substring (Z.to_nat lo) (Z.to_nat (hi - lo)) s)
  else None.

(** prettyArgs pretty-prints the command-line arguments [os.Args]. *)
Definition prettyArgs (osArgs : list string) : option string :=
  let pa := fmt_Sprint_strings osArgs in
  (* Get rid of "[" and "]" *)
  str_slice pa 1 (Z.of_nat (String.length pa) - 1).

(** [multipleStrings.Set]; the receiver is returned as updated, the error
    is always nil. *)
Definition multipleStrings_Set (s : list string) (val : string)
  : result (list string) :=
  Ok (s ++ [val]).

(** [flagSet.Visit(fn)]: calls [fn] for each flag that has been set;
    [actual] holds the names of those flags, in the order of the visit. *)
Definition flagSet_Visit {A : Type} (actual : list string)
    (fn : string -> A -> A) (a : A) : A :=
  fold_left (fun a f_Name => fn f_Name a) actual a.

(** isFlagPassed finds out if the flag was explicitly passed on the command
    line. *)
Definition isFlagPassed (actual : list string) (name : string) : bool :=
  let found := false in
  flagSet_Visit actual
    (fun f_Name found => if String.eqb f_Name name then true else found)
    found.

End cli.

(** ** Reference instances of the external code

    Small executable stand-ins for the libraries kept abstract above. They
    show that what the theorems assume of those libraries can be met, and
    they let the models run on concrete inputs. *)
Module fixtures.

Definition xor_byte (a b : byte) : byte :=
  default x00 (Byte.of_N (N.lxor (Byte.to_N a) (Byte.to_N b))).

(** Each byte is xored with the IV byte at its position (the IV repeats). *)
Definition xor_iv (iv data : list byte) : list byte :=
  imap (fun i b => xor_byte b (nth (i mod length iv) iv x00)) data.

(** A length-preserving cipher tweaked by the IV: xor, then reverse. *)
Definition xorEME : nametransform.EMECipher :=
  {| nametransform.eme_Encrypt := fun iv data => rev (xor_iv iv data);
     nametransform.eme_Decrypt := fun iv data => xor_iv iv (rev data) |}.

(** Shell patterns with [*] and [?], where [*] stops at a "/". *)
Fixpoint globMatch (pattern : string) : string -> bool :=
  match pattern with
  | EmptyString => fun name => String.eqb name ""
  | String p pattern' =>
      if Ascii.eqb p "*"%char then
        fix star (name : string) : bool :=
          globMatch pattern' name ||
          match name with
          | EmptyString => false
          | String c name' => if Ascii.eqb c "/"%char then false else star name'
          end
      else
        fun name =>
          match name with
          | EmptyString => false
          | String c name' =>
              (Ascii.eqb p "?"%char || Ascii.eqb p c) && globMatch pattern' name'
          end
  end.

Definition filepath_Match (pattern name : string) : result bool :=
  Ok (globMatch pattern name).

Definition iv0 : list byte := replicate 16 x00.
Definition iv1 : list byte := byte_of_nat <$> seq 1 16.

(** A transformer as gocryptfs builds it (long names, raw base64), with
    one badname pattern. *)
Definition nt : nametransform.NameTransform :=
  {| nametransform.emeCipher := xorEME;
     nametransform.longNames := true;
     nametransform.B64 := base64.RawURLEncoding;
     nametransform.BadnamePatterns := ["*.conflict"] |}.

(** A stand-in for scrypt: the first [keyLen] bytes of password, salt and
    zero padding. *)
Definition scrypt_Key (pw salt : list byte) (N r p : Z) (keyLen : nat)
  : list byte :=
  take keyLen (pw ++ salt ++ replicate keyLen x00).

(** A stand-in for the block cipher: the ciphertext is the nonce, the key
    and the plaintext; decryption checks the key. *)
Definition EncryptBlockNonce (ce : configfile.ContentEnc)
    (plaintext : list byte) (blockNo : Z) (fileID nonce : list byte)
  : list byte :=
  nonce ++ configfile.cc_key (configfile.cryptoCore ce) ++ plaintext.

Definition DecryptBlock (ce : configfile.ContentEnc) (ciphertext : list byte)
    (blockNo : Z) (fileID : list byte) : result (list byte) :=
  let key := configfile.cc_key (configfile.cryptoCore ce) in
  let body :=
    drop (configfile.IVBitLen (configfile.cryptoCore ce) / 8) ciphertext in
  if bool_decide (take (length key) body = key)
  then Ok (drop (length key) body)
  else Error (errors_New "cipher: message authentication failed").

(** A stand-in for encoding/json: the exported fields of the config, one
    after the other, in a layout that delimits itself. A byte string is
    written with 01 before each byte and 00 after the last; a number is
    its sign and its binary digits, written as a byte string; a list of
    strings is its length and then the strings. Whatever follows the last
    field (the line feed WriteFile adds) is skipped on reading. *)
Definition enc_bytes (l : list byte) : list byte :=
  concat ((fun b => [x01; b]) <$> l) ++ [x00].

Fixpoint dec_bytes (l : list byte) : option (list byte * list byte) :=
  match l with
  | [] => None
  | tag :: rest =>
      if Byte.eqb tag x00 then Some ([], rest)
      else
        match rest with
        | [] => None
        | b :: rest' =>
            '(bs, rest'') ← dec_bytes rest'; Some (b :: bs, rest'')
        end
  end.

Fixpoint pos_digits (p : positive) : list byte :=
  match p with
  | xH => []
  | xO p => x00 :: pos_digits p
  | xI p => x01 :: pos_digits p
  end.

Fixpoint digits_pos (l : list byte) : positive :=
  match l with
  | [] => xH
  | d :: l => if Byte.eqb d x00 then xO (digits_pos l) else xI (digits_pos l)
  end.

Definition enc_Z (z : Z) : list byte :=
  enc_bytes match z with
            | Z0 => []
            | Zpos p => x01 :: pos_digits p
            | Zneg p => x02 :: pos_digits p
            end.

Definition dec_Z (l : list byte) : option (Z * list byte) :=
  '(bs, rest) ← dec_bytes l;
  Some (match bs with
        | [] => Z0
        | sign :: digits =>
            if Byte.eqb sign x01 then Zpos (digits_pos digits)
            else Zneg (digits_pos digits)
        end, rest).

Definition enc_string (s : string) : list byte := enc_bytes (bytes_of_string s).

Definition dec_string (l : list byte) : option (string * list byte) :=
  '(bs, rest) ← dec_bytes l; Some (string_of_bytes bs, rest).

Fixpoint dec_strings (n : nat) (l : list byte)
  : option (list string * list byte) :=
  match n with
  | 0 => Some ([], l)
  | S n =>
      '(s, rest) ← dec_string l;
      '(ss, rest') ← dec_strings n rest;
      Some (s :: ss, rest')
  end.

Definition enc_ConfFile (cf : configfile.ConfFile) : list byte :=
  enc_string (configfile.Creator cf)
  ++ enc_bytes (configfile.EncryptedKey cf)
  ++ enc_bytes (configfile.Salt (configfile.ScryptObject cf))
  ++ enc_Z (configfile.ScryptN (configfile.ScryptObject cf))
  ++ enc_Z (configfile.ScryptR (configfile.ScryptObject cf))
  ++ enc_Z (configfile.ScryptP (configfile.ScryptObject cf))
  ++ enc_Z (Z.of_nat (configfile.KeyLen (configfile.ScryptObject cf)))
  ++ enc_Z (configfile.Version cf)
  ++ enc_Z (Z.of_nat (length (configfile.FeatureFlags cf)))
  ++ concat (enc_string <$> configfile.FeatureFlags cf)
  ++ enc_bytes (configfile.CredentialID (configfile.FIDO2 cf))
  ++ enc_bytes (configfile.HMACSalt (configfile.FIDO2 cf)).

Definition dec_ConfFile (filename : string) (l : list byte)
  : option configfile.ConfFile :=
  '(creator, l) ← dec_string l;
  '(encryptedKey, l) ← dec_bytes l;
  '(salt, l) ← dec_bytes l;
  '(n, l) ← dec_Z l;
  '(r, l) ← dec_Z l;
  '(p, l) ← dec_Z l;
  '(keyLen, l) ← dec_Z l;
  '(version, l) ← dec_Z l;
  '(nflags, l) ← dec_Z l;
  '(flags, l) ← dec_strings (Z.to_nat nflags) l;
  '(credentialID, l) ← dec_bytes l;
  '(hmacSalt, l) ← dec_bytes l;
  Some {| configfile.Creator := creator;
          configfile.EncryptedKey := encryptedKey;
          configfile.ScryptObject :=
            {| configfile.Salt := salt; configfile.ScryptN := n;
               configfile.ScryptR := r; configfile.ScryptP := p;
               configfile.KeyLen := Z.to_nat keyLen |};
          configfile.Version := version;
          configfile.FeatureFlags := flags;
          configfile.FIDO2 :=
            {| configfile.CredentialID := credentialID;
               configfile.HMACSalt := hmacSalt |};
          configfile.filename := filename |}.

Definition json_MarshalIndent (cf : configfile.ConfFile) : result (list byte) :=
  Ok (enc_ConfFile cf).

(** The unexported [filename] of the value decoded into is kept. *)
Definition json_Unmarshal (js : list byte) (cf : configfile.ConfFile)
  : result configfile.ConfFile :=
  match dec_ConfFile (configfile.filename cf) js with
  | Some cf' => Ok cf'
  | None => Error (json_SyntaxError 0)
  end.

#[global] Instance X : configfile.Externals :=
  {| configfile.scrypt_Key := scrypt_Key;
     configfile.EncryptBlockNonce := EncryptBlockNonce;
     configfile.DecryptBlock := DecryptBlock;
     configfile.json_MarshalIndent := json_MarshalIndent;
     configfile.json_Unmarshal := json_Unmarshal |}.

(** A stand-in for the AEAD: the plaintext, then a tag made of the key,
    the nonce and the additional data; opening checks the tag. *)
Definition aead_tag (cc : configfile.CryptoCore) (nonce aad : list byte)
  : list byte :=
  configfile.cc_key cc ++ nonce ++ aad.

Definition AEADCipher_Seal (cc : configfile.CryptoCore)
    (nonce plaintext aad : list byte) : list byte :=
  plaintext ++ aead_tag cc nonce aad.

Definition AEADCipher_raw (cc : configfile.CryptoCore)
    (nonce ciphertext : list byte) : list byte :=
  take (length ciphertext - length (configfile.cc_key cc) - length nonce)
    ciphertext.

Definition AEADCipher_Open (cc : configfile.CryptoCore)
    (nonce ciphertext aad : list byte) : result (list byte) :=
  let tag := aead_tag cc nonce aad in
  let n := length ciphertext - length tag in
  if bool_decide (length tag <= length ciphertext /\ drop n ciphertext = tag)
  then Ok (take n ciphertext)
  else Error (errors_New "cipher: message authentication failed").

#[global] Instance A : configfile.AEAD :=
  {| configfile.AEADCipher_Seal := AEADCipher_Seal;
     configfile.AEADCipher_Open := AEADCipher_Open;
     configfile.AEADCipher_raw := AEADCipher_raw |}.

(** The stand-ins with contentenc's block layer over the stand-in AEAD. *)
Definition XA : configfile.Externals := configfile.contentencExternals A X.

(** A world with no files, no failing system call and a counting entropy
    stream. *)
Definition w0 : World :=
  {| files := ∅; io_fault := fun _ => None;
     entropy := fun i => byte_of_nat (i mod 251) |}.

Definition with_file (name : string) (content : list byte) (w : World)
  : World :=
  set_files (<[name := content]> (files w)) w.

(** The world in which the system call [name] fails with [e]. *)
Definition with_fault (name : syscallName) (e : Errno) (w : World) : World :=
  {| files := files w;
     io_fault := fun s => if decide (s = name) then Some e else io_fault w s;
     entropy := entropy w |}.

(** The content of a gocryptfs.conf that holds [cf]. *)
Definition conf_of (cf : configfile.ConfFile) : list byte :=
  enc_ConfFile cf ++ [configfile.newline].

(** The config of a plaintext-names filesystem that also carries DirIV. *)
Definition cf_plaintextnames_diriv : configfile.ConfFile :=
  configfile.set_FeatureFlags ["GCMIV128"; "HKDF"; "PlaintextNames"; "DirIV"]
    (configfile.set_Version 2 configfile.zero_ConfFile).

(** The config of a filesystem from before EMENames. *)
Definition cf_v05 : configfile.ConfFile :=
  configfile.set_FeatureFlags ["GCMIV128"; "HKDF"; "DirIV"]
    (configfile.set_Version 2 configfile.zero_ConfFile).

Definition testPw : list byte := bytes_of_string "test".
Definition testKey : list byte := byte_of_nat <$> seq 100 32.

(** A stand-in for the flag package that knows the four password source
    options and the boolean options "-forcedecode", "-aessiv" and
    "-reverse": "-name value", "-name=value", "--name", and "-name" alone
    for a boolean; parsing stops at "--" and at the first argument that is
    no flag. *)
Definition flagName (arg : string) : option (string * option string) :=
  match arg with
  | String "-" (String c rest as name) =>
      let name := if Ascii.eqb c "-"%char then rest else name in
      match String.index 0 "=" name with
      | Some i =>
          Some (str_take i name, Some (str_drop (S i) name))
      | None => Some (name, None)
      end
  | _ => None
  end.

Definition setFlag (name value : string) (a : cli.argContainer)
  : option cli.argContainer :=
  let upd extpass passfile masterkey fido2 :=
    {| cli.init := cli.init a; cli.passwd := cli.passwd a;
       cli.info := cli.info a; cli.fsck := cli.fsck a;
       cli.openssl := cli.openssl a; cli.reverse := cli.reverse a;
       cli.aessiv := cli.aessiv a; cli.forcedecode := cli.forcedecode a;
       cli.allow_other := cli.allow_other a; cli.ro := cli.ro a;
       cli.masterkey := masterkey; cli.ko := cli.ko a; cli.fido2 := fido2;
       cli.extpass := extpass; cli.passfile := passfile;
       cli.idle := cli.idle a;
       cli._explicitScryptn := cli._explicitScryptn a |} in
  if String.eqb name "extpass" then
    Some (upd (cli.extpass a ++ [value]) (cli.passfile a) (cli.masterkey a)
            (cli.fido2 a))
  else if String.eqb name "passfile" then
    Some (upd (cli.extpass a) (cli.passfile a ++ [value]) (cli.masterkey a)
            (cli.fido2 a))
  else if String.eqb name "masterkey" then
    Some (upd (cli.extpass a) (cli.passfile a) value (cli.fido2 a))
  else if String.eqb name "fido2" then
    Some (upd (cli.extpass a) (cli.passfile a) (cli.masterkey a) value)
  else None.

Definition setBoolFlag (name : string) (value : bool) (a : cli.argContainer)
  : option cli.argContainer :=
  let upd reverse aessiv forcedecode :=
    {| cli.init := cli.init a; cli.passwd := cli.passwd a;
       cli.info := cli.info a; cli.fsck := cli.fsck a;
       cli.openssl := cli.openssl a; cli.reverse := reverse;
       cli.aessiv := aessiv; cli.forcedecode := forcedecode;
       cli.allow_other := cli.allow_other a; cli.ro := cli.ro a;
       cli.masterkey := cli.masterkey a; cli.ko := cli.ko a;
       cli.fido2 := cli.fido2 a; cli.extpass := cli.extpass a;
       cli.passfile := cli.passfile a; cli.idle := cli.idle a;
       cli._explicitScryptn := cli._explicitScryptn a |} in
  if String.eqb name "reverse" then
    Some (upd value (cli.aessiv a) (cli.forcedecode a))
  else if String.eqb name "aessiv" then
    Some (upd (cli.reverse a) value (cli.forcedecode a))
  else if String.eqb name "forcedecode" then
    Some (upd (cli.reverse a) (cli.aessiv a) value)
  else None.

Definition notDefined (name : string) : cli.ParseResult :=
  cli.ParseError (fmt_Errorf "flag provided but not defined: -%s" [ArgStr name]).

Fixpoint parseFlags (args : list string) (a : cli.argContainer)
  : cli.ParseResult :=
  match args with
  | [] => cli.Parsed a "auto" false
  | arg :: rest =>
      if String.eqb arg "--" then cli.Parsed a "auto" false
      else
        match flagName arg with
        | None | Some (EmptyString, _) => cli.Parsed a "auto" false
        | Some (name, Some value) =>
            match setFlag name value a with
            | Some a' => parseFlags rest a'
            | None =>
                match cli.strconv_ParseBool value with
                | Ok b =>
                    match setBoolFlag name b a with
                    | Some a' => parseFlags rest a'
                    | None => notDefined name
                    end
                | Error _ => notDefined name
                end
            end
        | Some (name, None) =>
            if String.eqb name "h" || String.eqb name "help"
            then cli.ParseErrHelp
            else
              match setBoolFlag name true a with
              | Some a' => parseFlags rest a'
              | None =>
                  match rest with
                  | [] =>
                      cli.ParseError
                        (fmt_Errorf "flag needs an argument: -%s"
                           [ArgStr name])
                  | value :: rest' =>
                      match setFlag name value a with
                      | Some a' => parseFlags rest' a'
                      | None => notDefined name
                      end
                  end
              end
        end
  end.

#[global] Instance E : cli.Env :=
  {| cli.flagSet_Parse := fun args => parseFlags args cli.defaultArgs;
     cli.stupidgcm_PreferOpenSSL := true;
     cli.stupidgcm_BuiltWithoutOpenssl := false |}.

End fixtures.

(** * Properties *)

(** ** base64: decoding inverts encoding *)
Section Base64Facts.
Import base64.

Lemma decode_char_encode_char (s : sextet) :
  decode_char (encode_char s) = Some s.
Proof.
  destruct s as [[[[[s5 s4] s3] s2] s1] s0].
  destruct s5, s4, s3, s2, s1, s0; reflexivity.
Qed.

Lemma encode_char_not_pad (s : sextet) : is_pad (encode_char s) = false.
Proof.
  destruct s as [[[[[s5 s4] s3] s2] s1] s0].
  destruct s5, s4, s3, s2, s1, s0; reflexivity.
Qed.

Lemma join3_split3 (a b c : byte) :
  let '(s1, s2, s3, s4) := split3 a b c in join3 s1 s2 s3 s4 = (a, b, c).
Proof.
  unfold split3, join3.
  destruct (Byte.to_bits a) as (a0 & a1 & a2 & a3 & a4 & a5 & a6 & a7) eqn:Ha.
  destruct (Byte.to_bits b) as (b0 & b1 & b2 & b3 & b4 & b5 & b6 & b7) eqn:Hb.
  destruct (Byte.to_bits c) as (c0 & c1 & c2 & c3 & c4 & c5 & c6 & c7) eqn:Hc.
  rewrite <- Ha, <- Hb, <- Hc, !Byte.of_bits_to_bits. reflexivity.
Qed.

(** The last group of one byte: only the first sextet and the top two bits
    of the second matter. *)
Lemma join3_split3_one (a : byte) :
  let '(s1, s2, _, _) := split3 a x00 x00 in
  let '(a', _, _) := join3 s1 s2 zero6 zero6 in a' = a.
Proof.
  unfold split3, join3, zero6.
  destruct (Byte.to_bits a) as (a0 & a1 & a2 & a3 & a4 & a5 & a6 & a7) eqn:Ha.
  cbv beta iota zeta delta [Byte.to_bits].
  rewrite <- Ha, Byte.of_bits_to_bits. reflexivity.
Qed.

Lemma join3_split3_two (a b : byte) :
  let '(s1, s2, s3, _) := split3 a b x00 in
  let '(a', b', _) := join3 s1 s2 s3 zero6 in a' = a /\ b' = b.
Proof.
  unfold split3, join3, zero6.
  destruct (Byte.to_bits a) as (a0 & a1 & a2 & a3 & a4 & a5 & a6 & a7) eqn:Ha.
  destruct (Byte.to_bits b) as (b0 & b1 & b2 & b3 & b4 & b5 & b6 & b7) eqn:Hb.
  cbv beta iota zeta delta [Byte.to_bits].
  rewrite <- Ha, <- Hb, !Byte.of_bits_to_bits. split; reflexivity.
Qed.

(** Lists three elements at a time. *)
Lemma list_ind3 {A} (P : list A -> Prop) :
  P [] -> (forall a, P [a]) -> (forall a b, P [a; b]) ->
  (forall a b c l, P l -> P (a :: b :: c :: l)) ->
  forall l, P l.
Proof.
  intros H0 H1 H2 H3 l.
  assert (P l /\ (forall a, P (a :: l)) /\ (forall a b, P (a :: b :: l)))
    as [? _]; [|assumption].
  induction l as [|x l (IH0 & IH1 & IH2)]; [by auto|].
  split_and!; [apply IH1| |]; intros; by auto.
Qed.

Lemma quantum_bytes_full (a b c : byte) :
  let '(s1, s2, s3, s4) := split3 a b c in
  quantum_bytes [s1; s2; s3; s4] = [a; b; c].
Proof.
  pose proof (join3_split3 a b c) as H.
  destruct (split3 a b c) as [[[s1 s2] s3] s4].
  unfold quantum_bytes. by rewrite H.
Qed.

Lemma quantum_bytes_one (a : byte) :
  let '(s1, s2, _, _) := split3 a x00 x00 in quantum_bytes [s1; s2] = [a].
Proof.
  pose proof (join3_split3_one a) as H.
  destruct (split3 a x00 x00) as [[[s1 s2] s3] s4].
  unfold quantum_bytes.
  destruct (join3 s1 s2 zero6 zero6) as [[a' ?] ?]. by subst.
Qed.

Lemma quantum_bytes_two (a b : byte) :
  let '(s1, s2, s3, _) := split3 a b x00 in
  quantum_bytes [s1; s2; s3] = [a; b].
Proof.
  pose proof (join3_split3_two a b) as H.
  destruct (split3 a b x00) as [[[s1 s2] s3] s4].
  unfold quantum_bytes.
  destruct (join3 s1 s2 s3 zero6) as [[a' b'] ?]. destruct H; by subst.
Qed.

(** A letter of the alphabet joins the quantum under way, and completes it
    when it is the fourth. *)
Lemma decode_from_letter enc si (dbuf : list sextet) (s : sextet)
    (rest : string) :
  decode_from enc si dbuf (String (encode_char s) rest) =
  if length dbuf =? 3 then
    match decode_from enc (S si) [] rest with
    | Ok l => Ok (quantum_bytes (dbuf ++ [s]) ++ l)
    | Error e => Error e
    end
  else decode_from enc (S si) (dbuf ++ [s]) rest.
Proof. cbn [decode_from]. by rewrite decode_char_encode_char. Qed.

Lemma decode_from_EncodeToString enc (src : list byte) : forall si,
  decode_from enc si [] (EncodeToString enc src) = Ok src.
Proof.
  induction src as [|a|a b|a b c rest IH] using list_ind3; intros si.
  - reflexivity.
  - pose proof (quantum_bytes_one a) as H.
    cbn [EncodeToString].
    destruct (split3 a x00 x00) as [[[s1 s2] s3] s4].
    rewrite !decode_from_letter. cbn [length Nat.eqb app].
    destruct enc; cbn [padded]; unfold str1; [|by rewrite <- H].
    by rewrite <- H.
  - pose proof (quantum_bytes_two a b) as H.
    cbn [EncodeToString].
    destruct (split3 a b x00) as [[[s1 s2] s3] s4].
    rewrite !decode_from_letter. cbn [length Nat.eqb app].
    destruct enc; cbn [padded]; unfold str1; [|by rewrite <- H].
    by rewrite <- H.
  - pose proof (quantum_bytes_full a b c) as H.
    cbn [EncodeToString].
    destruct (split3 a b c) as [[[s1 s2] s3] s4].
    rewrite !decode_from_letter. cbn [length Nat.eqb app].
    by rewrite IH, H.
Qed.

(** Base64 round trip, for both encodings. *)
Lemma DecodeString_EncodeToString enc (src : list byte) :
  DecodeString enc (EncodeToString enc src) = Ok src.
Proof. apply decode_from_EncodeToString. Qed.

(** [EncodedLen] is the length of what [EncodeToString] returns. *)
Lemma EncodeToString_length enc (src : list byte) :
  String.length (EncodeToString enc src) = EncodedLen enc (length src).
Proof.
  induction src as [|a|a b|a b c rest IH] using list_ind3.
  - by destruct enc.
  - cbn [EncodeToString]. destruct (split3 a x00 x00) as [[[s1 s2] s3] s4].
    by destruct enc.
  - cbn [EncodeToString]. destruct (split3 a b x00) as [[[s1 s2] s3] s4].
    by destruct enc.
  - cbn [EncodeToString]. destruct (split3 a b c) as [[[s1 s2] s3] s4].
    cbn [String.length length]. rewrite IH. unfold EncodedLen.
    replace (S (S (S (length rest)))) with (length rest + 1 * 3) by lia.
    destruct (padded enc).
    + replace (length rest + 1 * 3 + 2) with (length rest + 2 + 1 * 3) by lia.
      rewrite Nat.div_add by lia. lia.
    + rewrite Nat.div_add by lia. rewrite Nat.Div0.mod_add. lia.
Qed.

(** At least 16 bytes due to AES: at least 22 characters in raw base64,
    24 in padded base64. *)
Lemma EncodedLen_BlockSize enc :
  EncodedLen enc nametransform.aes_BlockSize
  = match enc with URLEncoding => 24 | RawURLEncoding => 22 end.
Proof. by destruct enc. Qed.

End Base64Facts.

(** ** nametransform: padding *)
Section Pad16Facts.
Import nametransform.

Lemma nat_of_byte_of_nat (n : nat) : n <= 16 -> nat_of_byte (byte_of_nat n) = n.
Proof.
  intros Hn. do 17 (destruct n as [|n]; [reflexivity|]). lia.
Qed.

Lemma find_mismatch_replicate (b : byte) (k i : nat) :
  find_mismatch b (replicate k b) i = None.
Proof.
  revert i. induction k as [|k IH]; intros i; [reflexivity|].
  cbn. destruct (Byte.eqb b b) eqn:Heq; [apply IH|].
  apply Byte.eqb_false in Heq. congruence.
Qed.

Lemma last_app_replicate {A} (l : list A) (k : nat) (x d : A) :
  0 < k -> List.last (l ++ replicate k x) d = x.
Proof.
  intros Hk. destruct k as [|k]; [lia|].
  rewrite replicate_S_end, app_assoc. apply List.last_last.
Qed.

Lemma pad16_length (orig : list byte) :
  length (pad16 orig) =
  length orig + (aes_BlockSize - length orig mod aes_BlockSize).
Proof. unfold pad16. by rewrite length_app, length_replicate. Qed.

Lemma pad16_aligned (orig : list byte) :
  length (pad16 orig) mod aes_BlockSize = 0 /\ 0 < length (pad16 orig).
Proof.
  rewrite pad16_length. unfold aes_BlockSize.
  pose proof (Nat.mod_upper_bound (length orig) 16 ltac:(lia)) as Hlt.
  pose proof (Nat.div_mod_eq (length orig) 16) as Hdm.
  split; [|lia].
  replace (length orig + (16 - length orig mod 16))
    with ((length orig / 16 + 1) * 16) by lia.
  apply Nat.Div0.mod_mul.
Qed.

(** PKCS#7 round trip. *)
Lemma unPad16_pad16 (orig : list byte) : unPad16 (pad16 orig) = Ok orig.
Proof.
  destruct (pad16_aligned orig) as [Hmod Hpos].
  unfold unPad16. rewrite Hmod.
  destruct (length (pad16 orig) =? 0) eqn:Hz; [apply Nat.eqb_eq in Hz; lia|].
  cbn [Nat.eqb negb].
  pose proof (Nat.mod_upper_bound (length orig) aes_BlockSize) as Hlt.
  unfold aes_BlockSize in Hlt |- *. specialize (Hlt ltac:(lia)).
  set (padLen := 16 - length orig mod 16) in *.
  assert (List.last (pad16 orig) x00 = byte_of_nat padLen) as ->.
  { unfold pad16. apply last_app_replicate. unfold aes_BlockSize.
    fold padLen. lia. }
  rewrite nat_of_byte_of_nat by lia.
  destruct (padLen =? 0) eqn:Hp0; [apply Nat.eqb_eq in Hp0; lia|].
  destruct (16 <? padLen) eqn:Hp16; [apply Nat.ltb_lt in Hp16; lia|].
  rewrite pad16_length. unfold aes_BlockSize. fold padLen.
  replace (length orig + padLen - padLen) with (length orig) by lia.
  unfold pad16, aes_BlockSize. fold padLen.
  rewrite drop_app_length, take_app_length, find_mismatch_replicate.
  reflexivity.
Qed.

Lemma bytes_Contains1_false (bin : list byte) (b : byte) :
  b ∉ bin -> bytes_Contains1 bin b = false.
Proof.
  intros Hnot. unfold bytes_Contains1.
  apply not_true_is_false. intros (x & Hin & Heq)%existsb_exists.
  apply Byte.byte_dec_bl in Heq. subst x.
  apply Hnot, list_elem_of_In, Hin.
Qed.

Lemma bytes_Contains1_true (bin : list byte) (b : byte) :
  b ∈ bin -> bytes_Contains1 bin b = true.
Proof.
  intros Hin. unfold bytes_Contains1. apply existsb_exists.
  exists b. split; [by apply list_elem_of_In|]. by apply Byte.byte_dec_lb.
Qed.

Lemma bytes_of_string_inj (s : string) (l : list byte) :
  bytes_of_string s = l -> s = string_of_bytes l.
Proof. intros <-. by rewrite String.string_of_list_byte_of_string. Qed.

(** unPad16 tells bad paddings apart, down to the position of the first
    wrong byte. *)
Example unPad16_detail :
  unPad16 (replicate 13 x41 ++ [x00; x03; x03])
  = Error (fmt_Errorf "Padding byte at i=%d is invalid" [ArgInt 13])
  /\ unPad16 (replicate 14 x41 ++ [x00; x02])
  = Error (fmt_Errorf "Padding byte at i=%d is invalid" [ArgInt 14])
  /\ unPad16 (replicate 15 x41 ++ [x11])
  = Error (fmt_Errorf "Padding too long, padLen=%d > 16" [ArgInt 17])
  /\ unPad16 (replicate 16 x00)
  = Error (errors_New "Padding cannot be zero-length").
Proof. split_and!; reflexivity. Qed.

Lemma substring_0_length (s : string) :
  String.substring 0 (String.length s) s = s.
Proof. induction s as [|c s IH]; cbn; [done|]. by rewrite IH. Qed.

(** [s[:n] + s[n:] == s]. *)
Lemma str_take_drop (n : nat) (s : string) :
  n <= String.length s -> str_take n s +:+ str_drop n s = s.
Proof.
  unfold str_take, str_drop. revert n.
  induction s as [|c s IH]; intros n Hn.
  - cbn in Hn. by assert (n = 0) as -> by lia.
  - destruct n as [|n].
    + cbn [String.substring String.length Nat.sub String.append].
      by rewrite substring_0_length.
    + cbn [String.substring String.length Nat.sub].
      change (String c (String.substring 0 n s +:+
                String.substring n (String.length s - n) s) = String c s).
      f_equal. apply IH. cbn in Hn. lia.
Qed.

End Pad16Facts.

(** ** nametransform: names *)
Section NameFacts.
Import nametransform.

Variable filepath_Match : string -> string -> result bool.

Lemma decryptName_EncryptName (n : NameTransform) (plainName : string)
    (iv : list byte) :
  validName plainName ->
  eme_inverts (emeCipher n) iv (pad16 (bytes_of_string plainName)) ->
  decryptName n (EncryptName n plainName iv) iv = Ok plainName.
Proof.
  intros (Hne & Hnul & Hslash & Hdot & Hdotdot) [Hinv Hlen].
  unfold decryptName, EncryptName.
  rewrite DecodeString_EncodeToString, Hlen.
  destruct (pad16_aligned (bytes_of_string plainName)) as [Hmod Hpos].
  rewrite Hmod.
  destruct (length _ =? 0) eqn:Hz; [apply Nat.eqb_eq in Hz; lia|].
  cbn [Nat.eqb negb]. rewrite Hinv, unPad16_pad16.
  rewrite !bytes_Contains1_false by assumption. cbn [orb].
  unfold bytes_Equal. rewrite !bool_decide_eq_false_2.
  - cbn [orb]. by rewrite String.string_of_list_byte_of_string.
  - intros ->%bytes_of_string_inj. by apply Hdotdot.
  - intros ->%bytes_of_string_inj. by apply Hdot.
Qed.

(** C2. Name round trip: for every valid plaintext name (not empty, no "/"
    and no NUL byte, neither "." nor "..") and every IV under which the EME
    cipher inverts itself on the padded name, decrypting the encrypted name
    returns the name and no error, through decryptName and through the
    exported DecryptName alike, whatever the encoding and the badname
    patterns. *)
Theorem DecryptName_EncryptName (n : NameTransform) (plainName : string)
    (iv : list byte) :
  validName plainName ->
  eme_inverts (emeCipher n) iv (pad16 (bytes_of_string plainName)) ->
  DecryptName filepath_Match n (EncryptName n plainName iv) iv = Ok plainName
  /\ decryptName n (EncryptName n plainName iv) iv = Ok plainName.
Proof.
  intros Hvalid Hinv.
  pose proof (decryptName_EncryptName n plainName iv Hvalid Hinv) as H.
  split; [|exact H]. unfold DecryptName. by rewrite H.
Qed.

Lemma bytes_Contains1_spec (bin : list byte) (b : byte) :
  bytes_Contains1 bin b = true <-> b ∈ bin.
Proof.
  split; [|apply bytes_Contains1_true].
  intros H. destruct (decide (b ∈ bin)) as [|Hn]; [done|].
  rewrite bytes_Contains1_false in H by done. discriminate.
Qed.

(** C5. Padding-oracle hygiene: for every ciphertext name that base64
    decodes, decryptName returns the one error value EBADMSG in every class
    of corruption (decoded input empty or not a multiple of 16 bytes, bad
    PKCS#7 padding whatever unPad16 reports about it, a NUL byte or a "/"
    in the name, the names "." and ".."), and it returns no other error: the
    result carries neither the class nor a position. *)
Theorem decryptName_generic_error (n : NameTransform) (cipherName : string)
    (iv bin : list byte) :
  base64.DecodeString (B64 n) cipherName = Ok bin ->
  (corruptName (emeCipher n) iv bin ->
   decryptName n cipherName iv = Error (syscall_Errno EBADMSG)) /\
  (forall err, decryptName n cipherName iv = Error err ->
               err = syscall_Errno EBADMSG /\ corruptName (emeCipher n) iv bin).
Proof.
  intros Hdec. unfold decryptName, corruptName. rewrite Hdec.
  destruct (length bin =? 0) eqn:Hz.
  { apply Nat.eqb_eq, nil_length_inv in Hz. split; [done|].
    intros err [= <-]. auto. }
  apply Nat.eqb_neq in Hz.
  destruct (length bin mod aes_BlockSize =? 0) eqn:Hm; cbn [negb].
  2:{ apply Nat.eqb_neq in Hm. split; [done|]. intros err [= <-]. auto. }
  apply Nat.eqb_eq in Hm.
  destruct (unPad16 (eme_Decrypt (emeCipher n) iv bin)) as [name|detail].
  2:{ split; [done|]. intros err [= <-]. auto. }
  destruct (bytes_Contains1 name NUL) eqn:Hnul; cbn [orb].
  { apply bytes_Contains1_spec in Hnul. split; [done|].
    intros err [= <-]. auto. }
  destruct (bytes_Contains1 name slash) eqn:Hsl.
  { apply bytes_Contains1_spec in Hsl. split; [done|].
    intros err [= <-]. auto 6. }
  unfold bytes_Equal.
  destruct (decide (name = [dot])) as [->|Hd1].
  { split; [done|]. intros err [= <-]. auto 7. }
  destruct (decide (name = [dot; dot])) as [->|Hd2].
  { split; [done|]. intros err [= <-]. auto 7. }
  rewrite !bool_decide_eq_false_2 by done. cbn [orb].
  split; [|discriminate].
  intros [->|[?|[Hc|[Hc|[?|?]]]]]; try done.
  - by apply bytes_Contains1_true in Hc; rewrite Hc in Hnul.
  - by apply bytes_Contains1_true in Hc; rewrite Hc in Hsl.
Qed.

(** The inner loop, entered at [charpos]: the first prefix that decrypts,
    going down, or none down to [nameMin]. *)
Lemma longestPrefix_spec (n : NameTransform) (cipherName : string)
    (iv : list byte) (nameMin charpos : nat) :
  match longestPrefix n cipherName iv nameMin charpos with
  | Some name =>
      exists p res,
        nameMin <= p <= charpos /\
        decryptName n (str_take p cipherName) iv = Ok res /\
        (forall c, p < c <= charpos ->
                   is_Error (decryptName n (str_take c cipherName) iv)) /\
        name = res +:+ str_drop p cipherName +:+ BAD_NAME_SUFFIX
  | None =>
      forall c, nameMin <= c <= charpos ->
                is_Error (decryptName n (str_take c cipherName) iv)
  end.
Proof.
  induction charpos as [|charpos IH]; cbn [longestPrefix].
  - destruct (0 <? nameMin) eqn:Hlt.
    { apply Nat.ltb_lt in Hlt. intros c Hc. lia. }
    apply Nat.ltb_ge in Hlt.
    destruct (decryptName n (str_take 0 cipherName) iv) as [res|e] eqn:Hd.
    + exists 0, res. split_and!; [lia|lia|done| |done]. intros c Hc. lia.
    + intros c Hc. assert (c = 0) as -> by lia. by rewrite Hd.
  - destruct (S charpos <? nameMin) eqn:Hlt.
    { apply Nat.ltb_lt in Hlt. intros c Hc. lia. }
    apply Nat.ltb_ge in Hlt.
    destruct (decryptName n (str_take (S charpos) cipherName) iv)
      as [res|e] eqn:Hd.
    + exists (S charpos), res. split_and!; [lia|lia|done| |done].
      intros c Hc. lia.
    + destruct (longestPrefix n cipherName iv nameMin charpos) as [name|].
      * destruct IH as (p & res & Hp & Hres & Hlonger & ->).
        exists p, res. split_and!; [lia|lia|done| |done].
        intros c Hc. destruct (decide (c = S charpos)) as [->|].
        -- by rewrite Hd.
        -- apply Hlonger. lia.
      * intros c Hc. destruct (decide (c = S charpos)) as [->|].
        -- by rewrite Hd.
        -- apply IH. lia.
Qed.

Lemma rangePatterns_match (n : NameTransform) (patterns : list string)
    (cipherName : string) (iv : list byte) :
  (exists pattern, pattern ∈ patterns /\
                   filepath_Match pattern cipherName = Ok true) ->
  rangePatterns filepath_Match n patterns cipherName iv
  = Some (badname n cipherName iv).
Proof.
  intros (pattern & Hin & Hmatch).
  induction patterns as [|p patterns IH]; [by apply not_elem_of_nil in Hin|].
  cbn [rangePatterns]. apply elem_of_cons in Hin as [<-|Hin].
  - by rewrite Hmatch.
  - destruct (filepath_Match p cipherName) as [[|]|]; auto.
Qed.

Lemma rangePatterns_no_match (n : NameTransform) (patterns : list string)
    (cipherName : string) (iv : list byte) :
  (forall pattern, pattern ∈ patterns ->
                   filepath_Match pattern cipherName <> Ok true) ->
  rangePatterns filepath_Match n patterns cipherName iv = None.
Proof.
  induction patterns as [|p patterns IH]; intros Hno; [done|].
  cbn [rangePatterns].
  pose proof (Hno p ltac:(apply elem_of_cons; auto)) as Hp.
  destruct (filepath_Match p cipherName) as [[|]|]; try done;
    apply IH; intros q Hq; apply Hno, elem_of_cons; auto.
Qed.

(** C6. Badname recovery: for every ciphertext name whose decryption fails
    and which matches some pattern of BadnamePatterns, DecryptName tries the
    prefixes of the name from the longest proper one down to
    B64.EncodedLen(16) characters; the first that decrypts gives
    [<decrypted><cut-off rest> GOCRYPTFS_BAD_NAME], and when none does the
    result is [<cipherName> GOCRYPTFS_BAD_NAME]; no error either way. *)
Theorem DecryptName_badname (n : NameTransform) (cipherName : string)
    (iv : list byte) (err : error) :
  decryptName n cipherName iv = Error err ->
  (exists pattern, pattern ∈ BadnamePatterns n /\
                   filepath_Match pattern cipherName = Ok true) ->
  badnameSpec n cipherName iv (DecryptName filepath_Match n cipherName iv).
Proof.
  intros Hfail Hmatch. unfold DecryptName, badnameSpec.
  rewrite Hfail, (rangePatterns_match _ _ _ _ Hmatch). unfold badname.
  set (nameMin := base64.EncodedLen (B64 n) aes_BlockSize).
  destruct (String.length cipherName) as [|last] eqn:Hlen.
  { right. split; [|done]. intros c Hc. lia. }
  pose proof (longestPrefix_spec n cipherName iv nameMin last) as Hspec.
  destruct (longestPrefix n cipherName iv nameMin last) as [name|].
  - destruct Hspec as (p & res & Hp & Hres & Hlonger & ->).
    left. exists p, res. split_and!; [lia|lia|done| |done].
    intros c Hc. apply Hlonger. lia.
  - right. split; [|done]. intros c Hc. apply Hspec. lia.
Qed.

(** X7. Without a matching badname pattern (in particular with none
    configured, as New leaves it), DecryptName is decryptName: a name that
    does not decrypt stays an error. *)
Theorem DecryptName_no_pattern (n : NameTransform) (cipherName : string)
    (iv : list byte) :
  (forall pattern, pattern ∈ BadnamePatterns n ->
                   filepath_Match pattern cipherName <> Ok true) ->
  DecryptName filepath_Match n cipherName iv = decryptName n cipherName iv.
Proof.
  intros Hno. unfold DecryptName.
  destruct (decryptName n cipherName iv); [done|].
  by rewrite rangePatterns_no_match.
Qed.

(** X8. The two base64 helpers of a transformer are inverse to each other,
    with raw64 and without. *)
Theorem B64DecodeString_B64EncodeToString (e : EMECipher)
    (longNames raw64 : bool) (src : list byte) :
  B64DecodeString (New e longNames raw64)
    (B64EncodeToString (New e longNames raw64) src) = Ok src.
Proof. apply DecodeString_EncodeToString. Qed.

End NameFacts.

Lemma validName_file_txt : nametransform.validName "file.txt".
Proof.
  unfold nametransform.validName.
  split_and!; try discriminate;
    intros H%list_elem_of_In; cbn in H; intuition discriminate.
Qed.

Lemma DecryptName_EncryptName_witness :
  nametransform.DecryptName fixtures.filepath_Match fixtures.nt
    (nametransform.EncryptName fixtures.nt "file.txt" fixtures.iv1)
    fixtures.iv1 = Ok "file.txt"
  /\ nametransform.decryptName fixtures.nt
    (nametransform.EncryptName fixtures.nt "file.txt" fixtures.iv1)
    fixtures.iv1 = Ok "file.txt".
Proof.
  apply (DecryptName_EncryptName fixtures.filepath_Match fixtures.nt
           "file.txt" fixtures.iv1).
  - exact validName_file_txt.
  - split; vm_compute; reflexivity.
Defined.

Lemma DecryptName_no_pattern_witness :
  nametransform.DecryptName fixtures.filepath_Match fixtures.nt
    "not-a-name" fixtures.iv1
  = Error (syscall_Errno EBADMSG).
Proof.
  rewrite (DecryptName_no_pattern fixtures.filepath_Match fixtures.nt
             "not-a-name" fixtures.iv1).
  - vm_compute. reflexivity.
  - intros pattern Hin. cbn in Hin.
    apply elem_of_cons in Hin as [->|Hin]; [vm_compute; discriminate|].
    by apply not_elem_of_nil in Hin.
Defined.

Lemma decryptName_generic_error_witness :
  nametransform.decryptName fixtures.nt
    (nametransform.EncryptName fixtures.nt "a/b" fixtures.iv1) fixtures.iv1
  = Error (syscall_Errno EBADMSG).
Proof.
  refine (proj1 (decryptName_generic_error fixtures.nt
                   (nametransform.EncryptName fixtures.nt "a/b" fixtures.iv1)
                   fixtures.iv1
                   (nametransform.eme_Encrypt fixtures.xorEME fixtures.iv1
                      (nametransform.pad16 (bytes_of_string "a/b")))
                   _) _).
  - vm_compute. reflexivity.
  - right. right.
    assert (nametransform.unPad16
              (nametransform.eme_Decrypt
                 (nametransform.emeCipher fixtures.nt) fixtures.iv1
                 (nametransform.eme_Encrypt fixtures.xorEME fixtures.iv1
                    (nametransform.pad16 (bytes_of_string "a/b"))))
            = Ok (bytes_of_string "a/b")) as -> by (vm_compute; reflexivity).
    right. left. apply list_elem_of_In. cbn. auto.
Defined.

Lemma DecryptName_badname_witness :
  nametransform.badnameSpec fixtures.nt
    (nametransform.EncryptName fixtures.nt "file.txt" fixtures.iv1
     +:+ ".conflict") fixtures.iv1
    (nametransform.DecryptName fixtures.filepath_Match fixtures.nt
       (nametransform.EncryptName fixtures.nt "file.txt" fixtures.iv1
        +:+ ".conflict") fixtures.iv1).
Proof.
  apply (DecryptName_badname fixtures.filepath_Match fixtures.nt _
           fixtures.iv1 (base64_CorruptInputError 22)).
  - vm_compute. reflexivity.
  - exists "*.conflict". split; [apply list_elem_of_here|].
    vm_compute. reflexivity.
Defined.



(** ** configfile: key wrapping *)
Section EncryptKeyFacts.
Import configfile.
Context {X : Externals}.

Lemma read_entropy_length (n : nat) (w : World) :
  exists l w', read_entropy n w = (Ok l, w') /\ length l = n /\
               files w' = files w /\ io_fault w' = io_fault w.
Proof.
  eexists _, _. split; [reflexivity|].
  by rewrite length_fmap, length_seq.
Qed.

(** What EncryptKey leaves in the ConfFile: fresh scrypt parameters, and
    the key encrypted for block 0 with an empty file ID, under the key
    encrypter chosen by the HKDF flag and a fresh nonce of its IV length. *)
Lemma EncryptKey_unfold (cf : ConfFile) (key password : list byte) (logN : Z)
    (w : World) :
  exists salt nonce w',
    let s := {| Salt := salt; ScryptN := 2 ^ logN; ScryptR := 8;
                ScryptP := 1; KeyLen := cryptocore_KeyLen |} in
    let useHKDF := IsFeatureFlagSet cf FlagHKDF in
    let ce := getKeyEncrypter (DeriveKey s password) useHKDF in
    length salt = cryptocore_KeyLen /\
    length nonce = IVBitLen (cryptoCore ce) / 8 /\
    salt = entropy w <$> seq 0 cryptocore_KeyLen /\
    EncryptKey cf key password logN w
    = (Ok (set_EncryptedKey (EncryptBlockNonce ce key 0 [] nonce)
             (set_ScryptObject s cf)), w') /\
    files w' = files w /\ io_fault w' = io_fault w.
Proof.
  eexists _, _, _. cbn zeta. split_and!.
  4: { cbv [EncryptKey NewScryptKDF EncryptBlock cryptocore_RandBytes
            read_entropy bind ret].
       reflexivity. }
  3: reflexivity.
  - by rewrite length_fmap, length_seq.
  - by rewrite length_fmap, length_seq.
  - reflexivity.
  - reflexivity.
Qed.

End EncryptKeyFacts.

Section KeyWrapFacts.
Import configfile.
Context {X : Externals}.

(** The associated data of block 0 with an empty file ID: the eight bytes
    of the block number and nothing else. *)
Lemma concatAD_key_wrap : concatAD 0 [] = replicate 8 x00.
Proof. reflexivity. Qed.

(** contentenc's block layer opens what it sealed, when the AEAD does. *)
Lemma contentencExternals_laws (A : AEAD) :
  AEADLaws A -> ExternalsLaws X -> ExternalsLaws (contentencExternals A X).
Proof.
  intros HA HX. split.
  - intros pw salt N r p keyLen. apply (scrypt_Key_length (X := X)).
  - intros ce plaintext blockNo fileID nonce Hnonce.
    cbn [DecryptBlock EncryptBlockNonce contentencExternals].
    unfold contentenc_DecryptBlock, contentenc_EncryptBlockNonce.
    rewrite <- Hnonce, take_app_length, drop_app_length.
    by rewrite AEADCipher_Open_Seal.
Qed.

(** C4 (as amended). The AEAD that wraps and unwraps the master key, for
    every config file: its nonce has 96 bits when the HKDF flag is not set
    and 128 bits when it is; the block index is 0 and the file ID empty, so
    the associated data the AEAD seals and opens under is the 8-byte
    big-endian block number 0, not the empty string. EncryptKey stores the
    nonce it draws followed by what the AEAD seals; DecryptMasterKey opens
    what follows the first 96 or 128 bits of EncryptedKey under those bits
    as the nonce. *)
Theorem key_wrap_nonce_and_aad (A : AEAD) (cf : ConfFile)
    (key password : list byte) (logN : Z) (w : World) :
  let XA := contentencExternals A X in
  let useHKDF := IsFeatureFlagSet cf FlagHKDF in
  let ivBits := if useHKDF then 128 else 96 in
  let cc := fun s : ScryptKDF =>
    cryptocore_New (DeriveKey s password) BackendGoGCM ivBits useHKDF false in
  let aad := replicate 8 x00 in
  (exists salt nonce w',
      let s := {| Salt := salt; ScryptN := 2 ^ logN; ScryptR := 8;
                  ScryptP := 1; KeyLen := cryptocore_KeyLen |} in
      8 * length nonce = ivBits /\
      EncryptKey (X := XA) cf key password logN w
      = (Ok (set_EncryptedKey
               (nonce ++ AEADCipher_Seal (cc s) nonce key aad)
               (set_ScryptObject s cf)), w')) /\
  DecryptMasterKey (X := XA) cf password
  = match AEADCipher_Open (cc (ScryptObject cf))
            (take (ivBits / 8) (EncryptedKey cf))
            (drop (ivBits / 8) (EncryptedKey cf)) aad with
    | Ok masterkey => Ok masterkey
    | Error _ => Error errPasswordIncorrect
    end.
Proof.
  cbn zeta. split.
  - destruct (EncryptKey_unfold (X := contentencExternals A X)
                cf key password logN w)
      as (salt & nonce & w' & _ & Hnonce & _ & Heq & _).
    exists salt, nonce, w'. split.
    + rewrite Hnonce. by destruct (IsFeatureFlagSet cf FlagHKDF).
    + rewrite Heq. by destruct (IsFeatureFlagSet cf FlagHKDF).
  - unfold DecryptMasterKey.
    cbn [DecryptBlock contentencExternals]. unfold contentenc_DecryptBlock.
    rewrite concatAD_key_wrap.
    destruct (IsFeatureFlagSet cf FlagHKDF);
      cbn [getKeyEncrypter contentenc_New cryptoCore ce_forceDecode
           cryptocore_New IVBitLen contentenc_DefaultIVBits];
      by destruct (AEADCipher_Open _ _ _ _).
Qed.

Context {XL : ExternalsLaws X}.

Lemma DecryptMasterKey_same_kek (cf : ConfFile) (p p' : list byte) :
  DeriveKey (ScryptObject cf) p' = DeriveKey (ScryptObject cf) p ->
  DecryptMasterKey cf p' = DecryptMasterKey cf p.
Proof. intros H. unfold DecryptMasterKey. by rewrite H. Qed.

(** The wrapped key unwraps under the password it was wrapped with. *)
Lemma DecryptMasterKey_wrapped (cf : ConfFile) (s : ScryptKDF)
    (K P nonce : list byte) :
  let ce := getKeyEncrypter (DeriveKey s P) (IsFeatureFlagSet cf FlagHKDF) in
  length nonce = IVBitLen (cryptoCore ce) / 8 ->
  DecryptMasterKey
    (set_EncryptedKey (EncryptBlockNonce ce K 0 [] nonce)
       (set_ScryptObject s cf)) P = Ok K.
Proof.
  cbn zeta. intros Hnonce. unfold DecryptMasterKey.
  cbn [ScryptObject EncryptedKey set_EncryptedKey set_ScryptObject].
  change (IsFeatureFlagSet (set_EncryptedKey _ _) FlagHKDF)
    with (IsFeatureFlagSet cf FlagHKDF).
  by rewrite DecryptBlock_EncryptBlockNonce.
Qed.

(** C1 (as amended). Config password: for every password P and master key
    K, EncryptKey(K, P, logN) followed by DecryptMasterKey(P) on the same
    ConfFile returns K. For every password P', DecryptMasterKey(P') returns
    the PasswordIncorrect error (exit code 12) and no key exactly when the
    block cipher rejects EncryptedKey under the key scrypt derives from P',
    and it returns no other error; a password whose derived key equals that
    of P unlocks K as well. *)
Theorem EncryptKey_DecryptMasterKey (cf : ConfFile) (K P : list byte)
    (logN : Z) (w : World) :
  exists cf' w',
    EncryptKey cf K P logN w = (Ok cf', w') /\
    DecryptMasterKey cf' P = Ok K /\
    (forall P', kekRejected cf' P' ->
                DecryptMasterKey cf' P' = Error errPasswordIncorrect) /\
    (forall P' err, DecryptMasterKey cf' P' = Error err ->
                    err = errPasswordIncorrect /\
                    exitcodes.code_of err = Some 12%Z /\
                    kekRejected cf' P') /\
    (forall P', DeriveKey (ScryptObject cf') P' = DeriveKey (ScryptObject cf') P ->
                DecryptMasterKey cf' P' = Ok K).
Proof.
  destruct (EncryptKey_unfold cf K P logN w)
    as (salt & nonce & w' & _ & Hnonce & _ & Heq & _).
  eexists _, w'. split; [exact Heq|].
  pose proof (DecryptMasterKey_wrapped cf _ K P nonce Hnonce) as Hround.
  split_and!.
  - exact Hround.
  - intros P' Hrej. unfold kekRejected in Hrej. unfold DecryptMasterKey.
    by destruct (DecryptBlock _ _ _ _).
  - intros P' err. unfold DecryptMasterKey, kekRejected.
    destruct (DecryptBlock _ _ _ _); [discriminate|].
    by intros [= <-].
  - intros P' Hsame. by rewrite (DecryptMasterKey_same_kek _ P P').
Qed.

(** scrypt maps the 256^33 passwords of 33 bytes to the 256^32 keys of 32
    bytes, so two of them share a key. *)
Lemma DeriveKey_collision (s : ScryptKDF) :
  (forall pw, length (DeriveKey s pw) = cryptocore_KeyLen) ->
  exists P P' : list byte, P' <> P /\ DeriveKey s P' = DeriveKey s P.
Proof.
  intros Hlen.
  pose (f := fun p : {l : list byte | length l = 33} =>
               DeriveKey s (`p) ↾ Hlen (`p) : {l : list byte | length l = 32}).
  destruct (finite_pigeonhole f) as (p1 & p2 & Hne & Heq).
  { rewrite !list_card. apply Nat.pow_lt_mono_r; [|lia].
    assert (card byte = 256) as -> by (vm_compute; reflexivity). lia. }
  exists (`p1), (`p2). split.
  - intros H. apply Hne. symmetry. by apply (sig_eq_pi _).
  - apply (f_equal proj1_sig) in Heq. cbn in Heq. done.
Qed.

End KeyWrapFacts.

Lemma fixtures_X_laws : configfile.ExternalsLaws fixtures.X.
Proof.
  split.
  - intros pw salt N r p keyLen. cbn. unfold fixtures.scrypt_Key.
    rewrite length_take, !length_app, length_replicate. lia.
  - intros ce plaintext blockNo fileID nonce Hnonce. cbn.
    unfold fixtures.DecryptBlock, fixtures.EncryptBlockNonce.
    rewrite <- Hnonce, drop_app_length, take_app_length, drop_app_length.
    by rewrite bool_decide_eq_true_2.
Qed.

(** The stand-in for encoding/json reads back what it wrote. *)
Section CodecFacts.
Import fixtures.

Lemma dec_enc_bytes (l rest : list byte) :
  dec_bytes (enc_bytes l ++ rest) = Some (l, rest).
Proof.
  unfold enc_bytes. induction l as [|b l IH]; [reflexivity|].
  cbn [fmap list_fmap concat app dec_bytes].
  change (Byte.eqb x01 x00) with false. cbv beta iota.
  cbn [fmap list_fmap] in IH. rewrite IH. reflexivity.
Qed.

Lemma digits_pos_digits (p : positive) : digits_pos (pos_digits p) = p.
Proof. induction p as [p IH|p IH|]; cbn; by rewrite ?IH. Qed.

Lemma dec_enc_Z (z : Z) (rest : list byte) :
  dec_Z (enc_Z z ++ rest) = Some (z, rest).
Proof.
  unfold dec_Z, enc_Z. rewrite dec_enc_bytes. cbn [mbind option_bind].
  destruct z as [|p|p]; [reflexivity| |];
    cbv beta iota zeta; by rewrite digits_pos_digits.
Qed.

Lemma dec_enc_string (s : string) (rest : list byte) :
  dec_string (enc_string s ++ rest) = Some (s, rest).
Proof.
  unfold dec_string, enc_string. rewrite dec_enc_bytes.
  cbn [mbind option_bind]. cbv beta iota zeta.
  by rewrite String.string_of_list_byte_of_string.
Qed.

Lemma dec_enc_strings (l : list string) (rest : list byte) :
  dec_strings (length l) (concat (enc_string <$> l) ++ rest) = Some (l, rest).
Proof.
  induction l as [|s l IH]; [reflexivity|].
  cbn [length fmap list_fmap concat dec_strings].
  rewrite <- app_assoc, dec_enc_string. cbn [mbind option_bind].
  cbv beta iota zeta. cbn [fmap list_fmap] in IH. by rewrite IH.
Qed.

Lemma dec_enc_ConfFile (cf : configfile.ConfFile) (filename : string)
    (rest : list byte) :
  dec_ConfFile filename (enc_ConfFile cf ++ rest)
  = Some (configfile.set_filename filename cf).
Proof.
  unfold dec_ConfFile, enc_ConfFile. rewrite <- !app_assoc.
  rewrite dec_enc_string. cbn [mbind option_bind]. cbv beta iota zeta.
  do 2 (rewrite dec_enc_bytes; cbn [mbind option_bind]; cbv beta iota zeta).
  do 6 (rewrite dec_enc_Z; cbn [mbind option_bind]; cbv beta iota zeta).
  rewrite !Nat2Z.id, dec_enc_strings. cbn [mbind option_bind].
  cbv beta iota zeta.
  rewrite dec_enc_bytes. cbn [mbind option_bind]. cbv beta iota zeta.
  rewrite <- (app_nil_r (enc_bytes _ ++ rest)), <- app_assoc, dec_enc_bytes.
  cbn [mbind option_bind]. cbv beta iota zeta.
  by destruct cf as [? ? [] ? ? [] ?].
Qed.

End CodecFacts.

Lemma fixtures_X_json_laws : configfile.JSONLaws fixtures.X.
Proof.
  split. intros cf js filename [= <-]. cbn.
  unfold fixtures.json_Unmarshal. cbn [configfile.filename
    configfile.set_filename]. by rewrite dec_enc_ConfFile.
Qed.

(** The claim of C4 does not hold as stated: the associated data of the
    key wrap is not empty. Over an AEAD that checks its associated data,
    what EncryptKey stored for a key opens under the eight zero bytes of
    block number 0, and DecryptMasterKey returns the key, while opening it
    with empty associated data fails. *)
Lemma key_wrap_aad_not_empty :
  exists cf' w',
    configfile.EncryptKey (X := fixtures.XA) configfile.zero_ConfFile
      fixtures.testKey fixtures.testPw 10 fixtures.w0 = (Ok cf', w') /\
    let cc :=
      configfile.cryptocore_New
        (configfile.DeriveKey (X := fixtures.XA)
           (configfile.ScryptObject cf') fixtures.testPw)
        configfile.BackendGoGCM 96 false false in
    let nonce := take 12 (configfile.EncryptedKey cf') in
    let sealed := drop 12 (configfile.EncryptedKey cf') in
    configfile.concatAD 0 [] <> [] /\
    sealed = configfile.AEADCipher_Seal cc nonce fixtures.testKey
               (replicate 8 x00) /\
    sealed <> configfile.AEADCipher_Seal cc nonce fixtures.testKey [] /\
    configfile.AEADCipher_Open cc nonce sealed (replicate 8 x00)
    = Ok fixtures.testKey /\
    is_Error (configfile.AEADCipher_Open cc nonce sealed []) /\
    configfile.DecryptMasterKey (X := fixtures.XA) cf' fixtures.testPw
    = Ok fixtures.testKey.
Proof.
  eexists _, _. split; [vm_compute; reflexivity|].
  cbv zeta. split_and!.
  - discriminate.
  - vm_compute. reflexivity.
  - vm_compute. discriminate.
  - vm_compute. reflexivity.
  - vm_compute. exact I.
  - vm_compute. reflexivity.
Qed.

(** The claim of C1 does not hold as stated: whatever scrypt and the block
    cipher are, as long as scrypt returns as many bytes as it is asked for
    (32 here), the round trip and the rejection of every other password
    cannot both hold. Two passwords of 33 bytes share a derived key, and the
    second unwraps what was wrapped with the first. *)
Lemma wrong_password_not_always_rejected :
  ~ (exists X : configfile.Externals,
        (forall pw salt N r p keyLen,
            length (configfile.scrypt_Key pw salt N r p keyLen) = keyLen) /\
        forall (cf cf' : configfile.ConfFile) (K P : list byte) (logN : Z)
               (w w' : World),
          length K = 32 ->
          configfile.EncryptKey cf K P logN w = (Ok cf', w') ->
          configfile.DecryptMasterKey cf' P = Ok K /\
          forall P', P' <> P ->
                     configfile.DecryptMasterKey cf' P'
                     = Error configfile.errPasswordIncorrect).
Proof.
  intros (X & Hlen & Hclaim).
  pose (K := replicate 32 x00).
  pose (s := {| configfile.Salt :=
                  entropy fixtures.w0 <$> seq 0 configfile.cryptocore_KeyLen;
                configfile.ScryptN := 2 ^ 10; configfile.ScryptR := 8;
                configfile.ScryptP := 1;
                configfile.KeyLen := configfile.cryptocore_KeyLen |}).
  destruct (DeriveKey_collision s) as (P & P' & Hne & Hsame).
  { intros pw. apply Hlen. }
  destruct (EncryptKey_unfold configfile.zero_ConfFile K P 10 fixtures.w0)
    as (salt & nonce & w' & _ & _ & -> & Heq & _).
  destruct (Hclaim _ _ K P 10%Z _ _ eq_refl Heq) as [Hround Hwrong].
  specialize (Hwrong P' Hne).
  rewrite (DecryptMasterKey_same_kek _ P P') in Hwrong by exact Hsame.
  rewrite Hround in Hwrong. discriminate.
Qed.

Lemma EncryptKey_DecryptMasterKey_witness :
  exists cf' w',
    configfile.EncryptKey (X := fixtures.X) configfile.zero_ConfFile
      fixtures.testKey fixtures.testPw 10 fixtures.w0 = (Ok cf', w') /\
    configfile.DecryptMasterKey (X := fixtures.X) cf' fixtures.testPw
    = Ok fixtures.testKey /\
    configfile.DecryptMasterKey (X := fixtures.X) cf' (bytes_of_string "tset")
    = Error configfile.errPasswordIncorrect.
Proof.
  destruct (EncryptKey_DecryptMasterKey (XL := fixtures_X_laws)
              configfile.zero_ConfFile fixtures.testKey fixtures.testPw 10
              fixtures.w0) as (cf' & w' & HE & Hround & Hrej & _).
  exists cf', w'. split_and!; [exact HE|exact Hround|].
  apply Hrej. vm_compute in HE. injection HE as <- <-.
  vm_compute. exact I.
Defined.

(** ** configfile: Create, Load and WriteFile *)
Section ConfigFileFacts.
Import configfile.
Context {X : Externals}.

Lemma ioutil_ReadFile_ok (filename : string) (w : World) (js : list byte) :
  io_fault w SysRead = None -> files w !! filename = Some js ->
  ioutil_ReadFile filename w = (Ok js, w).
Proof.
  intros Hfault Hfile. unfold ioutil_ReadFile, bind, syscall.
  by rewrite Hfault, Hfile.
Qed.

(** The second loop of Load raises [deprecatedFs] exactly when a required
    flag is missing. *)
Lemma checkRequired_spec (cf : ConfFile) (requiredFlags : list flagIota) :
  checkRequired cf requiredFlags = true <->
  exists i, i ∈ requiredFlags /\ IsFeatureFlagSet cf i = false.
Proof.
  unfold checkRequired.
  assert (forall acc,
    fold_left (fun deprecatedFs i =>
                 if negb (IsFeatureFlagSet cf i) then true else deprecatedFs)
      requiredFlags acc = true <->
    acc = true \/ exists i, i ∈ requiredFlags /\ IsFeatureFlagSet cf i = false)
    as Hgen.
  { induction requiredFlags as [|i l IH]; intros acc; cbn [fold_left].
    - split; [auto|]. intros [?|(i & Hin & _)]; [done|].
      by apply not_elem_of_nil in Hin.
    - rewrite IH. split.
      + intros [Hacc|(j & Hin & Hj)].
        * destruct (IsFeatureFlagSet cf i) eqn:Hi; cbn in Hacc; [by left|].
          right. exists i. split; [apply list_elem_of_here|done].
        * right. exists j. split; [by apply list_elem_of_further|done].
      + intros [->|(j & Hin & Hj)].
        * left. by destruct (IsFeatureFlagSet cf i).
        * apply elem_of_cons in Hin as [->|Hin].
          -- left. by rewrite Hj.
          -- right. by exists j. }
  rewrite Hgen. split; [intros [?|?]; [done|auto]|auto].
Qed.

Lemma find_unknown_spec (cf : ConfFile) :
  match List.find (fun flag => negb (isFeatureFlagKnown cf flag))
          (FeatureFlags cf) with
  | Some flag => flag ∈ FeatureFlags cf /\ isFeatureFlagKnown cf flag = false
  | None => ~ hasUnknownFlag cf
  end.
Proof.
  destruct (List.find _ _) as [flag|] eqn:Hfind.
  - apply List.find_some in Hfind as [Hin Hunk].
    split; [by apply list_elem_of_In|]. by apply negb_true_iff.
  - intros (flag & Hin & Hunk).
    apply list_elem_of_In in Hin.
    pose proof (List.find_none _ _ Hfind flag Hin) as H.
    apply negb_false_iff in H. congruence.
Qed.

(** What Load does once the file is read and parsed. *)
Lemma Load_parsed (filename : string) (w : World) (js : list byte)
    (cf : ConfFile) :
  ioutil_ReadFile filename w = (Ok js, w) -> js <> [] ->
  json_Unmarshal js (set_filename filename zero_ConfFile) = Ok cf ->
  Load filename w =
  if negb (Version cf =? contentenc_CurrentVersion)%Z then
    (Error (fmt_Errorf "Unsupported on-disk format %d" [ArgInt (Version cf)]), w)
  else
    match List.find (fun flag => negb (isFeatureFlagKnown cf flag))
            (FeatureFlags cf) with
    | Some flag =>
        (Error (fmt_Errorf "Unsupported feature flag %q" [ArgStr flag]), w)
    | None =>
        if checkRequired cf (requiredFlagsOf cf) then (Error errDeprecatedFS, w)
        else (Ok cf, w)
    end.
Proof.
  intros Hread Hne Hparse. unfold Load, bind. rewrite Hread.
  destruct js as [|b js]; [done|]. cbn [length Nat.eqb].
  unfold lift. rewrite Hparse.
  destruct (negb _); [done|].
  destruct (List.find _ _); [done|].
  unfold requiredFlagsOf. by destruct (checkRequired _ _).
Qed.

(** A config that sets PlaintextNames is held to the plaintext-names
    list only: with GCMIV128 and HKDF it loads, EMENames or not, whatever
    JSON decoder produced it. *)
Lemma Load_plaintextnames (filename : string) (w : World) (js : list byte)
    (cf : ConfFile) :
  ioutil_ReadFile filename w = (Ok js, w) -> js <> [] ->
  json_Unmarshal js (set_filename filename zero_ConfFile) = Ok cf ->
  Version cf = contentenc_CurrentVersion ->
  FeatureFlags cf = ["GCMIV128"; "HKDF"; "PlaintextNames"; "DirIV"] ->
  Load filename w = (Ok cf, w).
Proof.
  intros Hread Hne Hparse Hv Hflags.
  rewrite (Load_parsed filename w js cf Hread Hne Hparse).
  rewrite Hv. unfold requiredFlagsOf, checkRequired, IsFeatureFlagSet.
  by rewrite Hflags.
Qed.

(** C3 (as amended). Load rejects an empty config file; a parsed config
    whose Version differs from the current on-disk format version; a config
    of the current version that carries a feature flag outside the known
    set, with a plain error that names such a flag; and a config of the
    current version with known flags only that lacks a flag required of it,
    with the DeprecatedFS error carrying exit code 16. The flags required
    depend on PlaintextNames: a config that does not set PlaintextNames and
    lacks EMENames (a filesystem from before EMENames, with or without
    DirIV) fails to load with exit code 16. *)
Theorem Load_rejects (filename : string) (w : World) (js : list byte) :
  ioutil_ReadFile filename w = (Ok js, w) ->
  (js = [] ->
   Load filename w = (Error (fmt_Errorf "Config file is empty" []), w)) /\
  (forall cf,
      js <> [] ->
      json_Unmarshal js (set_filename filename zero_ConfFile) = Ok cf ->
      (Version cf <> contentenc_CurrentVersion ->
       Load filename w =
       (Error (fmt_Errorf "Unsupported on-disk format %d"
                 [ArgInt (Version cf)]), w)) /\
      (Version cf = contentenc_CurrentVersion -> hasUnknownFlag cf ->
       exists flag,
         flag ∈ FeatureFlags cf /\ isFeatureFlagKnown cf flag = false /\
         Load filename w =
         (Error (fmt_Errorf "Unsupported feature flag %q" [ArgStr flag]), w)) /\
      (Version cf = contentenc_CurrentVersion -> ~ hasUnknownFlag cf ->
       missesRequiredFlag cf ->
       Load filename w = (Error errDeprecatedFS, w) /\
       exitcodes.code_of errDeprecatedFS = Some 16%Z) /\
      (Version cf = contentenc_CurrentVersion -> ~ hasUnknownFlag cf ->
       IsFeatureFlagSet cf FlagPlaintextNames = false ->
       IsFeatureFlagSet cf FlagEMENames = false ->
       Load filename w = (Error errDeprecatedFS, w))).
Proof.
  intros Hread. split.
  { intros ->. unfold Load, bind. by rewrite Hread. }
  intros cf Hne Hparse.
  pose proof (Load_parsed filename w js cf Hread Hne Hparse) as HLoad.
  pose proof (find_unknown_spec cf) as Hfind.
  assert (Version cf = contentenc_CurrentVersion -> ~ hasUnknownFlag cf ->
          missesRequiredFlag cf ->
          Load filename w = (Error errDeprecatedFS, w)) as Hdeprecated.
  { intros Hv Hknown Hmiss. rewrite HLoad.
    rewrite (proj2 (Z.eqb_eq _ _) Hv). cbn [negb].
    destruct (List.find _ _) as [flag|].
    { exfalso. apply Hknown. by exists flag. }
    by rewrite (proj2 (checkRequired_spec cf _) Hmiss). }
  split_and!.
  - intros Hv. rewrite HLoad.
    by rewrite (proj2 (Z.eqb_neq _ _) Hv).
  - intros Hv Hunk. rewrite HLoad.
    rewrite (proj2 (Z.eqb_eq _ _) Hv). cbn [negb].
    destruct (List.find _ _) as [flag|]; [|done].
    exists flag. by destruct Hfind.
  - intros Hv Hknown Hmiss. split; [by apply Hdeprecated|done].
  - intros Hv Hknown Hplain Heme. apply Hdeprecated; [done..|].
    exists FlagEMENames. split; [|done].
    unfold requiredFlagsOf. rewrite Hplain. unfold requiredFlagsNormal.
    set_solver.
Qed.

(** After Create's flag setting and key wrapping comes WriteFile. *)
Lemma WriteFile_tmp_exists (cf : ConfFile) (w : World) (stale : list byte) :
  files w !! (filename cf +:+ ".tmp") = Some stale ->
  exists err,
    WriteFile cf w = (Error err, w) /\
    (io_fault w SysOpen = None -> err = syscall_Errno EEXIST).
Proof.
  intros Hstale.
  assert (exists err,
    os_OpenFile_CREATE_EXCL (filename cf +:+ ".tmp") w = (Error err, w) /\
    (io_fault w SysOpen = None -> err = syscall_Errno EEXIST))
    as (err & Hopen & Herr).
  { cbv [os_OpenFile_CREATE_EXCL bind syscall].
    destruct (io_fault w SysOpen) as [e|].
    - eexists. split; [reflexivity|done].
    - rewrite Hstale. eexists. split; [reflexivity|done]. }
  exists err. split; [|exact Herr].
  unfold WriteFile. cbv zeta. unfold bind at 1. by rewrite Hopen.
Qed.

(** C9. WriteFile opens [<filename>.tmp] with O_EXCL: when a stale
    [<filename>.tmp] exists, WriteFile returns an error (EEXIST, unless
    opening fails for another reason first) and changes nothing: the
    temporary file is not overwritten and the config file stays as it
    was. *)
Theorem WriteFile_stale_tmp (cf : ConfFile) (w : World) (stale : list byte) :
  files w !! (filename cf +:+ ".tmp") = Some stale ->
  exists err w',
    WriteFile cf w = (Error err, w') /\
    (io_fault w SysOpen = None -> err = syscall_Errno EEXIST) /\
    w' = w /\
    files w' !! (filename cf +:+ ".tmp") = Some stale /\
    files w' !! filename cf = files w !! filename cf.
Proof.
  intros Hstale.
  destruct (WriteFile_tmp_exists cf w stale Hstale) as (err & HW & Herr).
  by exists err, w.
Qed.

Lemma WriteFile_success (cf : ConfFile) (w w' : World) :
  WriteFile cf w = (Ok tt, w') ->
  exists js,
    json_MarshalIndent cf = Ok js /\
    files w' !! filename cf = Some (js ++ [newline]) /\
    io_fault w' = io_fault w.
Proof.
  unfold WriteFile. cbv zeta.
  cbv [bind os_OpenFile_CREATE_EXCL lift fd_Write fd_Sync fd_Close os_Rename
       recover syscall syscall_Sync ret set_files].
  cbn [io_fault files].
  destruct (io_fault w SysOpen); cbv beta iota zeta; [discriminate|].
  destruct (files w !! (filename cf +:+ ".tmp")); cbv beta iota zeta;
    [discriminate|].
  destruct (json_MarshalIndent cf) as [js|]; cbv beta iota zeta;
    [|discriminate].
  cbn [io_fault files].
  destruct (io_fault w SysWrite); cbv beta iota zeta; [discriminate|].
  cbn [io_fault files].
  destruct (io_fault w SysFsync); cbv beta iota zeta; cbn [io_fault files].
  all: destruct (io_fault w SysClose); cbv beta iota zeta; [discriminate|];
    cbn [io_fault files].
  all: destruct (io_fault w SysRename); cbv beta iota zeta; [discriminate|];
    cbn [io_fault files].
  all: rewrite !lookup_insert_eq; cbn [default app].
  all: intros [= <-]; exists js; split; [done|]; cbn [files io_fault].
  all: by rewrite lookup_insert_eq.
Qed.

Lemma string_length_append (s t : string) :
  String.length (s +:+ t) = String.length s + String.length t.
Proof.
  induction s as [|c s IH]; [done|].
  change (String c s +:+ t) with (String c (s +:+ t)). cbn. by rewrite IH.
Qed.

Lemma tmp_name_fresh (name : string) : name +:+ ".tmp" <> name.
Proof.
  intros H. apply (f_equal String.length) in H.
  rewrite string_length_append in H. cbn in H. lia.
Qed.

(** X2. Atomic config rewrite: when WriteFile succeeds, the config file holds
    the new JSON and a line feed and the temporary file is gone; when it
    fails, at whatever step, the config file is as it was before. *)
Theorem WriteFile_atomic (cf : ConfFile) (w : World) :
  match WriteFile cf w with
  | (Ok _, w') =>
      exists js,
        json_MarshalIndent cf = Ok js /\
        files w' !! filename cf = Some (js ++ [newline]) /\
        files w' !! (filename cf +:+ ".tmp") = None
  | (Error _, w') => files w' !! filename cf = files w !! filename cf
  end.
Proof.
  pose proof (tmp_name_fresh (filename cf)) as Hfresh.
  unfold WriteFile. cbv zeta.
  cbv [bind os_OpenFile_CREATE_EXCL lift fd_Write fd_Sync fd_Close os_Rename
       recover syscall syscall_Sync ret set_files].
  cbn [io_fault files].
  destruct (io_fault w SysOpen); cbv beta iota zeta; [done|].
  destruct (files w !! (filename cf +:+ ".tmp")); cbv beta iota zeta; [done|].
  destruct (json_MarshalIndent cf) as [js|]; cbv beta iota zeta;
    cbn [io_fault files]; [|by rewrite lookup_insert_ne].
  destruct (io_fault w SysWrite); cbv beta iota zeta; cbn [io_fault files];
    [by rewrite lookup_insert_ne|].
  destruct (io_fault w SysFsync); cbv beta iota zeta; cbn [io_fault files].
  all: destruct (io_fault w SysClose); cbv beta iota zeta;
    cbn [io_fault files]; [by rewrite !lookup_insert_ne|].
  all: destruct (io_fault w SysRename); cbv beta iota zeta;
    cbn [io_fault files]; [by rewrite !lookup_insert_ne|].
  all: rewrite !lookup_insert_eq; cbn [default app files].
  all: exists js; split_and!; [done|by rewrite lookup_insert_eq|].
  all: by rewrite lookup_insert_ne, lookup_delete_eq.
Qed.

(** What WriteFile does once the temporary file is open, step by step. *)
Lemma WriteFile_opened (cf : ConfFile) (w : World) :
  io_fault w SysOpen = None ->
  files w !! (filename cf +:+ ".tmp") = None ->
  let tmp := filename cf +:+ ".tmp" in
  let w1 := set_files (<[tmp := []]> (files w)) w in
  WriteFile cf w =
  match json_MarshalIndent cf with
  | Error err => (Error err, w1)
  | Ok js =>
      match io_fault w SysWrite with
      | Some e => (Error (syscall_Errno e), w1)
      | None =>
          let w2 := set_files (<[tmp := js ++ [newline]]> (files w1)) w in
          match io_fault w SysClose with
          | Some e => (Error (syscall_Errno e), w2)
          | None =>
              match io_fault w SysRename with
              | Some e => (Error (syscall_Errno e), w2)
              | None =>
                  (Ok tt,
                   set_files (<[filename cf := js ++ [newline]]>
                                (delete tmp (files w2))) w)
              end
          end
      end
  end.
Proof.
  intros Hopen Htmp. cbv zeta. unfold WriteFile. cbv zeta.
  cbv [bind os_OpenFile_CREATE_EXCL lift fd_Write fd_Sync fd_Close os_Rename
       recover syscall syscall_Sync ret set_files].
  cbn [io_fault files]. rewrite Hopen, Htmp. cbv beta iota zeta.
  destruct (json_MarshalIndent cf) as [js|]; cbv beta iota zeta; [|done].
  cbn [io_fault files].
  destruct (io_fault w SysWrite); cbv beta iota zeta; [done|].
  cbn [io_fault files].
  destruct (io_fault w SysFsync); cbv beta iota zeta; cbn [io_fault files].
  all: destruct (io_fault w SysClose); cbv beta iota zeta;
    cbn [io_fault files]; rewrite ?lookup_insert_eq; cbn [default app];
    [done|].
  all: destruct (io_fault w SysRename); cbv beta iota zeta;
    cbn [io_fault files]; [done|].
  all: by rewrite !lookup_insert_eq.
Qed.

(** Where the master key comes from: /dev/random when asked for, a panic
    when the device cannot be opened or read, and cryptocore otherwise. *)
Lemma Create_key_source (devrandom : bool) (w : World) :
  (devrandom = true -> io_fault w SysOpen = None /\ io_fault w SysRead = None) ->
  (if devrandom then randBytesDevRandom cryptocore_KeyLen
   else cryptocore_RandBytes cryptocore_KeyLen) w
  = read_entropy cryptocore_KeyLen w.
Proof.
  destruct devrandom; [|done]. intros [Hopen Hread]; [done|].
  unfold randBytesDevRandom, syscall. by rewrite Hopen, Hread.
Qed.

Lemma Create_key_panics (w : World) :
  io_fault w SysOpen <> None \/ io_fault w SysRead <> None ->
  exists msg err,
    randBytesDevRandom cryptocore_KeyLen w = (Error (log_Panic msg err), w).
Proof.
  intros Hfault. unfold randBytesDevRandom, syscall.
  destruct (io_fault w SysOpen); [by eexists _, _|].
  destruct (io_fault w SysRead); [by eexists _, _|].
  by destruct Hfault.
Qed.

(** The config Create builds and hands to WriteFile: the master key is
    the first 32 bytes of entropy, wrapped under HKDF settings with fresh
    scrypt parameters. Unless /dev/random was asked for and fails, Create
    is WriteFile on that config, in a world with the files and faults it
    started in. *)
Lemma Create_produces (filename : string) (password : list byte)
    (plaintextNames : bool) (logN : Z) (creator : string)
    (aessiv devrandom : bool) (fido2CredentialID fido2HmacSalt : list byte)
    (w : World) :
  exists cf0 salt nonce,
    let key := entropy w <$> seq 0 cryptocore_KeyLen in
    let s := {| Salt := salt; ScryptN := 2 ^ logN; ScryptR := 8;
                ScryptP := 1; KeyLen := cryptocore_KeyLen |} in
    let ce := getKeyEncrypter (DeriveKey s password) true in
    let cf := set_EncryptedKey (EncryptBlockNonce ce key 0 [] nonce)
                (set_ScryptObject s cf0) in
    length nonce = IVBitLen (cryptoCore ce) / 8 /\
    configfile.filename cf0 = filename /\
    Creator cf0 = creator /\
    Version cf0 = contentenc_CurrentVersion /\
    FeatureFlags cf0
    = createdFlags plaintextNames aessiv (0 <? length fido2CredentialID) /\
    FIDO2 cf0
    = (if 0 <? length fido2CredentialID
       then {| CredentialID := fido2CredentialID; HMACSalt := fido2HmacSalt |}
       else {| CredentialID := []; HMACSalt := [] |}) /\
    ((devrandom = true ->
      io_fault w SysOpen = None /\ io_fault w SysRead = None) ->
     exists w1,
       files w1 = files w /\ io_fault w1 = io_fault w /\
       Create filename password plaintextNames logN creator aessiv devrandom
         fido2CredentialID fido2HmacSalt w = WriteFile cf w1) /\
    (forall w',
        Create filename password plaintextNames logN creator aessiv devrandom
          fido2CredentialID fido2HmacSalt w = (Ok tt, w') ->
        exists w1,
          files w1 = files w /\ io_fault w1 = io_fault w /\
          WriteFile cf w1 = (Ok tt, w')) /\
    (devrandom = true ->
     io_fault w SysOpen <> None \/ io_fault w SysRead <> None ->
     exists msg err,
       Create filename password plaintextNames logN creator aessiv devrandom
         fido2CredentialID fido2HmacSalt w = (Error (log_Panic msg err), w)).
Proof.
  unfold Create. cbv zeta.
  set (cf0 := (if 0 <? length fido2CredentialID then _ else _) : ConfFile).
  set (key := entropy w <$> seq 0 cryptocore_KeyLen).
  destruct (read_entropy_length cryptocore_KeyLen w)
    as (key' & w0 & Hread & _ & Hfiles0 & Hfault0).
  assert (key' = key) as -> by (by injection Hread as <- _).
  destruct (EncryptKey_unfold cf0 key password logN w0)
    as (salt & nonce & w1 & _ & Hnonce & _ & HE & Hfiles1 & Hfault1).
  assert (FeatureFlags cf0
          = createdFlags plaintextNames aessiv (0 <? length fido2CredentialID))
    as Hflags.
  { subst cf0.
    by destruct plaintextNames, aessiv, (0 <? length fido2CredentialID). }
  assert (IsFeatureFlagSet cf0 FlagHKDF = true) as HHKDF.
  { unfold IsFeatureFlagSet. rewrite Hflags.
    by destruct plaintextNames, aessiv, (0 <? length fido2CredentialID). }
  rewrite HHKDF in HE, Hnonce.
  assert ((devrandom = true ->
           io_fault w SysOpen = None /\ io_fault w SysRead = None) ->
          exists w1',
            files w1' = files w /\ io_fault w1' = io_fault w /\
            (key0 <- (if devrandom then randBytesDevRandom cryptocore_KeyLen
                      else cryptocore_RandBytes cryptocore_KeyLen) ;;
             cf <- EncryptKey cf0 key0 password logN ;; WriteFile cf) w
            = WriteFile
                (set_EncryptedKey
                   (EncryptBlockNonce
                      (getKeyEncrypter
                         (DeriveKey
                            {| Salt := salt; ScryptN := 2 ^ logN; ScryptR := 8;
                               ScryptP := 1; KeyLen := cryptocore_KeyLen |}
                            password) true) key 0 [] nonce)
                   (set_ScryptObject
                      {| Salt := salt; ScryptN := 2 ^ logN; ScryptR := 8;
                         ScryptP := 1; KeyLen := cryptocore_KeyLen |} cf0))
                w1') as Hgood.
  { intros Hsource. exists w1. split_and!; [congruence|congruence|].
    unfold bind at 1. rewrite (Create_key_source devrandom w Hsource), Hread.
    unfold bind at 1. by rewrite HE. }
  assert (devrandom = true ->
          io_fault w SysOpen <> None \/ io_fault w SysRead <> None ->
          exists msg err,
            (key0 <- (if devrandom then randBytesDevRandom cryptocore_KeyLen
                      else cryptocore_RandBytes cryptocore_KeyLen) ;;
             cf <- EncryptKey cf0 key0 password logN ;; WriteFile cf) w
            = (Error (log_Panic msg err), w)) as Hbad.
  { intros -> Hfault.
    destruct (Create_key_panics w Hfault) as (msg & err & Hpanic).
    exists msg, err. unfold bind at 1. by rewrite Hpanic. }
  exists cf0, salt, nonce. cbv zeta. split_and!.
  - exact Hnonce.
  - subst cf0.
    by destruct plaintextNames, aessiv, (0 <? length fido2CredentialID).
  - subst cf0.
    by destruct plaintextNames, aessiv, (0 <? length fido2CredentialID).
  - subst cf0.
    by destruct plaintextNames, aessiv, (0 <? length fido2CredentialID).
  - exact Hflags.
  - subst cf0.
    by destruct plaintextNames, aessiv, (0 <? length fido2CredentialID).
  - exact Hgood.
  - intros w' Hcreate.
    destruct (decide (devrandom = true /\
                      (io_fault w SysOpen <> None \/ io_fault w SysRead <> None)))
      as [[Hdev Hfault]|Hok].
    + destruct (Hbad Hdev Hfault) as (msg & err & Hpanic).
      rewrite Hpanic in Hcreate. discriminate.
    + destruct Hgood as (w1' & Hf & Hio & Heq).
      { intros Hdev.
        destruct (io_fault w SysOpen) eqn:Ho, (io_fault w SysRead) eqn:Hr;
          try done; exfalso; apply Hok; split; auto. }
      exists w1'. split_and!; [done|done|]. by rewrite <- Heq.
  - exact Hbad.
Qed.

(** C7. Every config produced by Create carries GCMIV128 and HKDF and
    exactly one of PlaintextNames and EMENames: with plaintextNames it
    carries PlaintextNames (and none of DirIV, EMENames, LongNames, Raw64),
    without it DirIV, EMENames, LongNames and Raw64 (and not
    PlaintextNames). The config with these flags is the one Create hands to
    WriteFile, in a world with the files and the faults it started in
    (unless /dev/random was asked for and fails); whenever Create succeeds
    the config file holds that config; and Create does succeed when no
    temporary file is in the way, no system call fails and the config
    marshals. *)
Theorem Create_feature_flags (filename : string) (password : list byte)
    (plaintextNames : bool) (logN : Z) (creator : string)
    (aessiv devrandom : bool) (fido2CredentialID fido2HmacSalt : list byte)
    (w : World) :
  exists cf,
    configfile.filename cf = filename /\
    FeatureFlags cf =
      [knownFlags FlagGCMIV128; knownFlags FlagHKDF]
      ++ (if plaintextNames then [knownFlags FlagPlaintextNames]
          else [knownFlags FlagDirIV; knownFlags FlagEMENames;
                knownFlags FlagLongNames; knownFlags FlagRaw64])
      ++ (if aessiv then [knownFlags FlagAESSIV] else [])
      ++ (if 0 <? length fido2CredentialID then [knownFlags FlagFIDO2]
          else []) /\
    IsFeatureFlagSet cf FlagGCMIV128 = true /\
    IsFeatureFlagSet cf FlagHKDF = true /\
    IsFeatureFlagSet cf FlagPlaintextNames = plaintextNames /\
    IsFeatureFlagSet cf FlagEMENames = negb plaintextNames /\
    IsFeatureFlagSet cf FlagDirIV = negb plaintextNames /\
    IsFeatureFlagSet cf FlagLongNames = negb plaintextNames /\
    IsFeatureFlagSet cf FlagRaw64 = negb plaintextNames /\
    ((devrandom = true ->
      io_fault w SysOpen = None /\ io_fault w SysRead = None) ->
     exists w1,
       files w1 = files w /\ io_fault w1 = io_fault w /\
       Create filename password plaintextNames logN creator aessiv devrandom
         fido2CredentialID fido2HmacSalt w = WriteFile cf w1) /\
    (forall w',
        Create filename password plaintextNames logN creator aessiv
          devrandom fido2CredentialID fido2HmacSalt w = (Ok tt, w') ->
        exists js, json_MarshalIndent cf = Ok js /\
                   files w' !! filename = Some (js ++ [newline])) /\
    (files w !! (filename +:+ ".tmp") = None ->
     (forall s, io_fault w s = None) ->
     forall js, json_MarshalIndent cf = Ok js ->
     exists w',
       Create filename password plaintextNames logN creator aessiv
         devrandom fido2CredentialID fido2HmacSalt w = (Ok tt, w') /\
       files w' !! filename = Some (js ++ [newline])).
Proof.
  destruct (Create_produces filename password plaintextNames logN creator
              aessiv devrandom fido2CredentialID fido2HmacSalt w)
    as (cf0 & salt & nonce & _ & Hname & _ & _ & Hflags & _ & Hgood & Hok & _).
  cbv zeta in Hgood, Hok.
  set (cf := set_EncryptedKey _ _) in *.
  change (FeatureFlags cf0) with (FeatureFlags cf) in Hflags.
  change (configfile.filename cf0) with (configfile.filename cf) in Hname.
  assert (forall f,
    IsFeatureFlagSet cf f
    = existsb (String.eqb (knownFlags f))
        (createdFlags plaintextNames aessiv (0 <? length fido2CredentialID)))
    as Hset by (intros f; unfold IsFeatureFlagSet; by rewrite Hflags).
  exists cf. split_and!;
    try (rewrite Hset;
         by destruct plaintextNames, aessiv, (0 <? length fido2CredentialID)).
  - exact Hname.
  - exact Hflags.
  - exact Hgood.
  - intros w' Hcreate. destruct (Hok w' Hcreate) as (w1 & _ & _ & HW).
    apply WriteFile_success in HW as (js & Hjs & Hfile & _).
    exists js. split; [exact Hjs|]. by rewrite <- Hname.
  - intros Htmp Hfault js Hjs.
    destruct Hgood as (w1 & Hfiles & Hio & ->); [by intros _|].
    rewrite (WriteFile_opened cf w1); cbv zeta.
    + rewrite Hjs, !Hio, !Hfault. eexists. split; [reflexivity|].
      cbn [files set_files]. by rewrite Hname, lookup_insert_eq.
    + by rewrite Hio.
    + by rewrite Hfiles, Hname.
Qed.

Lemma set_filename_same (cf : ConfFile) :
  set_filename (filename cf) cf = cf.
Proof. by destruct cf. Qed.

(** A config with the flags Create sets passes the checks of Load. *)
Lemma Load_created (filename : string) (w : World) (js : list byte)
    (cf : ConfFile) (plaintextNames aessiv fido2 : bool) :
  ioutil_ReadFile filename w = (Ok js, w) -> js <> [] ->
  json_Unmarshal js (set_filename filename zero_ConfFile) = Ok cf ->
  Version cf = contentenc_CurrentVersion ->
  FeatureFlags cf = createdFlags plaintextNames aessiv fido2 ->
  Load filename w = (Ok cf, w).
Proof.
  intros Hread Hne Hparse Hv Hflags.
  rewrite (Load_parsed filename w js cf Hread Hne Hparse).
  rewrite Hv. unfold requiredFlagsOf, checkRequired, IsFeatureFlagSet.
  rewrite Hflags. by destruct plaintextNames, aessiv, fido2.
Qed.

Context {XL : ExternalsLaws X} {JL : JSONLaws X}.

(** X1. Config password, through the file: when Create succeeds, loading the
    file it wrote with the same password returns the master key Create
    drew (the first 32 bytes of entropy), or nil in its place when that
    password is empty, together with the config of the created flags; and
    loading it with a non-empty password under whose derived key the block
    cipher rejects the wrapped key fails with PasswordIncorrect. *)
Theorem Create_LoadAndDecrypt (filename : string) (password : list byte)
    (plaintextNames : bool) (logN : Z) (creator : string)
    (aessiv devrandom : bool) (fido2CredentialID fido2HmacSalt : list byte)
    (w w' : World) :
  io_fault w SysRead = None ->
  Create filename password plaintextNames logN creator aessiv devrandom
    fido2CredentialID fido2HmacSalt w = (Ok tt, w') ->
  exists cf,
    LoadAndDecrypt filename password w'
    = (Ok (if length password =? 0 then []
           else entropy w <$> seq 0 cryptocore_KeyLen, cf), w') /\
    FeatureFlags cf
    = createdFlags plaintextNames aessiv (0 <? length fido2CredentialID) /\
    (forall password',
        password' <> [] -> kekRejected cf password' ->
        LoadAndDecrypt filename password' w'
        = (Error errPasswordIncorrect, w')).
Proof.
  intros Hfault Hcreate.
  destruct (Create_produces filename password plaintextNames logN creator
              aessiv devrandom fido2CredentialID fido2HmacSalt w)
    as (cf0 & salt & nonce & Hnonce & Hname & _ & Hv & Hflags & _ & _ & Hok
        & _).
  cbv zeta in Hok, Hnonce.
  destruct (Hok w' Hcreate) as (w1 & _ & Hfault1 & HW). clear Hok.
  set (s := {| Salt := salt; ScryptN := 2 ^ logN; ScryptR := 8;
               ScryptP := 1; KeyLen := cryptocore_KeyLen |}) in *.
  set (key := entropy w <$> seq 0 cryptocore_KeyLen) in *.
  set (cf := set_EncryptedKey _ _) in *.
  apply WriteFile_success in HW as (js & Hjs & Hfile & Hfault').
  change (configfile.filename cf) with (configfile.filename cf0) in Hfile.
  rewrite Hname in Hfile.
  assert (Load filename w' = (Ok cf, w')) as HLoad.
  { apply (Load_created filename w' (js ++ [newline]) cf plaintextNames aessiv
             (0 <? length fido2CredentialID)).
    - apply ioutil_ReadFile_ok; [congruence|exact Hfile].
    - by destruct js.
    - rewrite (json_Unmarshal_MarshalIndent cf js filename Hjs).
      f_equal. rewrite <- Hname. apply (set_filename_same cf).
    - exact Hv.
    - exact Hflags. }
  assert (DecryptMasterKey cf password = Ok key) as Hkey.
  { subst cf. rewrite <- (DecryptMasterKey_wrapped cf0 s key password nonce).
    - unfold IsFeatureFlagSet. rewrite Hflags.
      by destruct plaintextNames, aessiv, (0 <? length fido2CredentialID).
    - unfold IsFeatureFlagSet. rewrite Hflags.
      by destruct plaintextNames, aessiv, (0 <? length fido2CredentialID). }
  exists cf. split_and!.
  - unfold LoadAndDecrypt, bind. rewrite HLoad.
    destruct (length password =? 0); [done|].
    unfold lift. by rewrite Hkey.
  - exact Hflags.
  - intros password' Hpw' Hrej. unfold LoadAndDecrypt, bind. rewrite HLoad.
    destruct password' as [|b password']; [done|]. cbn [length Nat.eqb].
    unfold lift, DecryptMasterKey. unfold kekRejected in Hrej.
    by destruct (DecryptBlock _ _ _ _).
Qed.

End ConfigFileFacts.

(** A plaintext-names config that carries DirIV and lacks EMENames loads:
    the claim of C3 about configs that lack EMENames and carry DirIV does
    not hold as stated. *)
Lemma Load_plaintextnames_diriv :
  exists cf,
    configfile.Load (X := fixtures.X) "gocryptfs.conf"
      (fixtures.with_file "gocryptfs.conf" (fixtures.conf_of fixtures.cf_plaintextnames_diriv)
         fixtures.w0)
    = (Ok cf,
       fixtures.with_file "gocryptfs.conf" (fixtures.conf_of fixtures.cf_plaintextnames_diriv)
         fixtures.w0) /\
    configfile.FeatureFlags cf = ["GCMIV128"; "HKDF"; "PlaintextNames"; "DirIV"] /\
    configfile.IsFeatureFlagSet cf configfile.FlagEMENames = false /\
    configfile.IsFeatureFlagSet cf configfile.FlagDirIV = true.
Proof.
  eexists. split_and!; [vm_compute; reflexivity|reflexivity..].
Qed.

Lemma Load_rejects_witness :
  configfile.Load (X := fixtures.X) "gocryptfs.conf"
    (fixtures.with_file "gocryptfs.conf" (fixtures.conf_of fixtures.cf_v05) fixtures.w0)
  = (Error configfile.errDeprecatedFS,
     fixtures.with_file "gocryptfs.conf" (fixtures.conf_of fixtures.cf_v05) fixtures.w0).
Proof.
  pose (cf := configfile.set_FeatureFlags ["GCMIV128"; "HKDF"; "DirIV"]
                (configfile.set_Version 2
                   (configfile.set_filename "gocryptfs.conf"
                      configfile.zero_ConfFile))).
  assert (ioutil_ReadFile "gocryptfs.conf"
            (fixtures.with_file "gocryptfs.conf" (fixtures.conf_of fixtures.cf_v05) fixtures.w0)
          = (Ok (fixtures.conf_of fixtures.cf_v05),
             fixtures.with_file "gocryptfs.conf" (fixtures.conf_of fixtures.cf_v05) fixtures.w0))
    as Hread by (vm_compute; reflexivity).
  destruct (Load_rejects (X := fixtures.X) _ _ _ Hread) as [_ Hparsed].
  destruct (Hparsed cf ltac:(discriminate) ltac:(vm_compute; reflexivity))
    as (_ & _ & _ & Hdeprecated).
  apply Hdeprecated; [reflexivity| |reflexivity..].
  intros (flag & Hin & Hunknown). cbn in Hin.
  repeat (apply elem_of_cons in Hin as [->|Hin]; [discriminate|]).
  by apply not_elem_of_nil in Hin.
Defined.

Lemma Create_LoadAndDecrypt_witness :
  exists cf,
    configfile.LoadAndDecrypt (X := fixtures.X) "gocryptfs.conf"
      fixtures.testPw
      (configfile.Create (X := fixtures.X) "gocryptfs.conf" fixtures.testPw
         false 10 "gocryptfs" false false [] [] fixtures.w0).2
    = (Ok (entropy fixtures.w0 <$> seq 0 32, cf),
       (configfile.Create (X := fixtures.X) "gocryptfs.conf" fixtures.testPw
          false 10 "gocryptfs" false false [] [] fixtures.w0).2) /\
    configfile.LoadAndDecrypt (X := fixtures.X) "gocryptfs.conf"
      (bytes_of_string "tset")
      (configfile.Create (X := fixtures.X) "gocryptfs.conf" fixtures.testPw
         false 10 "gocryptfs" false false [] [] fixtures.w0).2
    = (Error configfile.errPasswordIncorrect,
       (configfile.Create (X := fixtures.X) "gocryptfs.conf" fixtures.testPw
          false 10 "gocryptfs" false false [] [] fixtures.w0).2) /\
    exists cf',
      configfile.LoadAndDecrypt (X := fixtures.X) "gocryptfs.conf" []
        (configfile.Create (X := fixtures.X) "gocryptfs.conf" []
           false 10 "gocryptfs" false false [] [] fixtures.w0).2
      = (Ok ([], cf'),
         (configfile.Create (X := fixtures.X) "gocryptfs.conf" []
            false 10 "gocryptfs" false false [] [] fixtures.w0).2).
Proof.
  destruct (Create_LoadAndDecrypt (XL := fixtures_X_laws)
              (JL := fixtures_X_json_laws)
              "gocryptfs.conf" fixtures.testPw false 10 "gocryptfs" false
              false [] [] fixtures.w0
              (configfile.Create (X := fixtures.X) "gocryptfs.conf"
                 fixtures.testPw false 10 "gocryptfs" false false [] []
                 fixtures.w0).2)
    as (cf & Hload & _ & Hwrong).
  { reflexivity. }
  { vm_compute. reflexivity. }
  destruct (Create_LoadAndDecrypt (XL := fixtures_X_laws)
              (JL := fixtures_X_json_laws)
              "gocryptfs.conf" [] false 10 "gocryptfs" false
              false [] [] fixtures.w0
              (configfile.Create (X := fixtures.X) "gocryptfs.conf"
                 [] false 10 "gocryptfs" false false [] []
                 fixtures.w0).2)
    as (cf' & Hload' & _ & _).
  { reflexivity. }
  { vm_compute. reflexivity. }
  exists cf. split_and!.
  - exact Hload.
  - apply Hwrong; [discriminate|].
    vm_compute in Hload. injection Hload as <-.
    vm_compute. exact I.
  - exists cf'. exact Hload'.
Defined.

Lemma Create_feature_flags_witness :
  exists cf js,
    configfile.FeatureFlags cf
    = ["GCMIV128"; "HKDF"; "DirIV"; "EMENames"; "LongNames"; "Raw64"] /\
    configfile.json_MarshalIndent cf = Ok js /\
    (configfile.Create (X := fixtures.X) "gocryptfs.conf" fixtures.testPw
       false 10 "gocryptfs" false true [] [] fixtures.w0).1 = Ok tt /\
    files (configfile.Create (X := fixtures.X) "gocryptfs.conf"
             fixtures.testPw false 10 "gocryptfs" false true [] []
             fixtures.w0).2 !! "gocryptfs.conf"
    = Some (js ++ [configfile.newline]).
Proof.
  destruct (Create_feature_flags (X := fixtures.X) "gocryptfs.conf"
              fixtures.testPw false 10 "gocryptfs" false true [] []
              fixtures.w0)
    as (cf & _ & Hflags & _ & _ & _ & _ & _ & _ & _ & _ & Hwritten & _).
  destruct (Hwritten
              (configfile.Create (X := fixtures.X) "gocryptfs.conf"
                 fixtures.testPw false 10 "gocryptfs" false true [] []
                 fixtures.w0).2) as (js & Hjs & Hfile).
  { vm_compute. reflexivity. }
  exists cf, js. split_and!.
  - exact Hflags.
  - exact Hjs.
  - vm_compute. reflexivity.
  - exact Hfile.
Defined.

Lemma WriteFile_stale_tmp_witness :
  exists err w',
    configfile.WriteFile (X := fixtures.X)
      (configfile.set_filename "gocryptfs.conf" configfile.zero_ConfFile)
      (fixtures.with_file "gocryptfs.conf.tmp" [x7b]
         (fixtures.with_file "gocryptfs.conf" (fixtures.conf_of fixtures.cf_v05) fixtures.w0))
    = (Error err, w') /\
    err = syscall_Errno EEXIST /\
    files w' !! "gocryptfs.conf.tmp" = Some [x7b] /\
    files w' !! "gocryptfs.conf" = Some (fixtures.conf_of fixtures.cf_v05).
Proof.
  destruct (WriteFile_stale_tmp (X := fixtures.X)
              (configfile.set_filename "gocryptfs.conf" configfile.zero_ConfFile)
              (fixtures.with_file "gocryptfs.conf.tmp" [x7b]
                 (fixtures.with_file "gocryptfs.conf" (fixtures.conf_of fixtures.cf_v05)
                    fixtures.w0))
              [x7b] ltac:(vm_compute; reflexivity))
    as (err & w' & HW & Herr & -> & Htmp & Hconf).
  eexists _, _. split_and!; [exact HW|by apply Herr|exact Htmp|].
  vm_compute. reflexivity.
Defined.


(** ** cli_args: "-o" expansion *)
Section PrefixOArgsFacts.
Import cli.

Lemma str_drop_o_eq (opts : string) : str_drop 3 ("-o=" +:+ opts) = opts.
Proof.
  change ("-o=" +:+ opts)
    with (String "-" (String "o" (String "=" opts))).
  unfold str_drop. cbn [String.length String.substring Nat.sub].
  rewrite Nat.sub_0_r. apply substring_0_length.
Qed.

Lemma HasPrefix_o_eq (opts : string) :
  strings_HasPrefix ("-o=" +:+ opts) "-o=" = true.
Proof. by destruct opts. Qed.

Lemma eqb_o_eq (opts : string) : String.eqb ("-o=" +:+ opts) "-o" = false.
Proof. reflexivity. Qed.

(** The extraction loop on a rendered command line: the plain arguments
    are kept in order, and the options are those of the last "-o"
    occurrence, if there is one. *)
Lemma extractOArgs_renderAll (items : list cliItem) :
  Forall wellFormedItem items ->
  forall otherArgs oOpts,
    extractOArgs (renderAll items) otherArgs oOpts
    = Ok (otherArgs ++ plainArgs items,
          match last (oGroups items) with
          | Some opts => strings_Split_comma opts
          | None => oOpts
          end).
Proof.
  induction 1 as [|item items Hwf _ IH]; intros otherArgs oOpts.
  { cbn. by rewrite app_nil_r. }
  assert (forall opts oOpts',
    match last (oGroups items) with
    | Some opts' => strings_Split_comma opts'
    | None => strings_Split_comma opts
    end
    = match last (opts :: oGroups items) with
      | Some opts' => strings_Split_comma opts'
      | None => oOpts'
      end) as Hlast.
  { intros opts oOpts'. rewrite last_cons. by destruct (last (oGroups items)). }
  destruct item as [opts|opts|arg]; unfold renderAll; cbn [fmap list_fmap
    render concat app].
  - cbn [extractOArgs String.eqb Ascii.eqb Bool.eqb].
    fold (renderAll items). rewrite IH. cbn [plainArgs oGroups omap list_omap].
    f_equal. f_equal. apply Hlast.
  - fold (renderAll items). cbn [extractOArgs].
    rewrite eqb_o_eq, HasPrefix_o_eq, str_drop_o_eq, IH.
    cbn [plainArgs oGroups omap list_omap].
    f_equal. f_equal. apply Hlast.
  - destruct Hwf as [Hne Hpre]. cbn [extractOArgs].
    rewrite (proj2 (String.eqb_neq _ _) Hne), Hpre.
    fold (renderAll items). rewrite IH.
    cbn [plainArgs oGroups omap list_omap]. by rewrite <- app_assoc.
Qed.

(** The expansion loop: the process exits at a field "o" or "-o"; without
    one, each non-empty field is added with a dash. *)
Lemma addOOpts_spec (oOpts newArgs : list string) :
  addOOpts oOpts newArgs =
  if existsb isOOpt oOpts then Exit exitcodes.Usage
  else Return (newArgs ++
               ((fun o => "-" +:+ o) <$> filter (fun o => o <> "") oOpts)).
Proof.
  revert newArgs. induction oOpts as [|o oOpts IH]; intros newArgs.
  { cbn. by rewrite app_nil_r. }
  cbn [addOOpts existsb]. rewrite filter_cons.
  destruct (String.eqb_spec o "") as [->|Hne].
  - rewrite IH. cbn. by rewrite decide_False by auto.
  - rewrite decide_True by done. fold (isOOpt o).
    destruct (isOOpt o); cbn [orb]; [done|].
    rewrite IH. destruct (existsb isOOpt oOpts); [done|].
    cbn [fmap list_fmap]. by rewrite <- app_assoc.
Qed.

Lemma oGroups_length (items : list cliItem) :
  length (oGroups items) <= length (renderAll items).
Proof.
  unfold renderAll, oGroups.
  induction items as [|[opts|opts|arg] items IH];
    cbn [fmap list_fmap concat render omap list_omap app length]; lia.
Qed.

(** C10 (as amended). Several "-o": when "-o" (or "-o=") occurs more than
    once on a command line without a literal "--", and every "-o" has its
    argument after it, prefixOArgs drops the option groups of all earlier
    occurrences; when the options of the last one name neither "o" nor
    "-o" it expands only these, and all other arguments follow the expanded
    options in their order; when they do name "o" or "-o" the process
    exits with the usage code (an "o" in an earlier group goes
    unnoticed). *)
Theorem prefixOArgs_last_o (prog : string) (items : list cliItem)
    (lastOpts : string) :
  Forall wellFormedItem items ->
  "--" ∉ renderAll items ->
  2 <= length (oGroups items) ->
  last (oGroups items) = Some lastOpts ->
  prefixOArgs (prog :: renderAll items) =
  if existsb isOOpt (strings_Split_comma lastOpts) then Exit exitcodes.Usage
  else Return (Ok (prog :: expand lastOpts ++ plainArgs items)).
Proof.
  intros Hwf Hdash Hmany Hlast. unfold prefixOArgs.
  pose proof (oGroups_length items) as Hlen.
  destruct (length (prog :: renderAll items) <? 3) eqn:Hlt.
  { apply Nat.ltb_lt in Hlt. cbn in Hlt. lia. }
  cbn [tail].
  destruct (existsb (fun v => String.eqb v "--") (renderAll items)) eqn:Hex.
  { exfalso. apply existsb_exists in Hex as (v & Hin & ->%String.eqb_eq).
    by apply Hdash, list_elem_of_In. }
  rewrite (extractOArgs_renderAll items Hwf), Hlast, addOOpts_spec.
  destruct (existsb isOOpt (strings_Split_comma lastOpts)); [done|].
  cbn [take app]. unfold expand. by rewrite app_nil_l.
Qed.

(** X5. Fewer than three arguments, or a literal "--" after the program
    name: the command line is returned as it is. *)
Theorem prefixOArgs_unchanged (osArgs : list string) :
  length osArgs < 3 \/ "--" ∈ tail osArgs ->
  prefixOArgs osArgs = Return (Ok osArgs).
Proof.
  intros Hcase. unfold prefixOArgs.
  destruct (length osArgs <? 3) eqn:Hlen; [done|].
  apply Nat.ltb_ge in Hlen. destruct Hcase as [?|Hin]; [lia|].
  assert (existsb (fun v => String.eqb v "--") (tail osArgs) = true) as ->;
    [|done].
  apply existsb_exists. exists "--". split; [by apply list_elem_of_In|done].
Qed.

(** An "-o" left without its argument at the end of the command line. *)
Lemma extractOArgs_dangling (items : list cliItem) :
  Forall wellFormedItem items ->
  forall otherArgs oOpts,
    extractOArgs (renderAll items ++ ["-o"]) otherArgs oOpts
    = Error (fmt_Errorf
               ("The " +:+ dq +:+ "-o" +:+ dq +:+ " option requires an argument")
               []).
Proof.
  induction 1 as [|item items Hitem _ IH]; intros otherArgs oOpts.
  - reflexivity.
  - destruct item as [opts|opts|arg]; unfold renderAll;
      cbn [fmap list_fmap render concat app]; fold (renderAll items).
    + cbn [extractOArgs String.eqb Ascii.eqb Bool.eqb]. apply IH.
    + cbn [extractOArgs].
      rewrite eqb_o_eq, HasPrefix_o_eq. apply IH.
    + destruct Hitem as [Hne Hpre]. cbn [extractOArgs].
      rewrite (proj2 (String.eqb_neq _ _) Hne), Hpre. apply IH.
Qed.

(** X6. An "-o" left without its argument: on a command line of at least
    three elements without "--" that ends in an "-o" which is not itself
    the argument of an "-o" before it, and in which every earlier "-o" has
    its argument after it, prefixOArgs returns the error that the "-o"
    option requires an argument; it does not exit. *)
Theorem prefixOArgs_dangling_o (prog : string) (items : list cliItem) :
  Forall wellFormedItem items ->
  "--" ∉ renderAll items ->
  2 <= length (renderAll items ++ ["-o"]) ->
  prefixOArgs (prog :: renderAll items ++ ["-o"])
  = Return (Error (fmt_Errorf
                     ("The " +:+ dq +:+ "-o" +:+ dq
                      +:+ " option requires an argument") [])).
Proof.
  intros Hwf Hdash Hlen. unfold prefixOArgs.
  destruct (length _ <? 3) eqn:Hlt.
  { apply Nat.ltb_lt in Hlt. cbn in Hlt. lia. }
  cbn [tail].
  destruct (existsb _ (renderAll items ++ ["-o"])) eqn:Hex.
  { exfalso. apply existsb_exists in Hex as (v & Hin & ->%String.eqb_eq).
    apply in_app_or in Hin as [Hin|[Heq|[]]]; [|discriminate].
    by apply Hdash, list_elem_of_In. }
  by rewrite (extractOArgs_dangling items Hwf).
Qed.

End PrefixOArgsFacts.

Lemma prefixOArgs_unchanged_witness :
  cli.prefixOArgs ["gocryptfs"; "-o"; "ro"; "--"; "cipher"; "mnt"]
  = cli.Return (Ok ["gocryptfs"; "-o"; "ro"; "--"; "cipher"; "mnt"]).
Proof.
  apply prefixOArgs_unchanged. right. cbn. set_solver.
Defined.

Lemma prefixOArgs_dangling_o_witness :
  cli.prefixOArgs ["gocryptfs"; "-o"; "ro"; "cipher"; "mnt"; "-o"]
  = cli.Return
      (Error (fmt_Errorf
                ("The " +:+ cli.dq +:+ "-o" +:+ cli.dq
                 +:+ " option requires an argument") [])).
Proof.
  apply (prefixOArgs_dangling_o "gocryptfs"
           [cli.OSep "ro"; cli.Plain "cipher"; cli.Plain "mnt"]).
  - repeat constructor; discriminate.
  - intros H%list_elem_of_In. cbn in H. intuition discriminate.
  - cbn. lia.
Defined.

(** The claim of C10 does not hold as stated: with two "-o" and no "--",
    a last group that names "o" ends the process with the usage code, and
    an "-o" left without its argument is an error; neither command line is
    expanded. *)
Lemma prefixOArgs_last_o_refused :
  cli.prefixOArgs ["gocryptfs"; "-o"; "ro"; "-o"; "o"; "mnt"]
  = cli.Exit exitcodes.Usage /\
  exists err,
    cli.prefixOArgs ["gocryptfs"; "-o"; "ro"; "mnt"; "-o"]
    = cli.Return (Error err).
Proof. split; [reflexivity|]. eexists. reflexivity. Qed.

Lemma prefixOArgs_last_o_witness :
  cli.prefixOArgs
    ["gocryptfs"; "-o"; "o,ro"; "cipher"; "-o=allow_other,,nosuid"; "mnt"]
  = cli.Return (Ok ["gocryptfs"; "-allow_other"; "-nosuid"; "cipher"; "mnt"]).
Proof.
  apply (prefixOArgs_last_o "gocryptfs"
           [cli.OSep "o,ro"; cli.Plain "cipher";
            cli.OEq "allow_other,,nosuid"; cli.Plain "mnt"]
           "allow_other,,nosuid").
  - repeat constructor; discriminate.
  - intros H%list_elem_of_In. cbn in H. intuition discriminate.
  - cbn. lia.
  - reflexivity.
Defined.

(** ** cli_args: the checks on the password sources *)
Section ParseCliOptsFacts.
Import cli.
Context {E : Env}.

(** Each of the four pairs parseCliOptsBase checks ends the process with
    the usage code. *)
Lemma checkExclusive_rejects (args : argContainer) :
  (extpass args <> [] /\ passfile args <> []) \/
  (passfile args <> [] /\ masterkey args <> "") \/
  (extpass args <> [] /\ masterkey args <> "") \/
  (extpass args <> [] /\ fido2 args <> "") ->
  checkExclusive args = Exit exitcodes.Usage.
Proof.
  unfold checkExclusive, Empty.
  destruct (extpass args) as [|e es], (passfile args) as [|p ps];
    cbn [length Nat.eqb negb andb];
    destruct (String.eqb_spec (masterkey args) ""),
             (String.eqb_spec (fido2 args) "");
    cbn [negb andb]; try done; intros [[? ?]|[[? ?]|[[? ?]|[? ?]]]]; done.
Qed.

(** Without an extpass, and without a passfile and a masterkey together, the
    checks pass, whatever "-fido2" holds. *)
Lemma checkExclusive_accepts (args : argContainer) :
  extpass args = [] ->
  passfile args = [] \/ masterkey args = "" ->
  (0 <= idle args)%Z ->
  checkExclusive args = Return args.
Proof.
  intros Hext Hone Hidle. unfold checkExclusive, Empty. rewrite Hext.
  cbn [length Nat.eqb negb andb].
  destruct (Z.ltb_spec (idle args) 0); [lia|].
  destruct Hone as [Hp|Hm]; rewrite ?Hp, ?Hm; cbn [length Nat.eqb negb andb];
    [done|].
  by rewrite andb_false_r.
Qed.

(** C8 (where the code falls short). The pairs passfile with fido2 and
    masterkey with fido2 are not checked: whenever the flag package yields
    no extpass, not both a passfile and a masterkey, no "-forcedecode", the
    default "-openssl" and no negative idle time, parseCliOptsBase returns
    the arguments, both password sources still in them, instead of exiting
    with the usage code. *)
Theorem parseCliOptsBase_fido2_unchecked (osArgs : list string)
    (args : argContainer) (scryptnPassed : bool) :
  flagSet_Parse (tail osArgs) = Parsed args "auto" scryptnPassed ->
  forcedecode args = false ->
  (0 <= idle args)%Z ->
  extpass args = [] ->
  passfile args = [] \/ masterkey args = "" ->
  exists args',
    parseCliOptsBase osArgs = Return args' /\
    passfile args' = passfile args /\
    masterkey args' = masterkey args /\
    fido2 args' = fido2 args.
Proof.
  intros Hparse Hforce Hidle Hext Hone.
  unfold parseCliOptsBase. rewrite Hparse.
  cbn [String.eqb Ascii.eqb Bool.eqb].
  set (args1 := if scryptnPassed then _ else args).
  assert (forcedecode args1 = forcedecode args /\ idle args1 = idle args /\
          extpass args1 = extpass args /\ passfile args1 = passfile args /\
          masterkey args1 = masterkey args /\ fido2 args1 = fido2 args)
    as (H1 & H2 & H3 & H4 & H5 & H6) by (subst args1; by destruct scryptnPassed).
  unfold checkForcedecode.
  cbn [forcedecode set_openssl]. rewrite H1, Hforce.
  exists (set_openssl stupidgcm_PreferOpenSSL args1).
  split; [|cbn [passfile masterkey fido2 set_openssl]; eauto].
  apply checkExclusive_accepts;
    cbn [extpass passfile masterkey idle set_openssl];
    rewrite ?H2, ?H3, ?H4, ?H5; done.
Qed.

Lemma checkForcedecode_sources (args : argContainer) (opensslAuto : string) :
  checkForcedecode args opensslAuto = Exit exitcodes.Usage \/
  exists args',
    checkForcedecode args opensslAuto = Return args' /\
    extpass args' = extpass args /\ passfile args' = passfile args /\
    masterkey args' = masterkey args /\ fido2 args' = fido2 args /\
    idle args' = idle args /\
    (forcedecode args = true ->
     openssl args' = true /\ ro args' = true /\ allow_other args' = false /\
     ko args' = "noexec").
Proof.
  unfold checkForcedecode.
  destruct (forcedecode args); [|right; by exists args].
  destruct stupidgcm_BuiltWithoutOpenssl; [by left|].
  destruct (aessiv args); [by left|].
  destruct (reverse args); [by left|].
  destruct (negb (openssl args) && negb (String.eqb opensslAuto "auto"));
    [by left|].
  right. by eexists.
Qed.

(** X3. The four pairs that are checked: whenever the flag package yields an
    extpass with a passfile, a passfile with a masterkey, an extpass with a
    masterkey, or an extpass with a fido2, parseCliOptsBase ends the
    process with the usage code. *)
Theorem parseCliOptsBase_checked_pairs (osArgs : list string)
    (args : argContainer) (opensslAuto : string) (scryptnPassed : bool) :
  flagSet_Parse (tail osArgs) = Parsed args opensslAuto scryptnPassed ->
  (extpass args <> [] /\ passfile args <> []) \/
  (passfile args <> [] /\ masterkey args <> "") \/
  (extpass args <> [] /\ masterkey args <> "") \/
  (extpass args <> [] /\ fido2 args <> "") ->
  parseCliOptsBase osArgs = Exit exitcodes.Usage.
Proof.
  intros Hparse Hpair. unfold parseCliOptsBase. rewrite Hparse.
  destruct (if String.eqb opensslAuto "auto" then _ else _) as [b|]; [|done].
  set (args1 := set_openssl b _).
  assert (extpass args1 = extpass args /\ passfile args1 = passfile args /\
          masterkey args1 = masterkey args /\ fido2 args1 = fido2 args)
    as (H1 & H2 & H3 & H4) by (subst args1; by destruct scryptnPassed).
  destruct (checkForcedecode_sources args1 opensslAuto)
    as [->|(args' & -> & H1' & H2' & H3' & H4' & _)]; [done|].
  apply checkExclusive_rejects. by rewrite H1', H2', H3', H4', H1, H2, H3, H4.
Qed.

(** X4. The policy of "-forcedecode": whenever parseCliOptsBase returns and
    the flag was passed, the arguments say openssl, read-only, no
    allow_other, and "noexec" for the kernel. *)
Theorem parseCliOptsBase_forcedecode (osArgs : list string)
    (args args' : argContainer) (opensslAuto : string) (scryptnPassed : bool) :
  flagSet_Parse (tail osArgs) = Parsed args opensslAuto scryptnPassed ->
  forcedecode args = true ->
  parseCliOptsBase osArgs = Return args' ->
  openssl args' = true /\ ro args' = true /\ allow_other args' = false /\
  ko args' = "noexec".
Proof.
  intros Hparse Hforce. unfold parseCliOptsBase. rewrite Hparse.
  destruct (if String.eqb opensslAuto "auto" then _ else _) as [b|]; [|done].
  set (args1 := set_openssl b _).
  assert (forcedecode args1 = true) as Hforce1
    by (subst args1; by destruct scryptnPassed).
  destruct (checkForcedecode_sources args1 opensslAuto)
    as [->|(args2 & -> & _ & _ & _ & _ & _ & Hpolicy)]; [done|].
  specialize (Hpolicy Hforce1). unfold checkExclusive.
  repeat (destruct (_ && _); [done|]).
  destruct (_ <? _)%Z; [done|]. by intros [= <-].
Qed.

End ParseCliOptsFacts.

Lemma parseCliOptsBase_checked_pairs_witness :
  cli.parseCliOptsBase (E := fixtures.E)
    ["gocryptfs"; "-extpass"; "pass show fs"; "-fido2=/dev/hidraw0";
     "cipher"; "mnt"] = cli.Exit exitcodes.Usage.
Proof.
  pose (args :=
          match fixtures.parseFlags
                  ["-extpass"; "pass show fs"; "-fido2=/dev/hidraw0";
                   "cipher"; "mnt"] cli.defaultArgs with
          | cli.Parsed a _ _ => a
          | _ => cli.defaultArgs
          end).
  apply (parseCliOptsBase_checked_pairs (E := fixtures.E) _ args "auto" false).
  - vm_compute. reflexivity.
  - right. right. right. split; vm_compute; discriminate.
Defined.

Lemma parseCliOptsBase_forcedecode_witness :
  exists args',
    cli.parseCliOptsBase (E := fixtures.E)
      ["gocryptfs"; "-forcedecode"; "cipher"; "mnt"] = cli.Return args' /\
    cli.openssl args' = true /\ cli.ro args' = true /\
    cli.allow_other args' = false /\ cli.ko args' = "noexec".
Proof.
  pose (args :=
          match fixtures.parseFlags ["-forcedecode"; "cipher"; "mnt"]
                  cli.defaultArgs with
          | cli.Parsed a _ _ => a
          | _ => cli.defaultArgs
          end).
  pose (args' :=
          match cli.parseCliOptsBase (E := fixtures.E)
                  ["gocryptfs"; "-forcedecode"; "cipher"; "mnt"] with
          | cli.Return a => a
          | _ => cli.defaultArgs
          end).
  assert (cli.parseCliOptsBase (E := fixtures.E)
            ["gocryptfs"; "-forcedecode"; "cipher"; "mnt"] = cli.Return args')
    as Hreturn by (vm_compute; reflexivity).
  exists args'. split; [exact Hreturn|].
  apply (parseCliOptsBase_forcedecode (E := fixtures.E)
           ["gocryptfs"; "-forcedecode"; "cipher"; "mnt"] args args' "auto"
           false); [vm_compute; reflexivity|reflexivity|exact Hreturn].
Defined.

Lemma parseCliOptsBase_fido2_unchecked_witness :
  exists args',
    cli.parseCliOptsBase (E := fixtures.E)
      ["gocryptfs"; "-passfile"; "pw.txt"; "-fido2"; "/dev/hidraw0";
       "cipher"; "mnt"] = cli.Return args' /\
    cli.passfile args' = ["pw.txt"] /\
    cli.masterkey args' = "" /\
    cli.fido2 args' = "/dev/hidraw0".
Proof.
  pose (args :=
          match fixtures.parseFlags
                  ["-passfile"; "pw.txt"; "-fido2"; "/dev/hidraw0";
                   "cipher"; "mnt"] cli.defaultArgs with
          | cli.Parsed a _ _ => a
          | _ => cli.defaultArgs
          end).
  destruct (parseCliOptsBase_fido2_unchecked (E := fixtures.E)
              ["gocryptfs"; "-passfile"; "pw.txt"; "-fido2"; "/dev/hidraw0";
               "cipher"; "mnt"] args false)
    as (args' & Hreturn & Hpassfile & Hmasterkey & Hfido2).
  - vm_compute. reflexivity.
  - reflexivity.
  - vm_compute. discriminate.
  - reflexivity.
  - right. reflexivity.
  - exists args'. rewrite Hpassfile, Hmasterkey, Hfido2.
    split; [exact Hreturn|]. split_and!; reflexivity.
Defined.

(** * Further properties of the same code *)

(** ** configfile: reading back what was written *)
Section MoreConfigFileFacts.
Import configfile.
Context {X : Externals}.

(** Load only reads. *)
Lemma Load_read_only (filename : string) (w : World) :
  (Load filename w).2 = w.
Proof.
  cbv [Load bind ioutil_ReadFile syscall lift fail ret].
  destruct (io_fault w SysRead); cbv beta iota zeta; [done|].
  destruct (files w !! filename) as [js|]; cbv beta iota zeta; [|done].
  destruct (length js =? 0); cbv beta iota zeta; [done|].
  destruct (json_Unmarshal js _) as [cf|]; cbv beta iota zeta; [|done].
  destruct (negb _); [done|].
  destruct (List.find _ _); [done|].
  by destruct (checkRequired _ _).
Qed.

(** X9. LoadAndDecrypt never changes the file system, and its result is
    decided by Load first: an error of Load is returned as it is, whatever
    the password; with an empty password the parsed config comes back with
    nil in place of the key; otherwise the key comes back with the config,
    or PasswordIncorrect and no config. *)
Theorem LoadAndDecrypt_cases (filename : string) (password : list byte)
    (w : World) :
  (Load filename w).2 = w /\
  LoadAndDecrypt filename password w =
  match (Load filename w).1 with
  | Error err => (Error err, w)
  | Ok cf =>
      if length password =? 0 then (Ok ([], cf), w)
      else
        match DecryptMasterKey cf password with
        | Ok key => (Ok (key, cf), w)
        | Error _ => (Error errPasswordIncorrect, w)
        end
  end.
Proof.
  pose proof (Load_read_only filename w) as Hro. split; [exact Hro|].
  unfold LoadAndDecrypt, bind.
  destruct (Load filename w) as [[cf|err] w']; cbn [fst snd] in *; subst w';
    [|done].
  destruct (length password =? 0); [done|].
  unfold lift, ret, DecryptMasterKey.
  by destruct (DecryptBlock _ _ _ _).
Qed.

(** X10. Load returns a config exactly when the file can be read and is
    not empty, its JSON decodes to that config, the Version is the current
    one, every feature flag is known and no required flag is missing; and
    it leaves the world as it was. *)
Theorem Load_ok_iff (filename : string) (w w' : World) (cf : ConfFile) :
  Load filename w = (Ok cf, w') <->
  w' = w /\ io_fault w SysRead = None /\
  exists js,
    files w !! filename = Some js /\ js <> [] /\
    json_Unmarshal js (set_filename filename zero_ConfFile) = Ok cf /\
    Version cf = contentenc_CurrentVersion /\
    ~ hasUnknownFlag cf /\ ~ missesRequiredFlag cf.
Proof.
  split.
  - intros HLoad.
    pose proof (Load_read_only filename w) as Hro. rewrite HLoad in Hro.
    cbn in Hro. subst w'. split; [done|].
    revert HLoad.
    cbv [Load bind ioutil_ReadFile syscall lift fail ret].
    destruct (io_fault w SysRead); cbv beta iota zeta; [discriminate|].
    destruct (files w !! filename) as [js|]; cbv beta iota zeta;
      [|discriminate].
    destruct js as [|b js]; [discriminate|]. cbn [length Nat.eqb].
    destruct (json_Unmarshal _ _) as [cf'|] eqn:Hparse; cbv beta iota zeta;
      [|discriminate].
    destruct (Version cf' =? contentenc_CurrentVersion)%Z eqn:Hv;
      cbn [negb]; [|discriminate].
    pose proof (find_unknown_spec cf') as Hfind.
    destruct (List.find _ _); [discriminate|].
    destruct (checkRequired cf' _) eqn:Hreq; [discriminate|].
    intros [= ->]. split; [done|].
    exists (b :: js). split_and!; try done.
    + by apply Z.eqb_eq.
    + intros Hmiss. apply checkRequired_spec in Hmiss.
      unfold requiredFlagsOf in Hmiss. congruence.
  - intros (-> & Hfault & js & Hfile & Hne & Hparse & Hv & Hknown & Hreq).
    rewrite (Load_parsed filename w js cf
               (ioutil_ReadFile_ok filename w js Hfault Hfile) Hne Hparse).
    rewrite (proj2 (Z.eqb_eq _ _) Hv). cbn [negb].
    pose proof (find_unknown_spec cf) as Hfind.
    destruct (List.find _ _) as [flag|].
    { exfalso. apply Hknown. by exists flag. }
    destruct (checkRequired cf (requiredFlagsOf cf)) eqn:Hc; [|done].
    exfalso. apply Hreq. by apply checkRequired_spec.
Qed.

(** X13. WriteFile never removes the temporary file: when it fails after
    creating [<filename>.tmp] (marshalling, write, close or rename fails),
    the temporary file stays behind, and the next WriteFile fails with
    EEXIST. *)
Theorem WriteFile_failure_blocks_retry (cf : ConfFile) (w w' : World)
    (err : error) :
  io_fault w SysOpen = None ->
  files w !! (filename cf +:+ ".tmp") = None ->
  WriteFile cf w = (Error err, w') ->
  is_Some (files w' !! (filename cf +:+ ".tmp")) /\
  WriteFile cf w' = (Error (syscall_Errno EEXIST), w').
Proof.
  intros Hopen Htmp HW.
  assert (is_Some (files w' !! (filename cf +:+ ".tmp")) /\
          io_fault w' = io_fault w) as [[stale Hstale] Hfault].
  { rewrite (WriteFile_opened cf w Hopen Htmp) in HW. cbv zeta in HW.
    destruct (json_MarshalIndent cf) as [js|].
    2:{ injection HW as _ <-. cbn. by rewrite lookup_insert_eq. }
    destruct (io_fault w SysWrite).
    { injection HW as _ <-. cbn. by rewrite lookup_insert_eq. }
    destruct (io_fault w SysClose).
    { injection HW as _ <-. cbn. by rewrite lookup_insert_eq. }
    destruct (io_fault w SysRename); [|discriminate].
    injection HW as _ <-. cbn. by rewrite lookup_insert_eq. }
  split; [by exists stale|].
  destruct (WriteFile_tmp_exists cf w' stale Hstale) as (err' & -> & Herr).
  by rewrite Herr by congruence.
Qed.

(** X14. A failing fsync does not fail WriteFile: as long as the temporary
    file does not exist, the config marshals and open, write, close and
    rename work, the config is written and the temporary file is gone,
    whatever fd.Sync returns. *)
Theorem WriteFile_fsync_tolerated (cf : ConfFile) (w : World)
    (js : list byte) :
  files w !! (filename cf +:+ ".tmp") = None ->
  json_MarshalIndent cf = Ok js ->
  (forall s, s <> SysFsync -> io_fault w s = None) ->
  exists w',
    WriteFile cf w = (Ok tt, w') /\
    files w' !! filename cf = Some (js ++ [newline]) /\
    files w' !! (filename cf +:+ ".tmp") = None.
Proof.
  intros Htmp Hjs Hfault.
  rewrite (WriteFile_opened cf w (Hfault SysOpen ltac:(done)) Htmp).
  cbv zeta. rewrite Hjs, !Hfault by done.
  eexists. split; [reflexivity|]. cbn [files set_files].
  split; [by rewrite lookup_insert_eq|].
  rewrite lookup_insert_ne by (symmetry; apply tmp_name_fresh).
  by rewrite lookup_delete_eq.
Qed.

(** X15. WriteFile touches nothing but the config file and its temporary
    file: every other path keeps its content, whether WriteFile succeeds or
    fails. *)
Theorem WriteFile_frame (cf : ConfFile) (w : World) (path : string) :
  path <> filename cf -> path <> filename cf +:+ ".tmp" ->
  files (WriteFile cf w).2 !! path = files w !! path /\
  io_fault (WriteFile cf w).2 = io_fault w /\
  entropy (WriteFile cf w).2 = entropy w.
Proof.
  intros Hp Htmp.
  destruct (io_fault w SysOpen) as [e|] eqn:Hopen.
  { unfold WriteFile. cbv zeta.
    cbv [bind os_OpenFile_CREATE_EXCL syscall]. by rewrite Hopen. }
  destruct (files w !! (filename cf +:+ ".tmp")) as [stale|] eqn:Hstale.
  { destruct (WriteFile_tmp_exists cf w stale Hstale) as (err & -> & _).
    done. }
  rewrite (WriteFile_opened cf w Hopen Hstale). cbv zeta.
  destruct (json_MarshalIndent cf) as [js|]; cbn [snd files set_files io_fault entropy].
  2:{ by rewrite lookup_insert_ne. }
  destruct (io_fault w SysWrite); cbn [snd files set_files io_fault entropy].
  { by rewrite lookup_insert_ne. }
  destruct (io_fault w SysClose); cbn [snd files set_files io_fault entropy].
  { by rewrite !lookup_insert_ne. }
  destruct (io_fault w SysRename); cbn [snd files set_files io_fault entropy].
  { by rewrite !lookup_insert_ne. }
  by rewrite lookup_insert_ne, lookup_delete_ne, !lookup_insert_ne.
Qed.

(** X16. The config Create builds carries the creator string and the
    current version; the FIDO2 credential ID and HMAC salt are stored, and
    the FIDO2 flag set, only when the credential ID is not empty: with an
    empty credential ID a salt that was passed is dropped. That config is
    the one Create hands to WriteFile, in a world with the files and the
    faults it started in (unless /dev/random was asked for and fails);
    whenever Create succeeds the config file holds that config; and Create
    does succeed when no temporary file is in the way, no system call fails
    and the config marshals. *)
Theorem Create_fido2_params (filename : string) (password : list byte)
    (plaintextNames : bool) (logN : Z) (creator : string)
    (aessiv devrandom : bool) (fido2CredentialID fido2HmacSalt : list byte)
    (w : World) :
  exists cf,
    configfile.filename cf = filename /\
    Creator cf = creator /\
    Version cf = contentenc_CurrentVersion /\
    FIDO2 cf =
      (if 0 <? length fido2CredentialID
       then {| CredentialID := fido2CredentialID; HMACSalt := fido2HmacSalt |}
       else {| CredentialID := []; HMACSalt := [] |}) /\
    IsFeatureFlagSet cf FlagFIDO2 = (0 <? length fido2CredentialID) /\
    ((devrandom = true ->
      io_fault w SysOpen = None /\ io_fault w SysRead = None) ->
     exists w1,
       files w1 = files w /\ io_fault w1 = io_fault w /\
       Create filename password plaintextNames logN creator aessiv devrandom
         fido2CredentialID fido2HmacSalt w = WriteFile cf w1) /\
    (forall w',
        Create filename password plaintextNames logN creator aessiv
          devrandom fido2CredentialID fido2HmacSalt w = (Ok tt, w') ->
        exists js, json_MarshalIndent cf = Ok js /\
                   files w' !! filename = Some (js ++ [newline])) /\
    (files w !! (filename +:+ ".tmp") = None ->
     (forall s, io_fault w s = None) ->
     forall js, json_MarshalIndent cf = Ok js ->
     exists w',
       Create filename password plaintextNames logN creator aessiv
         devrandom fido2CredentialID fido2HmacSalt w = (Ok tt, w') /\
       files w' !! filename = Some (js ++ [newline])).
Proof.
  destruct (Create_produces filename password plaintextNames logN creator
              aessiv devrandom fido2CredentialID fido2HmacSalt w)
    as (cf0 & salt & nonce & _ & Hname & Hcreator & Hv & Hflags & Hfido
        & Hgood & Hok & _).
  cbv zeta in Hgood, Hok.
  set (cf := set_EncryptedKey _ _) in *.
  change (FeatureFlags cf0) with (FeatureFlags cf) in Hflags.
  change (configfile.filename cf0) with (configfile.filename cf) in Hname.
  change (Creator cf0) with (Creator cf) in Hcreator.
  change (Version cf0) with (Version cf) in Hv.
  change (FIDO2 cf0) with (FIDO2 cf) in Hfido.
  exists cf. split_and!.
  - exact Hname.
  - exact Hcreator.
  - exact Hv.
  - exact Hfido.
  - unfold IsFeatureFlagSet. rewrite Hflags.
    by destruct plaintextNames, aessiv, (0 <? length fido2CredentialID).
  - exact Hgood.
  - intros w' Hcreate. destruct (Hok w' Hcreate) as (w1 & _ & _ & HW).
    apply WriteFile_success in HW as (js & Hjs & Hfile & _).
    exists js. split; [exact Hjs|]. by rewrite <- Hname.
  - intros Htmp Hfault js Hjs.
    destruct Hgood as (w1 & Hfiles & Hio & ->); [by intros _|].
    rewrite (WriteFile_opened cf w1); cbv zeta.
    + rewrite Hjs, !Hio, !Hfault. eexists. split; [reflexivity|].
      cbn [files set_files]. by rewrite Hname, lookup_insert_eq.
    + by rewrite Hio.
    + by rewrite Hfiles, Hname.
Qed.

Context {XL : ExternalsLaws X} {JL : JSONLaws X}.

(** What WriteFile wrote, Load parses back. *)
Lemma WriteFile_then_Load (cf : ConfFile) (w w' : World) :
  io_fault w SysRead = None ->
  WriteFile cf w = (Ok tt, w') ->
  Load (filename cf) w' =
  if negb (Version cf =? contentenc_CurrentVersion)%Z then
    (Error (fmt_Errorf "Unsupported on-disk format %d" [ArgInt (Version cf)]), w')
  else
    match List.find (fun flag => negb (isFeatureFlagKnown cf flag))
            (FeatureFlags cf) with
    | Some flag =>
        (Error (fmt_Errorf "Unsupported feature flag %q" [ArgStr flag]), w')
    | None =>
        if checkRequired cf (requiredFlagsOf cf) then (Error errDeprecatedFS, w')
        else (Ok cf, w')
    end.
Proof.
  intros Hfault HW.
  apply WriteFile_success in HW as (js & Hjs & Hfile & Hfault').
  assert (json_Unmarshal (js ++ [newline])
            (set_filename (filename cf) zero_ConfFile) = Ok cf) as Hparse.
  { rewrite (json_Unmarshal_MarshalIndent cf js (filename cf) Hjs).
    by rewrite set_filename_same. }
  assert (io_fault w' SysRead = None) as Hread by congruence.
  exact (Load_parsed (filename cf) w' (js ++ [newline]) cf
           (ioutil_ReadFile_ok _ _ _ Hread Hfile)
           ltac:(by destruct js) Hparse).
Qed.

Lemma Load_checks_pass (cf : ConfFile) (w : World) :
  Version cf = contentenc_CurrentVersion -> ~ hasUnknownFlag cf ->
  ~ missesRequiredFlag cf ->
  (if negb (Version cf =? contentenc_CurrentVersion)%Z then
     (Error (fmt_Errorf "Unsupported on-disk format %d" [ArgInt (Version cf)]), w)
   else
     match List.find (fun flag => negb (isFeatureFlagKnown cf flag))
             (FeatureFlags cf) with
     | Some flag =>
         (Error (fmt_Errorf "Unsupported feature flag %q" [ArgStr flag]), w)
     | None =>
         if checkRequired cf (requiredFlagsOf cf) then (Error errDeprecatedFS, w)
         else (Ok cf, w)
     end) = (Ok cf, w).
Proof.
  intros Hv Hknown Hreq. rewrite (proj2 (Z.eqb_eq _ _) Hv). cbn [negb].
  pose proof (find_unknown_spec cf) as Hfind.
  destruct (List.find _ _) as [flag|].
  { exfalso. apply Hknown. by exists flag. }
  destruct (checkRequired cf (requiredFlagsOf cf)) eqn:Hc; [|done].
  exfalso. apply Hreq. by apply checkRequired_spec.
Qed.

(** X11. What WriteFile wrote, Load reads back: after a successful
    WriteFile, Load of the same file returns that config when it has the
    current version, known flags only and all required flags, and it never
    returns a different config. *)
Theorem WriteFile_Load (cf : ConfFile) (w w' : World) :
  io_fault w SysRead = None ->
  WriteFile cf w = (Ok tt, w') ->
  (Version cf = contentenc_CurrentVersion -> ~ hasUnknownFlag cf ->
   ~ missesRequiredFlag cf ->
   Load (filename cf) w' = (Ok cf, w')) /\
  (forall cf', (Load (filename cf) w').1 = Ok cf' -> cf' = cf).
Proof.
  intros Hfault HW.
  rewrite (WriteFile_then_Load cf w w' Hfault HW). split.
  - apply Load_checks_pass.
  - intros cf'. destruct (negb _); [discriminate|].
    destruct (List.find _ _); [discriminate|].
    destruct (checkRequired _ _); [discriminate|]. by intros [= <-].
Qed.

(** X12. Changing the password: after EncryptKey wraps [key] under a new
    password in a config that passes the checks of Load and WriteFile
    writes it, LoadAndDecrypt with the new password returns that config
    and [key], or nil in place of [key] when the new password is empty;
    and it fails with PasswordIncorrect for every non-empty password under
    whose derived key the block cipher rejects the wrapped key. *)
Theorem EncryptKey_WriteFile_LoadAndDecrypt (cf cf' : ConfFile)
    (key password : list byte) (logN : Z) (w w1 w2 : World) :
  io_fault w SysRead = None ->
  Version cf = contentenc_CurrentVersion -> ~ hasUnknownFlag cf ->
  ~ missesRequiredFlag cf ->
  EncryptKey cf key password logN w = (Ok cf', w1) ->
  WriteFile cf' w1 = (Ok tt, w2) ->
  LoadAndDecrypt (filename cf) password w2
  = (Ok (if length password =? 0 then [] else key, cf'), w2) /\
  (forall password',
      password' <> [] -> kekRejected cf' password' ->
      LoadAndDecrypt (filename cf) password' w2
      = (Error errPasswordIncorrect, w2)).
Proof.
  intros Hfault Hv Hknown Hreq HE HW.
  destruct (EncryptKey_unfold cf key password logN w)
    as (salt & nonce & w1' & _ & Hnonce & _ & HE' & _ & Hfault1).
  rewrite HE' in HE. injection HE as <- <-.
  set (s := {| Salt := salt; ScryptN := 2 ^ logN; ScryptR := 8;
               ScryptP := 1; KeyLen := cryptocore_KeyLen |}) in *.
  set (cf' := set_EncryptedKey _ _) in *.
  assert (Load (filename cf) w2 = (Ok cf', w2)) as HLoad.
  { change (filename cf) with (filename cf').
    rewrite (WriteFile_then_Load cf' w1' w2 ltac:(congruence) HW).
    by apply Load_checks_pass. }
  assert (DecryptMasterKey cf' password = Ok key) as Hkey.
  { apply (DecryptMasterKey_wrapped cf s key password nonce Hnonce). }
  split.
  - unfold LoadAndDecrypt, bind. rewrite HLoad.
    destruct (length password =? 0); [done|].
    unfold lift. by rewrite Hkey.
  - intros password' Hpw' Hrej. unfold LoadAndDecrypt, bind. rewrite HLoad.
    destruct password' as [|b password']; [done|]. cbn [length Nat.eqb].
    unfold lift, DecryptMasterKey. unfold kekRejected in Hrej.
    by destruct (DecryptBlock _ _ _ _).
Qed.

End MoreConfigFileFacts.

Lemma cf_plaintextnames_diriv_known :
  ~ configfile.hasUnknownFlag fixtures.cf_plaintextnames_diriv.
Proof.
  intros (flag & Hin & Hunknown). cbn in Hin.
  repeat (apply elem_of_cons in Hin as [->|Hin]; [discriminate|]).
  by apply not_elem_of_nil in Hin.
Qed.

Lemma cf_plaintextnames_diriv_required :
  ~ configfile.missesRequiredFlag fixtures.cf_plaintextnames_diriv.
Proof.
  intros (i & Hin & Hset). vm_compute in Hin.
  repeat (apply elem_of_cons in Hin as [->|Hin]; [discriminate|]).
  by apply not_elem_of_nil in Hin.
Qed.

Lemma WriteFile_failure_blocks_retry_witness :
  configfile.WriteFile (X := fixtures.X)
    (configfile.set_filename "gocryptfs.conf" fixtures.cf_plaintextnames_diriv)
    (configfile.WriteFile (X := fixtures.X)
       (configfile.set_filename "gocryptfs.conf"
          fixtures.cf_plaintextnames_diriv)
       (fixtures.with_fault SysWrite EIO fixtures.w0)).2
  = (Error (syscall_Errno EEXIST),
     (configfile.WriteFile (X := fixtures.X)
        (configfile.set_filename "gocryptfs.conf"
           fixtures.cf_plaintextnames_diriv)
        (fixtures.with_fault SysWrite EIO fixtures.w0)).2).
Proof.
  apply (WriteFile_failure_blocks_retry (X := fixtures.X)
           (configfile.set_filename "gocryptfs.conf"
              fixtures.cf_plaintextnames_diriv)
           (fixtures.with_fault SysWrite EIO fixtures.w0) _
           (syscall_Errno EIO)).
  - reflexivity.
  - reflexivity.
  - vm_compute. reflexivity.
Defined.

Lemma WriteFile_fsync_tolerated_witness :
  exists w',
    configfile.WriteFile (X := fixtures.X)
      (configfile.set_filename "gocryptfs.conf"
         fixtures.cf_plaintextnames_diriv)
      (fixtures.with_fault SysFsync EIO fixtures.w0) = (Ok tt, w') /\
    files w' !! "gocryptfs.conf"
    = Some (fixtures.conf_of fixtures.cf_plaintextnames_diriv) /\
    files w' !! "gocryptfs.conf.tmp" = None.
Proof.
  apply (WriteFile_fsync_tolerated (X := fixtures.X)
           (configfile.set_filename "gocryptfs.conf"
              fixtures.cf_plaintextnames_diriv)
           (fixtures.with_fault SysFsync EIO fixtures.w0)).
  - reflexivity.
  - reflexivity.
  - intros s Hs. cbn. by rewrite decide_False.
Defined.

Lemma WriteFile_frame_witness :
  files
    (configfile.WriteFile (X := fixtures.X)
       (configfile.set_filename "gocryptfs.conf"
          fixtures.cf_plaintextnames_diriv)
       (fixtures.with_file "gocryptfs.diriv" [x2a] fixtures.w0)).2
    !! "gocryptfs.diriv" = Some [x2a].
Proof.
  refine (eq_trans
            (proj1 (WriteFile_frame (X := fixtures.X)
                      (configfile.set_filename "gocryptfs.conf"
                         fixtures.cf_plaintextnames_diriv)
                      (fixtures.with_file "gocryptfs.diriv" [x2a] fixtures.w0)
                      "gocryptfs.diriv" _ _)) _).
  - discriminate.
  - discriminate.
  - vm_compute. reflexivity.
Defined.

Lemma WriteFile_Load_witness :
  configfile.Load (X := fixtures.X) "gocryptfs.conf"
    (configfile.WriteFile (X := fixtures.X)
       (configfile.set_filename "gocryptfs.conf"
          fixtures.cf_plaintextnames_diriv) fixtures.w0).2
  = (Ok (configfile.set_filename "gocryptfs.conf"
           fixtures.cf_plaintextnames_diriv),
     (configfile.WriteFile (X := fixtures.X)
        (configfile.set_filename "gocryptfs.conf"
           fixtures.cf_plaintextnames_diriv) fixtures.w0).2).
Proof.
  apply (WriteFile_Load (X := fixtures.X) (JL := fixtures_X_json_laws)
           (configfile.set_filename "gocryptfs.conf"
              fixtures.cf_plaintextnames_diriv) fixtures.w0).
  - reflexivity.
  - vm_compute. reflexivity.
  - reflexivity.
  - exact cf_plaintextnames_diriv_known.
  - exact cf_plaintextnames_diriv_required.
Defined.

Lemma Create_fido2_params_witness :
  exists cf js,
    configfile.FIDO2 cf
    = {| configfile.CredentialID := []; configfile.HMACSalt := [] |} /\
    configfile.IsFeatureFlagSet cf configfile.FlagFIDO2 = false /\
    configfile.Creator cf = "gocryptfs" /\
    configfile.json_MarshalIndent cf = Ok js /\
    files (configfile.Create (X := fixtures.X) "gocryptfs.conf"
             fixtures.testPw false 10 "gocryptfs" false false [] [x01; x02]
             fixtures.w0).2 !! "gocryptfs.conf"
    = Some (js ++ [configfile.newline]).
Proof.
  destruct (Create_fido2_params (X := fixtures.X) "gocryptfs.conf"
              fixtures.testPw false 10 "gocryptfs" false false [] [x01; x02]
              fixtures.w0)
    as (cf & _ & Hcreator & _ & Hfido & Hflag & _ & Hwritten & _).
  destruct (Hwritten
              (configfile.Create (X := fixtures.X) "gocryptfs.conf"
                 fixtures.testPw false 10 "gocryptfs" false false []
                 [x01; x02] fixtures.w0).2) as (js & Hjs & Hfile).
  { vm_compute. reflexivity. }
  exists cf, js. split_and!.
  - exact Hfido.
  - exact Hflag.
  - exact Hcreator.
  - exact Hjs.
  - exact Hfile.
Defined.

Lemma EncryptKey_WriteFile_LoadAndDecrypt_witness :
  exists cf' w2,
    configfile.LoadAndDecrypt (X := fixtures.X) "gocryptfs.conf"
      (bytes_of_string "new password") w2
    = (Ok (fixtures.testKey, cf'), w2) /\
    configfile.LoadAndDecrypt (X := fixtures.X) "gocryptfs.conf"
      fixtures.testPw w2
    = (Error configfile.errPasswordIncorrect, w2).
Proof.
  pose (cf := configfile.set_filename "gocryptfs.conf"
                fixtures.cf_plaintextnames_diriv).
  pose (r1 := configfile.EncryptKey (X := fixtures.X) cf fixtures.testKey
                (bytes_of_string "new password") 10 fixtures.w0).
  pose (cf' := match r1.1 with Ok c => c | Error _ => cf end).
  pose (r2 := configfile.WriteFile (X := fixtures.X) cf' r1.2).
  destruct (EncryptKey_WriteFile_LoadAndDecrypt (X := fixtures.X)
              (XL := fixtures_X_laws) (JL := fixtures_X_json_laws)
              cf cf' fixtures.testKey (bytes_of_string "new password") 10
              fixtures.w0 r1.2 r2.2) as [Hnew Hold].
  - reflexivity.
  - reflexivity.
  - exact cf_plaintextnames_diriv_known.
  - exact cf_plaintextnames_diriv_required.
  - vm_compute. reflexivity.
  - vm_compute. reflexivity.
  - exists cf', r2.2. split; [exact Hnew|].
    apply Hold; [discriminate|]. vm_compute. exact I.
Defined.

(** ** base64: what the decoder rejects *)
Section MoreBase64Facts.
Import base64.

(** Every character [EncodeToString] writes is a letter of the alphabet,
    or the padding character in the padded encoding. *)
Lemma EncodeToString_charset enc (src : list byte) :
  Forall (fun c => is_Some (decode_char c) \/
                   (c = padChar /\ enc = URLEncoding))
    (String.list_ascii_of_string (EncodeToString enc src)).
Proof.
  assert (forall s, is_Some (decode_char (encode_char s)) \/
                    (encode_char s = padChar /\ enc = URLEncoding)) as Hc.
  { intros s. left. rewrite decode_char_encode_char. by eexists. }
  induction src as [|a|a b|a b c rest IH] using list_ind3.
  - constructor.
  - cbn [EncodeToString]. destruct (split3 a x00 x00) as [[[s1 s2] s3] s4].
    destruct enc; cbn [padded str1 String.list_ascii_of_string];
      repeat (constructor; [first [apply Hc|by right]|]); constructor.
  - cbn [EncodeToString]. destruct (split3 a b x00) as [[[s1 s2] s3] s4].
    destruct enc; cbn [padded str1 String.list_ascii_of_string];
      repeat (constructor; [first [apply Hc|by right]|]); constructor.
  - cbn [EncodeToString]. destruct (split3 a b c) as [[[s1 s2] s3] s4].
    cbn [String.list_ascii_of_string]. repeat (constructor; [apply Hc|]).
    exact IH.
Qed.

Lemma skip_newlines_length (si : nat) (s : string) :
  String.length (skip_newlines si s).2 <= String.length s.
Proof.
  revert si. induction s as [|c s IH]; intros si; cbn [skip_newlines];
    [done|].
  destruct (is_newline c); cbn [String.length]; [|done].
  specialize (IH (S si)). lia.
Qed.

(** A character that is neither a letter, nor padding, nor a line break
    stops [skip_newlines]. *)
Lemma skip_newlines_stop (si : nat) (c : ascii) (r : string) :
  is_newline c = false -> skip_newlines si (String c r) = (si, String c r).
Proof. intros Hc. cbn [skip_newlines]. by rewrite Hc. Qed.

Lemma quantum_bytes_length (dbuf : list sextet) :
  length (quantum_bytes dbuf) = Nat.pred (length dbuf) \/ 4 < length dbuf
  \/ length dbuf = 0.
Proof.
  destruct dbuf as [|s1 [|s2 [|s3 [|s4 [|s5 dbuf]]]]]; cbn [length].
  - by right; right.
  - by left.
  - left. unfold quantum_bytes. by destruct (join3 _ _ _ _) as [[? ?] ?].
  - left. unfold quantum_bytes. by destruct (join3 _ _ _ _) as [[? ?] ?].
  - left. unfold quantum_bytes. by destruct (join3 _ _ _ _) as [[? ?] ?].
  - right; left. lia.
Qed.

Lemma finish_quantum_Ok (si : nat) (dbuf : list sextet) (s : string)
    (bin : list byte) :
  finish_quantum si dbuf s = Ok bin -> bin = quantum_bytes dbuf.
Proof.
  unfold finish_quantum. destruct (skip_newlines si s) as [si' [|c s']];
    [|discriminate]. by intros [= <-].
Qed.

(** Four characters other than line breaks carry at most three bytes, and
    in a padded encoding those characters come in groups of four. [m]
    counts them, the [dbuf] sextets of the quantum under way included. *)
Lemma decode_from_length enc (s : string) :
  forall si (dbuf : list sextet) (bin : list byte),
    length dbuf <= 3 ->
    decode_from enc si dbuf s = Ok bin ->
    exists m,
      m <= length dbuf + String.length s /\
      4 * length bin <= 3 * m /\
      (padded enc = true -> m mod 4 = 0).
Proof.
  induction s as [|c rest IH]; intros si dbuf bin Hdbuf; cbn [decode_from].
  - destruct dbuf as [|s1 [|s2 [|s3 [|s4 dbuf]]]]; cbn [length] in *;
      try lia.
    + intros [= <-]. exists 0. cbn. split_and!; [lia|lia|done].
    + discriminate.
    + cbn [Nat.eqb orb]. destruct (padded enc); [discriminate|].
      intros [= <-]. exists 2. unfold quantum_bytes.
      destruct (join3 _ _ _ _) as [[? ?] ?]. cbn. split_and!; [lia|lia|done].
    + cbn [Nat.eqb orb]. destruct (padded enc); [discriminate|].
      intros [= <-]. exists 3. unfold quantum_bytes.
      destruct (join3 _ _ _ _) as [[? ?] ?]. cbn. split_and!; [lia|lia|done].
  - destruct (decode_char c) as [out|].
    + destruct (length dbuf =? 3) eqn:Hfull.
      * apply Nat.eqb_eq in Hfull.
        destruct (decode_from enc (S si) [] rest) as [l|] eqn:Hrest;
          [|discriminate].
        intros [= <-].
        destruct (IH (S si) [] l ltac:(cbn; lia) Hrest)
          as (m & Hm & Hlen & Hmod).
        destruct dbuf as [|s1 [|s2 [|s3 [|s4 dbuf]]]]; cbn [length] in *;
          try lia.
        exists (m + 1 * 4). cbn [app]. unfold quantum_bytes.
        destruct (join3 _ _ _ _) as [[? ?] ?]. cbn [app length String.length].
        split_and!; [lia|lia|].
        intros Hp. rewrite Nat.Div0.mod_add. auto.
      * apply Nat.eqb_neq in Hfull. intros Hrest.
        destruct (IH (S si) (dbuf ++ [out]) bin
                    ltac:(rewrite length_app; cbn; lia) Hrest)
          as (m & Hm & Hlen & Hmod).
        exists m. rewrite length_app in Hm. cbn [length String.length] in *.
        split_and!; [lia|lia|done].
    + destruct (is_newline c).
      { intros Hrest.
        destruct (IH _ _ _ Hdbuf Hrest) as (m & Hm & Hlen & Hmod).
        exists m. cbn [String.length]. split_and!; [lia|lia|done]. }
      destruct (negb (padded enc && is_pad c)); [discriminate|].
      destruct dbuf as [|s1 [|s2 [|s3 [|s4 dbuf]]]]; cbn [length] in *;
        try lia; try discriminate.
      * pose proof (skip_newlines_length (S si) rest) as Hskip.
        destruct (skip_newlines (S si) rest) as [si2 [|c2 rest2]];
          [discriminate|].
        destruct (is_pad c2); [|discriminate].
        intros ->%finish_quantum_Ok. exists 4. unfold quantum_bytes.
        destruct (join3 _ _ _ _) as [[? ?] ?].
        cbn [length String.length snd] in *. split_and!; [lia|lia|done].
      * intros ->%finish_quantum_Ok. exists 4. unfold quantum_bytes.
        destruct (join3 _ _ _ _) as [[? ?] ?].
        cbn [length String.length]. split_and!; [lia|lia|done].
Qed.

(** A character that is no letter of the alphabet, no padding and no line
    break, after an encoded string, makes the decoder fail, whatever follows
    it. *)
Lemma decode_from_garbage enc (src : list byte) (c : ascii) (r : string) :
  decode_char c = None -> is_pad c = false -> is_newline c = false ->
  forall si,
    is_Error (decode_from enc si [] (EncodeToString enc src +:+ String c r)).
Proof.
  intros Hc Hpc Hnl.
  assert (forall si dbuf, is_Error (decode_from enc si dbuf (String c r)))
    as Hstop.
  { intros si dbuf. cbn [decode_from]. rewrite Hc, Hnl, Hpc, andb_false_r.
    done. }
  assert (forall si dbuf, is_Error (finish_quantum si dbuf (String c r)))
    as Hfinish.
  { intros si dbuf. unfold finish_quantum. by rewrite skip_newlines_stop. }
  induction src as [|a|a b|a b c' rest IH] using list_ind3; intros si.
  - apply Hstop.
  - cbn [EncodeToString]. destruct (split3 a x00 x00) as [[[s1 s2] s3] s4].
    destruct enc; cbn [padded]; unfold str1.
    + change (String ?x (String ?y (String ?z (String ?u EmptyString))) +:+ ?t)
        with (String x (String y (String z (String u t)))).
      rewrite !decode_from_letter. cbn [length Nat.eqb app decode_from].
      change (decode_char padChar) with (@None sextet).
      change (is_newline padChar) with false.
      change (is_pad padChar) with true. cbn [padded andb negb length].
      rewrite skip_newlines_stop by done.
      change (is_pad padChar) with true. cbv beta iota. apply Hfinish.
    + change (String ?x (String ?y EmptyString) +:+ ?t)
        with (String x (String y t)).
      rewrite !decode_from_letter. cbn [length Nat.eqb app]. apply Hstop.
  - cbn [EncodeToString]. destruct (split3 a b x00) as [[[s1 s2] s3] s4].
    destruct enc; cbn [padded]; unfold str1.
    + change (String ?x (String ?y (String ?z (String ?u EmptyString))) +:+ ?t)
        with (String x (String y (String z (String u t)))).
      rewrite !decode_from_letter. cbn [length Nat.eqb app decode_from].
      change (decode_char padChar) with (@None sextet).
      change (is_newline padChar) with false.
      change (is_pad padChar) with true. cbn [padded andb negb length].
      apply Hfinish.
    + change (String ?x (String ?y (String ?z EmptyString)) +:+ ?t)
        with (String x (String y (String z t))).
      rewrite !decode_from_letter. cbn [length Nat.eqb app]. apply Hstop.
  - cbn [EncodeToString]. destruct (split3 a b c') as [[[s1 s2] s3] s4].
    change (String ?x (String ?y (String ?z (String ?u ?v))) +:+ ?t)
      with (String x (String y (String z (String u (v +:+ t))))).
    rewrite !decode_from_letter. cbn [length Nat.eqb app].
    specialize (IH (S (S (S (S si))))).
    by destruct (decode_from enc _ [] _).
Qed.

End MoreBase64Facts.

(** ** nametransform: what encrypted names look like *)
Section MoreNameFacts.
Import nametransform.

Variable filepath_Match : string -> string -> result bool.

Lemma bytes_of_string_length (s : string) :
  length (bytes_of_string s) = String.length s.
Proof.
  unfold String.list_byte_of_string. rewrite length_map.
  induction s as [|c s IH]; cbn; [done|]. by rewrite IH.
Qed.

Lemma pad16_length_blocks (orig : list byte) :
  length (pad16 orig) = 16 * (length orig / 16 + 1).
Proof.
  rewrite pad16_length. unfold aes_BlockSize.
  pose proof (Nat.mod_upper_bound (length orig) 16 ltac:(lia)).
  pose proof (Nat.div_mod_eq (length orig) 16). lia.
Qed.

Lemma list_ascii_of_string_app (s t : string) :
  String.list_ascii_of_string (s +:+ t)
  = String.list_ascii_of_string s ++ String.list_ascii_of_string t.
Proof.
  induction s as [|c s IH]; [done|].
  change (String c s +:+ t) with (String c (s +:+ t)). cbn. by rewrite IH.
Qed.

(** X17. Whatever the ciphertext name and the IV (a corrupted or fuzzed
    filesystem included), a name decryptName returns holds no NUL byte and
    no "/", and is neither "." nor "..". *)
Theorem decryptName_never_invalid (n : NameTransform) (cipherName : string)
    (iv : list byte) :
  match decryptName n cipherName iv with
  | Ok plain =>
      (NUL ∉ bytes_of_string plain) /\ (slash ∉ bytes_of_string plain) /\
      plain <> "." /\ plain <> ".."
  | Error _ => True
  end.
Proof.
  unfold decryptName.
  destruct (base64.DecodeString (B64 n) cipherName) as [bin|]; [|done].
  destruct (length bin =? 0); [done|].
  destruct (negb _); [done|].
  destruct (unPad16 _) as [name|]; [|done].
  destruct (bytes_Contains1 name NUL) eqn:Hnul; [done|].
  destruct (bytes_Contains1 name slash) eqn:Hsl; [done|]. cbn [orb].
  unfold bytes_Equal.
  destruct (decide (name = [dot])) as [->|Hd1].
  { by rewrite bool_decide_eq_true_2. }
  destruct (decide (name = [dot; dot])) as [->|Hd2].
  { rewrite bool_decide_eq_false_2 by done. by rewrite bool_decide_eq_true_2. }
  rewrite !bool_decide_eq_false_2 by done. cbn [orb].
  rewrite String.list_byte_of_string_of_list_byte.
  split_and!.
  - intros H%bytes_Contains1_true. congruence.
  - intros H%bytes_Contains1_true. congruence.
  - intros H. apply Hd1.
    by rewrite <- (String.list_byte_of_string_of_list_byte name), H.
  - intros H. apply Hd2.
    by rewrite <- (String.list_byte_of_string_of_list_byte name), H.
Qed.

(** X18. An encrypted name consists of letters of the URL-safe base64
    alphabet, and of "=" in the padded encoding only. So it holds no "/"
    and no ".", and can never clash with gocryptfs.conf or with
    .gocryptfs.reverse.conf. *)
Theorem EncryptName_charset (n : NameTransform) (plainName : string)
    (iv : list byte) :
  Forall (fun c => is_Some (base64.decode_char c) \/
                   (c = "="%char /\ B64 n = base64.URLEncoding))
    (String.list_ascii_of_string (EncryptName n plainName iv)) /\
  ("/"%char ∉ String.list_ascii_of_string (EncryptName n plainName iv)) /\
  ("."%char ∉ String.list_ascii_of_string (EncryptName n plainName iv)) /\
  EncryptName n plainName iv <> configfile.ConfDefaultName /\
  EncryptName n plainName iv <> configfile.ConfReverseName.
Proof.
  pose proof (EncodeToString_charset (B64 n)
                (eme_Encrypt (emeCipher n) iv
                   (pad16 (bytes_of_string plainName)))) as Hall.
  fold (EncryptName n plainName iv) in Hall.
  assert (forall c, base64.decode_char c = None -> c <> "="%char ->
                    c ∉ String.list_ascii_of_string (EncryptName n plainName iv))
    as Hnot.
  { intros c Hc Hpad Hin. rewrite Forall_forall in Hall.
    destruct (Hall c Hin) as [[s Hs]|[-> _]]; [congruence|done]. }
  pose proof (Hnot "."%char eq_refl ltac:(discriminate)) as Hdot.
  split_and!.
  - exact Hall.
  - by apply Hnot.
  - exact Hdot.
  - intros Heq. apply Hdot. rewrite Heq. cbn. set_solver.
  - intros Heq. apply Hdot. rewrite Heq. cbn. set_solver.
Qed.

(** X19. With a cipher that keeps the length of its input, the encrypted
    name of a plaintext name of [len] bytes has
    B64.EncodedLen(16 * (len / 16 + 1)) characters; it fits into NameMax
    (255) exactly when the plaintext name is shorter than 176 bytes, in
    both encodings. *)
Theorem EncryptName_length (n : NameTransform) (plainName : string)
    (iv : list byte) :
  length (eme_Encrypt (emeCipher n) iv (pad16 (bytes_of_string plainName)))
  = length (pad16 (bytes_of_string plainName)) ->
  String.length (EncryptName n plainName iv)
  = base64.EncodedLen (B64 n) (16 * (String.length plainName / 16 + 1)) /\
  (String.length (EncryptName n plainName iv) <= NameMax <->
   String.length plainName < 176).
Proof.
  intros Hlen.
  assert (String.length (EncryptName n plainName iv)
          = base64.EncodedLen (B64 n) (16 * (String.length plainName / 16 + 1)))
    as Heq.
  { unfold EncryptName.
    by rewrite EncodeToString_length, Hlen, pad16_length_blocks,
         bytes_of_string_length. }
  split; [exact Heq|]. rewrite Heq. unfold base64.EncodedLen, NameMax.
  pose proof (Nat.div_mod_eq (String.length plainName) 16) as Hdm.
  pose proof (Nat.mod_upper_bound (String.length plainName) 16 ltac:(lia)) as Hlt.
  remember (String.length plainName / 16) as k eqn:Hk.
  remember (String.length plainName mod 16) as r eqn:Hr.
  clear Hk Hr Heq. destruct (base64.padded (B64 n)).
  - pose proof (Nat.div_mod_eq (16 * (k + 1) + 2) 3).
    pose proof (Nat.mod_upper_bound (16 * (k + 1) + 2) 3 ltac:(lia)). lia.
  - pose proof (Nat.div_mod_eq (16 * (k + 1)) 3) as Hq.
    pose proof (Nat.mod_upper_bound (16 * (k + 1)) 3 ltac:(lia)) as Hm.
    remember ((16 * (k + 1)) mod 3) as m eqn:Hmdef. clear Hmdef.
    assert (m = 0 \/ m = 1 \/ m = 2) as Hcases by lia.
    destruct Hcases as [Hc|[Hc|Hc]]; subst m;
      [change ((0 * 8 + 5) / 6) with 0|change ((1 * 8 + 5) / 6) with 2
      |change ((2 * 8 + 5) / 6) with 3]; lia.
Qed.

(** X20. Under one IV, two different plaintext names never encrypt to the
    same name (for a cipher that inverts itself on the two padded
    names). *)
Theorem EncryptName_injective (n : NameTransform) (p1 p2 : string)
    (iv : list byte) :
  eme_inverts (emeCipher n) iv (pad16 (bytes_of_string p1)) ->
  eme_inverts (emeCipher n) iv (pad16 (bytes_of_string p2)) ->
  p1 <> p2 -> EncryptName n p1 iv <> EncryptName n p2 iv.
Proof.
  intros [H1 _] [H2 _] Hne Heq. apply Hne. unfold EncryptName in Heq.
  apply (f_equal (base64.DecodeString (B64 n))) in Heq.
  rewrite !DecodeString_EncodeToString in Heq. injection Heq as Heq.
  apply (f_equal (eme_Decrypt (emeCipher n) iv)) in Heq.
  rewrite H1, H2 in Heq. apply (f_equal unPad16) in Heq.
  rewrite !unPad16_pad16 in Heq. injection Heq as Heq.
  by rewrite <- (String.string_of_list_byte_of_string p1), Heq,
       String.string_of_list_byte_of_string.
Qed.

(** No name shorter than the encoding of one AES block decrypts. *)
Lemma decryptName_short (n : NameTransform) (cipherName : string)
    (iv : list byte) :
  String.length cipherName < base64.EncodedLen (B64 n) aes_BlockSize ->
  is_Error (decryptName n cipherName iv).
Proof.
  intros Hshort. unfold decryptName.
  destruct (base64.DecodeString (B64 n) cipherName) as [bin|] eqn:Hdec;
    [|done].
  apply decode_from_length in Hdec as (m & Hm & Hle & Hmod);
    [|cbn; lia].
  cbn [length Nat.add] in Hm.
  destruct (length bin =? 0) eqn:Hz; [done|]. apply Nat.eqb_neq in Hz.
  destruct (length bin mod aes_BlockSize =? 0) eqn:Hmul; [|done].
  exfalso. apply Nat.eqb_eq in Hmul.
  rewrite EncodedLen_BlockSize in Hshort. unfold aes_BlockSize in Hmul.
  pose proof (Nat.div_mod_eq (length bin) 16).
  destruct (B64 n); cbn [base64.padded] in Hmod.
  - specialize (Hmod eq_refl).
    pose proof (Nat.div_mod_eq m 4). lia.
  - lia.
Qed.

(** X21. No ciphertext name shorter than B64.EncodedLen(16) characters (22
    in raw, 24 in padded base64) decrypts, so the lower bound of the loop
    of DecryptName loses nothing: run down to 0 it finds the same
    prefix. *)
Theorem DecryptName_loop_bound (n : NameTransform) (cipherName : string)
    (iv : list byte) (charpos : nat) :
  (String.length cipherName < base64.EncodedLen (B64 n) aes_BlockSize ->
   is_Error (decryptName n cipherName iv)) /\
  longestPrefix n cipherName iv (base64.EncodedLen (B64 n) aes_BlockSize)
    charpos
  = longestPrefix n cipherName iv 0 charpos.
Proof.
  split; [apply decryptName_short|].
  set (nameMin := base64.EncodedLen (B64 n) aes_BlockSize).
  induction charpos as [|charpos IH]; cbn [longestPrefix].
  - destruct (0 <? nameMin) eqn:Hlt; [|done].
    apply Nat.ltb_lt in Hlt.
    pose proof (decryptName_short n (str_take 0 cipherName) iv) as Hs.
    destruct (decryptName n (str_take 0 cipherName) iv); [|done].
    exfalso. apply Hs. unfold str_take.
    by destruct cipherName.
  - change (S charpos <? 0) with false. cbv beta iota.
    destruct (S charpos <? nameMin) eqn:Hlt.
    + apply Nat.ltb_lt in Hlt.
      pose proof (decryptName_short n (str_take (S charpos) cipherName) iv)
        as Hs.
      destruct (decryptName n (str_take (S charpos) cipherName) iv).
      * exfalso. apply Hs. fold nameMin.
        assert (String.length (str_take (S charpos) cipherName) <= S charpos);
          [|lia].
        unfold str_take. generalize (S charpos). clear.
        induction cipherName as [|c s IHs]; intros [|m]; cbn; try lia.
        specialize (IHs m). lia.
      * rewrite <- IH. clear IH Hs.
        assert (forall c, c <= charpos ->
                  longestPrefix n cipherName iv nameMin c = None) as Hnone.
        { intros c Hc. destruct c; cbn [longestPrefix];
            by rewrite (proj2 (Nat.ltb_lt _ _)) by lia. }
        by rewrite Hnone.
    + by rewrite IH.
Qed.

Lemma str_take_app_le (p : nat) (s t : string) :
  p <= String.length s -> str_take p (s +:+ t) = str_take p s.
Proof.
  unfold str_take. revert p. induction s as [|c s IH]; intros p Hp.
  - cbn in Hp. assert (p = 0) as -> by lia. by destruct t.
  - destruct p as [|p]; [done|].
    change (String c s +:+ t) with (String c (s +:+ t)).
    cbn [String.substring]. f_equal. apply IH. cbn in Hp. lia.
Qed.

Lemma str_take_app_ge (k : nat) (s t : string) :
  str_take (String.length s + k) (s +:+ t) = s +:+ str_take k t.
Proof.
  unfold str_take. induction s as [|c s IH]; [done|].
  change (String c s +:+ t) with (String c (s +:+ t)).
  cbn [String.length Nat.add String.substring]. rewrite IH. done.
Qed.

Lemma str_drop_app_length (s t : string) :
  str_drop (String.length s) (s +:+ t) = t.
Proof.
  unfold str_drop. rewrite string_length_append.
  replace (String.length s + String.length t - String.length s)
    with (String.length t) by lia.
  induction s as [|c s IH]; [apply substring_0_length|].
  change (String c s +:+ t) with (String c (s +:+ t)).
  cbn [String.length String.substring]. exact IH.
Qed.

(** X22. A valid encrypted name followed by a suffix that starts with a
    character outside the base64 alphabet (other than "=", and other than
    CR and LF, which the decoder of the Go library skips), as a sync tool
    appends ".conflict": when a badname pattern matches, DecryptName
    returns the plaintext name, then the suffix untouched, then
    " GOCRYPTFS_BAD_NAME". *)
Theorem DecryptName_conflict_suffix (n : NameTransform) (plainName : string)
    (iv : list byte) (c : ascii) (rest : string) :
  validName plainName ->
  eme_inverts (emeCipher n) iv (pad16 (bytes_of_string plainName)) ->
  base64.decode_char c = None ->
  c <> "="%char -> c <> "010"%char -> c <> "013"%char ->
  (exists pattern,
      pattern ∈ BadnamePatterns n /\
      filepath_Match pattern (EncryptName n plainName iv +:+ String c rest)
      = Ok true) ->
  DecryptName filepath_Match n (EncryptName n plainName iv +:+ String c rest) iv
  = Ok (plainName +:+ String c rest +:+ " GOCRYPTFS_BAD_NAME").
Proof.
  intros Hvalid Hinv Hc Hpad Hlf Hcr Hmatch.
  assert (base64.is_pad c = false) as Hpc.
  { unfold base64.is_pad. by apply Ascii.eqb_neq. }
  assert (base64.is_newline c = false) as Hnl.
  { unfold base64.is_newline. apply orb_false_iff.
    split; by apply Ascii.eqb_neq. }
  set (E := EncryptName n plainName iv) in *.
  pose proof (decryptName_EncryptName n plainName iv Hvalid Hinv) as HE.
  fold E in HE.
  assert (forall r, is_Error (decryptName n (E +:+ String c r) iv)) as Hjunk.
  { intros r. unfold decryptName, base64.DecodeString.
    pose proof (decode_from_garbage (B64 n)
                  (eme_Encrypt (emeCipher n) iv
                     (pad16 (bytes_of_string plainName))) c r Hc Hpc Hnl 0)
      as Hg.
    fold (EncryptName n plainName iv) in Hg. fold E in Hg.
    by destruct (base64.decode_from (B64 n) 0 [] (E +:+ String c r)). }
  assert (base64.EncodedLen (B64 n) aes_BlockSize <= String.length E) as Hmin.
  { apply Nat.nlt_ge. intros Hlt.
    pose proof (decryptName_short n E iv Hlt) as Hs. by rewrite HE in Hs. }
  unfold DecryptName.
  pose proof (Hjunk rest) as Hfull.
  destruct (decryptName n (E +:+ String c rest) iv) as [|err]; [done|].
  clear Hfull.
  rewrite (rangePatterns_match filepath_Match _ _ _ _ Hmatch). unfold badname.
  rewrite string_length_append. cbn [String.length].
  replace (String.length E + S (String.length rest))
    with (S (String.length E + String.length rest)) by lia.
  set (nameMin := base64.EncodedLen (B64 n) aes_BlockSize) in *.
  set (last := String.length E + String.length rest).
  assert (forall p, String.length E < p ->
            is_Error (decryptName n (str_take p (E +:+ String c rest)) iv))
    as Hlonger.
  { intros p Hp.
    replace p with (String.length E + S (p - String.length E - 1)) by lia.
    rewrite str_take_app_ge. unfold str_take at 1.
    cbn [String.substring]. apply Hjunk. }
  assert (decryptName n (str_take (String.length E) (E +:+ String c rest)) iv
          = Ok plainName) as Hat.
  { rewrite str_take_app_le by lia. unfold str_take.
    by rewrite substring_0_length. }
  pose proof (longestPrefix_spec n (E +:+ String c rest) iv nameMin last)
    as Hspec.
  destruct (longestPrefix n (E +:+ String c rest) iv nameMin last) as [name|].
  - destruct Hspec as (p & res & Hp & Hres & Hfail & ->).
    assert (p = String.length E) as ->.
    { destruct (Nat.lt_trichotomy p (String.length E)) as [Hlt|[?|Hgt]];
        [|done|].
      - specialize (Hfail (String.length E) ltac:(lia)).
        by rewrite Hat in Hfail.
      - specialize (Hlonger p Hgt). by rewrite Hres in Hlonger. }
    rewrite Hat in Hres. injection Hres as <-.
    by rewrite str_drop_app_length.
  - specialize (Hspec (String.length E) ltac:(lia)). by rewrite Hat in Hspec.
Qed.

End MoreNameFacts.

Lemma EncryptName_length_witness :
  String.length
    (nametransform.EncryptName fixtures.nt "file.txt" fixtures.iv1) = 22 /\
  (String.length
     (nametransform.EncryptName fixtures.nt "file.txt" fixtures.iv1)
   <= nametransform.NameMax <-> 8 < 176).
Proof.
  apply (EncryptName_length fixtures.nt "file.txt" fixtures.iv1).
  vm_compute. reflexivity.
Defined.

Lemma EncryptName_injective_witness :
  nametransform.EncryptName fixtures.nt "a" fixtures.iv1
  <> nametransform.EncryptName fixtures.nt "b" fixtures.iv1.
Proof.
  apply (EncryptName_injective fixtures.nt "a" "b" fixtures.iv1).
  - split; vm_compute; reflexivity.
  - split; vm_compute; reflexivity.
  - discriminate.
Defined.

Lemma DecryptName_conflict_suffix_witness :
  nametransform.DecryptName fixtures.filepath_Match fixtures.nt
    (nametransform.EncryptName fixtures.nt "file.txt" fixtures.iv1
     +:+ ".conflict") fixtures.iv1
  = Ok "file.txt.conflict GOCRYPTFS_BAD_NAME".
Proof.
  apply (DecryptName_conflict_suffix fixtures.filepath_Match fixtures.nt
           "file.txt" fixtures.iv1 "."%char "conflict").
  - exact validName_file_txt.
  - split; vm_compute; reflexivity.
  - reflexivity.
  - discriminate.
  - discriminate.
  - discriminate.
  - exists "*.conflict". split; [apply list_elem_of_here|].
    vm_compute. reflexivity.
Defined.

(** ** cli_args: parsing, post-processing and helpers *)
Section MorePrefixOArgsFacts.
Import cli.

Lemma renderAll_plain (items : list cliItem) :
  oGroups items = [] -> renderAll items = plainArgs items.
Proof.
  unfold renderAll, oGroups, plainArgs.
  induction items as [|[opts|opts|arg] items IH];
    cbn [fmap list_fmap concat render omap list_omap app]; try done.
  intros H. by rewrite IH.
Qed.

(** prefixOArgs on a rendered command line of at least three elements
    without "--". *)
Lemma prefixOArgs_rendered (prog : string) (items : list cliItem) :
  Forall wellFormedItem items ->
  "--" ∉ renderAll items ->
  2 <= length (renderAll items) ->
  prefixOArgs (prog :: renderAll items) =
  match last (oGroups items) with
  | None => Return (Ok (prog :: renderAll items))
  | Some opts =>
      if existsb isOOpt (strings_Split_comma opts) then Exit exitcodes.Usage
      else Return (Ok (prog :: expand opts ++ plainArgs items))
  end.
Proof.
  intros Hwf Hdash Hlen. unfold prefixOArgs.
  destruct (length (prog :: renderAll items) <? 3) eqn:Hlt.
  { apply Nat.ltb_lt in Hlt. cbn in Hlt. lia. }
  cbn [tail].
  destruct (existsb (fun v => String.eqb v "--") (renderAll items)) eqn:Hex.
  { exfalso. apply existsb_exists in Hex as (v & Hin & ->%String.eqb_eq).
    by apply Hdash, list_elem_of_In. }
  rewrite (extractOArgs_renderAll items Hwf).
  destruct (last (oGroups items)) as [opts|] eqn:Hlast.
  - rewrite addOOpts_spec.
    destruct (existsb isOOpt (strings_Split_comma opts)); [done|].
    cbn [take app]. unfold expand. by rewrite app_nil_l.
  - apply last_None in Hlast. cbn [addOOpts take app].
    by rewrite renderAll_plain.
Qed.

Context {E : Env}.

(** X23. parseCliOptsDiy and parseCliOpts parse what prefixOArgs returns:
    on a command line of at least three elements without "--", the options
    of the last "-o" occurrence come first, expanded, then all other
    arguments in their order (with no "-o" the command line is parsed as it
    is); the process exits with the usage code when that last group names
    "o" or "-o", and also when "-o" is the last argument. *)
Theorem parseCliOptsDiy_expands (prog : string) (items : list cliItem) :
  Forall wellFormedItem items ->
  "--" ∉ renderAll items ->
  (2 <= length (renderAll items) ->
   parseCliOptsDiy (prog :: renderAll items) =
   match last (oGroups items) with
   | None => parseCliOptsBase (prog :: renderAll items)
   | Some opts =>
       if existsb isOOpt (strings_Split_comma opts) then Exit exitcodes.Usage
       else parseCliOptsBase (prog :: expand opts ++ plainArgs items)
   end) /\
  (1 <= length (renderAll items) ->
   parseCliOptsDiy (prog :: renderAll items ++ ["-o"]) = Exit exitcodes.Usage) /\
  parseCliOpts (prog :: renderAll items)
  = parseCliOptsDiy (prog :: renderAll items).
Proof.
  intros Hwf Hdash. split_and!; [| |done].
  - intros Hlen. unfold parseCliOptsDiy.
    rewrite (prefixOArgs_rendered prog items Hwf Hdash Hlen).
    destruct (last (oGroups items)) as [opts|]; [|done].
    by destruct (existsb isOOpt (strings_Split_comma opts)).
  - intros Hlen. unfold parseCliOptsDiy, prefixOArgs.
    destruct (length _ <? 3) eqn:Hlt.
    { apply Nat.ltb_lt in Hlt. cbn in Hlt. rewrite length_app in Hlt.
      cbn in Hlt. lia. }
    cbn [tail].
    destruct (existsb _ (renderAll items ++ ["-o"])) eqn:Hex.
    { exfalso. apply existsb_exists in Hex as (v & Hin & ->%String.eqb_eq).
      apply in_app_or in Hin as [Hin|[Heq|[]]]; [|discriminate].
      by apply Hdash, list_elem_of_In. }
    by rewrite (extractOArgs_dangling items Hwf).
Qed.

End MorePrefixOArgsFacts.

Section MoreParseCliOptsFacts.
Import cli.
Context {E : Env}.

(** X24. On a command line that names the program (a non-empty os.Args;
    on an empty one the slice os.Args[1:] panics), parseCliOptsBase ends
    the process with two exit codes only: 0 exactly when the flag package
    reports a request for help, and the usage code for everything else. *)
Theorem parseCliOptsBase_exit_codes (osArgs : list string) (code : Z) :
  osArgs <> [] ->
  parseCliOptsBase osArgs = Exit code ->
  (code = 0%Z /\ flagSet_Parse (tail osArgs) = ParseErrHelp) \/
  (code = exitcodes.Usage /\ flagSet_Parse (tail osArgs) <> ParseErrHelp).
Proof.
  intros _. unfold parseCliOptsBase.
  destruct (flagSet_Parse (tail osArgs)) as [|err|args opensslAuto passed].
  - intros [= <-]. by left.
  - intros [= <-]. by right.
  - intros Hexit. right. split; [|done].
    destruct (if String.eqb opensslAuto "auto" then _ else _) as [b|];
      [|by injection Hexit].
    set (args1 := set_openssl b _) in *.
    destruct (checkForcedecode_sources args1 opensslAuto)
      as [HF|(args' & HF & _)]; rewrite HF in Hexit; [by injection Hexit|].
    revert Hexit. unfold checkExclusive.
    repeat (destruct (_ && _); [by intros [= <-]|]).
    destruct (_ <? _)%Z; [by intros [= <-]|done].
Qed.

(** X25. What every caller of parseCliOptsBase can rely on: the arguments
    it returns have an extpass only without passfile, masterkey and fido2,
    not both a passfile and a masterkey, no negative idle time, and
    "-forcedecode" only without "-aessiv" and "-reverse", with openssl on,
    in a build with openssl. *)
Theorem parseCliOptsBase_return_invariant (osArgs : list string)
    (args' : argContainer) :
  parseCliOptsBase osArgs = Return args' ->
  (extpass args' = [] \/
   (passfile args' = [] /\ masterkey args' = "" /\ fido2 args' = "")) /\
  (passfile args' = [] \/ masterkey args' = "") /\
  (0 <= idle args')%Z /\
  (forcedecode args' = true ->
   stupidgcm_BuiltWithoutOpenssl = false /\ aessiv args' = false /\
   reverse args' = false /\ openssl args' = true).
Proof.
  unfold parseCliOptsBase.
  destruct (flagSet_Parse (tail osArgs)) as [|err|args opensslAuto passed];
    [done..|].
  destruct (if String.eqb opensslAuto "auto" then _ else _) as [b|]; [|done].
  set (args1 := set_openssl b _).
  assert (forall args2,
    checkForcedecode args1 opensslAuto = Return args2 ->
    forcedecode args2 = true ->
    stupidgcm_BuiltWithoutOpenssl = false /\ aessiv args2 = false /\
    reverse args2 = false /\ openssl args2 = true) as Hforce.
  { unfold checkForcedecode. intros args2.
    destruct (forcedecode args1) eqn:Hf; [|intros [= <-]; congruence].
    destruct stupidgcm_BuiltWithoutOpenssl; [done|].
    destruct (aessiv args1) eqn:Ha; [done|].
    destruct (reverse args1) eqn:Hr; [done|].
    destruct (_ && _); [done|]. by intros [= <-]. }
  destruct (checkForcedecode args1 opensslAuto) as [args2|]; [|done].
  specialize (Hforce args2 eq_refl).
  unfold checkExclusive, Empty.
  destruct (extpass args2) as [|e es] eqn:Hext,
           (passfile args2) as [|p ps] eqn:Hpass;
    cbn [length Nat.eqb negb andb];
    destruct (String.eqb_spec (masterkey args2) ""),
             (String.eqb_spec (fido2 args2) "");
    cbn [negb andb]; try done;
    destruct (Z.ltb_spec (idle args2) 0); try done;
    intros [= <-]; rewrite ?Hext, ?Hpass; split_and!; auto.
Qed.

(** X26. The post-processing of parseCliOptsBase: an "-openssl" value other
    than "auto" that is no boolean ends the process with the usage code;
    when the call returns, openssl is the parsed value, or for "auto" what
    stupidgcm prefers (true under "-forcedecode"); _explicitScryptn is set
    when "-scryptn" was passed; ro, allow_other and ko change only under
    "-forcedecode"; all other options are as the flag package left
    them. *)
Theorem parseCliOptsBase_postprocessing (osArgs : list string)
    (args args' : argContainer) (opensslAuto : string) (scryptnPassed : bool) :
  flagSet_Parse (tail osArgs) = Parsed args opensslAuto scryptnPassed ->
  (opensslAuto <> "auto" -> is_Error (strconv_ParseBool opensslAuto) ->
   parseCliOptsBase osArgs = Exit exitcodes.Usage) /\
  (parseCliOptsBase osArgs = Return args' ->
   (if String.eqb opensslAuto "auto"
    then openssl args' = (stupidgcm_PreferOpenSSL || forcedecode args)
    else strconv_ParseBool opensslAuto = Ok (openssl args')) /\
   _explicitScryptn args' = (scryptnPassed || _explicitScryptn args) /\
   (forcedecode args = false ->
    ro args' = ro args /\ allow_other args' = allow_other args /\
    ko args' = ko args) /\
   init args' = init args /\ passwd args' = passwd args /\
   info args' = info args /\ fsck args' = fsck args /\
   reverse args' = reverse args /\ aessiv args' = aessiv args /\
   forcedecode args' = forcedecode args /\
   masterkey args' = masterkey args /\ fido2 args' = fido2 args /\
   extpass args' = extpass args /\ passfile args' = passfile args /\
   idle args' = idle args).
Proof.
  intros Hparse. unfold parseCliOptsBase. rewrite Hparse. split.
  - intros Hauto%String.eqb_neq. rewrite Hauto.
    by destruct (strconv_ParseBool opensslAuto).
  - set (args1 := if scryptnPassed then _ else args).
    assert (_explicitScryptn args1 = (scryptnPassed || _explicitScryptn args)
            /\ ro args1 = ro args /\ allow_other args1 = allow_other args
            /\ ko args1 = ko args /\ init args1 = init args
            /\ passwd args1 = passwd args /\ info args1 = info args
            /\ fsck args1 = fsck args /\ reverse args1 = reverse args
            /\ aessiv args1 = aessiv args
            /\ forcedecode args1 = forcedecode args
            /\ masterkey args1 = masterkey args /\ fido2 args1 = fido2 args
            /\ extpass args1 = extpass args /\ passfile args1 = passfile args
            /\ idle args1 = idle args) as H1
      by (subst args1; by destruct scryptnPassed).
    clearbody args1.
    destruct H1 as (Hs & Hro & Hao & Hko & Hinit & Hpw & Hinfo & Hfsck & Hrev
                    & Haes & Hfd & Hmk & Hf2 & Hep & Hpf & Hidle).
    rewrite <- Hs, <- Hro, <- Hao, <- Hko, <- Hinit, <- Hpw, <- Hinfo,
      <- Hfsck, <- Hrev, <- Haes, <- Hfd, <- Hmk, <- Hf2, <- Hep, <- Hpf,
      <- Hidle.
    clear Hs Hro Hao Hko Hinit Hpw Hinfo Hfsck Hrev Haes Hfd Hmk Hf2 Hep Hpf
      Hidle Hparse.
    destruct (String.eqb opensslAuto "auto") eqn:Hauto.
    + unfold checkForcedecode. cbn [forcedecode aessiv reverse openssl
        set_openssl]. rewrite Hauto. cbn [negb andb].
      rewrite andb_false_r.
      destruct (forcedecode args1) eqn:Hf.
      * destruct stupidgcm_BuiltWithoutOpenssl; [done|].
        destruct (aessiv args1) eqn:Ha; [done|].
        destruct (reverse args1) eqn:Hr; [done|].
        unfold checkExclusive.
        repeat (destruct (_ && _); [done|]).
        destruct (_ <? _)%Z; [done|]. intros [= <-].
        cbn. rewrite orb_true_r. by split_and!.
      * unfold checkExclusive.
        repeat (destruct (_ && _); [done|]).
        destruct (_ <? _)%Z; [done|]. intros [= <-].
        cbn. rewrite orb_false_r. by split_and!.
    + destruct (strconv_ParseBool opensslAuto) as [b|]; [|done].
      unfold checkForcedecode. cbn [forcedecode aessiv reverse openssl
        set_openssl]. rewrite Hauto. cbn [negb andb]. rewrite andb_true_r.
      destruct (forcedecode args1) eqn:Hf.
      * destruct stupidgcm_BuiltWithoutOpenssl; [done|].
        destruct (aessiv args1) eqn:Ha; [done|].
        destruct (reverse args1) eqn:Hr; [done|].
        destruct b; cbn [negb]; [|done].
        unfold checkExclusive.
        repeat (destruct (_ && _); [done|]).
        destruct (_ <? _)%Z; [done|]. intros [= <-]. cbn. by split_and!.
      * unfold checkExclusive.
        repeat (destruct (_ && _); [done|]).
        destruct (_ <? _)%Z; [done|]. intros [= <-]. cbn. by split_and!.
Qed.

(** X27. countOpFlags counts at most four flags; it is 0 exactly when none
    of info, passwd, init and fsck is set, and at most 1 exactly when no
    two of them are set together. *)
Theorem countOpFlags_at_most_one (args : argContainer) :
  countOpFlags args <= 4 /\
  (countOpFlags args = 0 <->
   info args = false /\ passwd args = false /\ init args = false /\
   fsck args = false) /\
  (countOpFlags args <= 1 <->
   ~ (info args = true /\ passwd args = true) /\
   ~ (info args = true /\ init args = true) /\
   ~ (info args = true /\ fsck args = true) /\
   ~ (passwd args = true /\ init args = true) /\
   ~ (passwd args = true /\ fsck args = true) /\
   ~ (init args = true /\ fsck args = true)).
Proof.
  unfold countOpFlags.
  destruct (info args), (passwd args), (init args), (fsck args);
    cbv zeta; (split_and!; [lia| |]); (split; [intros ?|intros ?]);
    try lia; try (split_and!; (done || (intros [? ?]; done)));
    try (destruct_and!; done); exfalso; destruct_and!; auto.
Qed.

Lemma substring_0_app_length (s t : string) :
  String.substring 0 (String.length s) (s +:+ t) = s.
Proof.
  induction s as [|c s IH]; [by destruct t|].
  change (String c s +:+ t) with (String c (s +:+ t)). cbn. by rewrite IH.
Qed.

(** X28. prettyArgs never panics, not even on an empty argument list, and
    returns the arguments separated by single spaces. *)
Theorem prettyArgs_spec (osArgs : list string) :
  prettyArgs osArgs = Some (strings_Join osArgs " ").
Proof.
  unfold prettyArgs, fmt_Sprint_strings, str_slice.
  set (j := strings_Join osArgs " ").
  change ("[" +:+ j +:+ "]") with (String "[" (j +:+ "]")).
  cbn [String.length]. rewrite string_length_append. cbn [String.length].
  replace (Z.of_nat (S (String.length j + 1)) - 1)%Z
    with (Z.of_nat (String.length j + 1)) by lia.
  match goal with
  | |- (if ?c then _ else _) = _ => assert (c = true) as ->
  end.
  { rewrite !andb_true_iff, !Z.leb_le. lia. }
  f_equal. change (Z.to_nat 1) with 1.
  replace (Z.to_nat (Z.of_nat (String.length j + 1) - 1))
    with (String.length j) by lia.
  cbn [String.substring]. apply substring_0_app_length.
Qed.

(** X29. isFlagPassed returns true exactly when a flag of that name is
    among the flags the flag set visits, those set on the command
    line. *)
Theorem isFlagPassed_spec (actual : list string) (name : string) :
  isFlagPassed actual name = true <-> name ∈ actual.
Proof.
  unfold isFlagPassed, flagSet_Visit. cbv zeta.
  assert (forall found,
    fold_left (fun s f_Name => if String.eqb f_Name name then true else s)
      actual found = true <-> found = true \/ name ∈ actual) as Hgen.
  { induction actual as [|f l IH]; intros found; cbn [fold_left].
    - split; [auto|]. intros [?|Hin]; [done|]. by apply not_elem_of_nil in Hin.
    - rewrite IH, elem_of_cons. destruct (String.eqb_spec f name) as [->|Hne].
      + split; intros _; [right; by left|by left].
      + split; [intros [?|?]; [by left|right; by right]|].
        intros [?|[?|?]]; [by left|congruence|by right]. }
  rewrite Hgen. split; [intros [?|?]; [done|auto]|auto].
Qed.

(** X30. An option that can be passed several times collects its values
    in the order they were passed and never reports an error, and Empty
    holds only as long as none was passed. *)
Theorem multipleStrings_Set_accumulates (s vals : list string) :
  fold_left (fun acc val =>
               match acc with
               | Ok s' => multipleStrings_Set s' val
               | Error err => Error err
               end) vals (Ok s) = Ok (s ++ vals) /\
  Empty (s ++ vals) = Empty s && Empty vals.
Proof.
  split.
  - revert s. induction vals as [|val vals IH]; intros s; cbn [fold_left].
    + by rewrite app_nil_r.
    + unfold multipleStrings_Set at 2. rewrite IH. by rewrite <- app_assoc.
  - unfold Empty. by destruct s, vals.
Qed.

End MoreParseCliOptsFacts.

Lemma parseCliOptsDiy_expands_witness :
  cli.parseCliOptsDiy (E := fixtures.E)
    ["gocryptfs"; "cipher"; "mnt"; "-o"; "reverse,aessiv"]
  = cli.parseCliOptsBase (E := fixtures.E)
      ["gocryptfs"; "-reverse"; "-aessiv"; "cipher"; "mnt"].
Proof.
  refine (proj1 (parseCliOptsDiy_expands (E := fixtures.E) "gocryptfs"
                   [cli.Plain "cipher"; cli.Plain "mnt";
                    cli.OSep "reverse,aessiv"] _ _) _).
  - repeat constructor; discriminate.
  - intros H%list_elem_of_In. cbn in H. intuition discriminate.
  - cbn. lia.
Defined.

Lemma parseCliOptsBase_exit_codes_witness :
  (0%Z = 0%Z /\
   cli.flagSet_Parse (Env := fixtures.E) (tail ["gocryptfs"; "-h"])
   = cli.ParseErrHelp) \/
  (0%Z = exitcodes.Usage /\
   cli.flagSet_Parse (Env := fixtures.E) (tail ["gocryptfs"; "-h"])
   <> cli.ParseErrHelp).
Proof.
  apply (parseCliOptsBase_exit_codes (E := fixtures.E) ["gocryptfs"; "-h"] 0).
  - discriminate.
  - vm_compute. reflexivity.
Defined.

Lemma parseCliOptsBase_return_invariant_witness :
  exists args',
    cli.parseCliOptsBase (E := fixtures.E)
      ["gocryptfs"; "-forcedecode"; "-passfile"; "pw.txt"; "cipher"; "mnt"]
    = cli.Return args' /\
    (cli.passfile args' = [] \/ cli.masterkey args' = "") /\
    (cli.forcedecode args' = true -> cli.aessiv args' = false).
Proof.
  pose (args' :=
          match cli.parseCliOptsBase (E := fixtures.E)
                  ["gocryptfs"; "-forcedecode"; "-passfile"; "pw.txt";
                   "cipher"; "mnt"] with
          | cli.Return a => a
          | _ => cli.defaultArgs
          end).
  assert (cli.parseCliOptsBase (E := fixtures.E)
            ["gocryptfs"; "-forcedecode"; "-passfile"; "pw.txt"; "cipher";
             "mnt"] = cli.Return args') as Hreturn
    by (vm_compute; reflexivity).
  destruct (parseCliOptsBase_return_invariant (E := fixtures.E) _ args'
              Hreturn) as (_ & Hone & _ & Hforce).
  exists args'. split_and!; [exact Hreturn|exact Hone|].
  intros Hf. by destruct (Hforce Hf) as (_ & Ha & _).
Defined.

Lemma parseCliOptsBase_postprocessing_witness :
  exists args',
    cli.parseCliOptsBase (E := fixtures.E)
      ["gocryptfs"; "-reverse"; "-masterkey"; "00112233"; "cipher"; "mnt"]
    = cli.Return args' /\
    cli.openssl args' = true /\ cli.reverse args' = true /\
    cli.masterkey args' = "00112233" /\ cli.ro args' = false.
Proof.
  pose (args :=
          match fixtures.parseFlags
                  ["-reverse"; "-masterkey"; "00112233"; "cipher"; "mnt"]
                  cli.defaultArgs with
          | cli.Parsed a _ _ => a
          | _ => cli.defaultArgs
          end).
  pose (args' :=
          match cli.parseCliOptsBase (E := fixtures.E)
                  ["gocryptfs"; "-reverse"; "-masterkey"; "00112233";
                   "cipher"; "mnt"] with
          | cli.Return a => a
          | _ => cli.defaultArgs
          end).
  assert (cli.parseCliOptsBase (E := fixtures.E)
            ["gocryptfs"; "-reverse"; "-masterkey"; "00112233"; "cipher";
             "mnt"] = cli.Return args') as Hreturn
    by (vm_compute; reflexivity).
  destruct (parseCliOptsBase_postprocessing (E := fixtures.E)
              ["gocryptfs"; "-reverse"; "-masterkey"; "00112233"; "cipher";
               "mnt"] args args' "auto" false ltac:(vm_compute; reflexivity))
    as [_ Hpost].
  destruct (Hpost Hreturn)
    as (Hssl & _ & Hkeep & _ & _ & _ & _ & Hrev & _ & _ & Hmk & _).
  destruct (Hkeep eq_refl) as (Hro & _).
  exists args'. split_and!; [exact Hreturn|exact Hssl|exact Hrev|exact Hmk|exact Hro].
Defined.
